(** * Cline: type-name parser, value coercion registry and argv resolver

    A shallow embedding of [valueParser.ts], [util.ts], the [Cli] class
    (resolver, singleton binding) and [humanReadableType], together with
    the properties of the repository's specification that concern them.

    Conventions of the embedding.
    - A JavaScript string is a [string] whose characters are its code
      units; the embedding covers the code units below 256.
    - A JavaScript object used as a map is the finite map
      ([gmap string _]) of its own properties.  An object of the live
      tree is read through its prototype, [Object.prototype], as the
      resolver reads it, and the flags are written as a plain object is
      ([__proto__] is not an own key).  In the coercion registry the
      table of coercers is read through the same prototype.
    - A function that may throw returns an [Outcome]. *)

From Stdlib Require Import String Ascii ZArith List Bool Lia DecimalString.
From stdpp Require Import gmap strings.
Import ListNotations.

Open Scope string_scope.

(** ** JavaScript string built-ins used by the sources *)

Module JsString.

Definition singleton (ch : ascii) : string := String ch EmptyString.

(** [s.startsWith(prefix)] *)
Definition startsWith (s prefix : string) : bool := String.prefix prefix s.

(** Characters of [s] from position [n] on. *)
Fixpoint dropChars (n : nat) (s : string) : string :=
  match n, s with
  | 0, _ => s
  | S _, EmptyString => EmptyString
  | S n', String _ s' => dropChars n' s'
  end.

(** The first [n] characters of [s]. *)
Fixpoint takeChars (n : nat) (s : string) : string :=
  match n, s with
  | 0, _ => EmptyString
  | S _, EmptyString => EmptyString
  | S n', String c s' => String c (takeChars n' s')
  end.

(** [s.endsWith(suffix)] *)
Definition endsWith (s suffix : string) : bool :=
  (String.length suffix <=? String.length s)%nat
  && String.eqb (dropChars (String.length s - String.length suffix) s) suffix.

Fixpoint indexOf_from (sep s : string) (i : nat) : option nat :=
  if String.prefix sep s then Some i
  else match s with
       | EmptyString => None
       | String _ s' => indexOf_from sep s' (S i)
       end.

(** [s.indexOf(sep)], with [-1] when [sep] does not occur. *)
Definition indexOf (s sep : string) : Z :=
  match indexOf_from sep s 0 with
  | Some i => Z.of_nat i
  | None => (-1)%Z
  end.

Fixpoint lastIndexOf_from (sep s : string) (i : nat) : option nat :=
  match s with
  | EmptyString => if String.prefix sep s then Some i else None
  | String _ s' =>
      match lastIndexOf_from sep s' (S i) with
      | Some j => Some j
      | None => if String.prefix sep s then Some i else None
      end
  end.

(** [s.lastIndexOf(sep)] *)
Definition lastIndexOf (s sep : string) : Z :=
  match lastIndexOf_from sep s 0 with
  | Some i => Z.of_nat i
  | None => (-1)%Z
  end.

Definition clamp (len : nat) (i : Z) : nat :=
  if (i <? 0)%Z then 0 else Nat.min (Z.to_nat i) len.

(** [s.substring(from, to)]: both ends are clamped to [0, length] and
    swapped when [from > to]. *)
Definition substring (s : string) (from to : Z) : string :=
  let a := clamp (String.length s) from in
  let b := clamp (String.length s) to in
  let lo := Nat.min a b in
  let hi := Nat.max a b in
  takeChars (hi - lo) (dropChars lo s).

(** [s.substring(from)] *)
Definition substringFrom (s : string) (from : Z) : string :=
  substring s from (Z.of_nat (String.length s)).

(** [s.split(sep)] for a non-empty separator: [skip] counts the
    characters of a matched separator that are still to be passed over,
    [cur] holds the characters of the current segment. *)
Fixpoint split_go (sep : string) (skip : nat) (cur : string) (s : string)
  : list string :=
  match s with
  | EmptyString => [cur]
  | String c s' =>
      match skip with
      | S k => split_go sep k cur s'
      | 0 =>
          if String.prefix sep s
          then cur :: split_go sep (String.length sep - 1) EmptyString s'
          else split_go sep 0 (cur +:+ singleton c) s'
      end
  end.

Fixpoint chars (s : string) : list string :=
  match s with
  | EmptyString => []
  | String c s' => singleton c :: chars s'
  end.

(** [s.split(sep)]; an empty separator splits into code units. *)
Definition split (s sep : string) : list string :=
  match sep with
  | EmptyString => chars s
  | _ => split_go sep 0 EmptyString s
  end.

(** [parts.join(sep)] *)
Definition join (parts : list string) (sep : string) : string :=
  String.concat sep parts.

Definition lowerUnit (c : ascii) : ascii :=
  let n := N_of_ascii c in
  if ((65 <=? n) && (n <=? 90)
      || (192 <=? n) && (n <=? 222) && negb (n =? 215))%N
  then ascii_of_N (n + 32)
  else c.

(** [s.toLowerCase()] on code units below 256. *)
Fixpoint toLowerCase (s : string) : string :=
  match s with
  | EmptyString => EmptyString
  | String c s' => String (lowerUnit c) (toLowerCase s')
  end.

(** White space and line terminators among the code units below 256. *)
Definition isWhiteSpace (c : ascii) : bool :=
  let n := N_of_ascii c in
  ((9 <=? n) && (n <=? 13) || (n =? 32) || (n =? 160))%N.

Fixpoint trimStart (s : string) : string :=
  match s with
  | EmptyString => EmptyString
  | String c s' => if isWhiteSpace c then trimStart s' else s
  end.

Fixpoint trimEnd (s : string) : string :=
  match s with
  | EmptyString => EmptyString
  | String c s' =>
      match trimEnd s' with
      | EmptyString => if isWhiteSpace c then EmptyString else singleton c
      | rest => String c rest
      end
  end.

(** [s.trim()] *)
Definition trim (s : string) : string := trimEnd (trimStart s).

(** [list.includes(x)] on strings. *)
Definition includes (l : list string) (x : string) : bool :=
  existsb (String.eqb x) l.

End JsString.

(** ** What every plain object inherits *)

Module JsObject.

(** The property names of [Object.prototype]: eleven functions and the
    accessor [__proto__]. *)
Definition OBJECT_PROTOTYPE_KEYS : list string :=
  ["constructor"; "__defineGetter__"; "__defineSetter__"; "hasOwnProperty";
   "__lookupGetter__"; "__lookupSetter__"; "isPrototypeOf";
   "propertyIsEnumerable"; "toString"; "valueOf"; "__proto__";
   "toLocaleString"].

End JsObject.

(** A result that is either returned or thrown as an [Error] with the
    given message. *)
Inductive Outcome (A : Type) : Type :=
| Return (a : A)
| Throw (message : string).
Arguments Return {A} a.
Arguments Throw {A} message.

Definition bind {A B : Type} (o : Outcome A) (k : A -> Outcome B) : Outcome B :=
  match o with
  | Return a => k a
  | Throw m => Throw m
  end.

Fixpoint mapM {A B : Type} (f : A -> Outcome B) (l : list A) : Outcome (list B) :=
  match l with
  | [] => Return []
  | x :: l' =>
      bind (f x) (fun y => bind (mapM f l') (fun ys => Return (y :: ys)))
  end.

(** ** util.ts *)

Module Util.

Import JsString.

(** [splitOnceOrZero(text, {separator, trim})]: the one- or two-element
    tuple is a string with an optional second string. *)
Definition splitOnceOrZero (text separator : string) (trimOpt : bool)
  : string * option string :=
  let pos := indexOf text separator in
  if (pos <? 0)%Z then (text, None)
  else
    let left := substring text 0 pos in
    let right := substringFrom text (pos + 1) in
    if trimOpt then (trim left, Some (trim right))
    else (left, Some right).

Definition splitOnceOrFail (text separator : string) (trimOpt : bool)
  : Outcome (string * string) :=
  match splitOnceOrZero text separator trimOpt with
  | (l, Some r) => Return (l, r)
  | (_, None) => Throw ("Expected exactly one separator in '" +:+ text +:+ "'")
  end.

(** [removePrefix(text, prefix)] *)
Definition removePrefix (text prefix : string) : string :=
  if negb (String.eqb prefix "") && startsWith text prefix
  then substringFrom text (Z.of_nat (String.length prefix))
  else text.

End Util.

(** ** valueParser.ts *)

Module ValueParser.

Import JsString JsObject Util.

(** *** Values produced by coercion *)

(** A double is kept as the built-in call that produces it: floating
    point arithmetic is outside this embedding. *)
Inductive number : Type :=
| NumberOf (text : string)      (* Number(text) *)
| DateParseOf (text : string).  (* Date.parse(text) *)

(** [VObject entries] stands for [Object.fromEntries(entries)]: the
    list holds the entries in the order they are written; in the object
    a later entry prevails over an earlier one with the same key.
    [VNative callee argument] is what the function [Object.prototype]
    has under [callee] returns for [argument] where that is an object
    or a function: the String object [Object(argument)] for
    [constructor], the table of coercers itself for [valueOf], an
    accessor of [__proto__] for [__lookupGetter__] and
    [__lookupSetter__]. *)
#[warnings="-register-all"] Inductive value : Type :=
| VUndefined
| VNull
| VBool (b : bool)
| VString (s : string)
| VNumber (n : number)
| VBigInt (z : Z)
| VArray (items : list value)
| VObject (entries : list (value * value))
| VNative (callee : string) (argument : string).

Definition Parser : Type := string -> Outcome value.

(** *** Built-in coercers *)

(** [String(text)] *)
Definition String_ (text : string) : Outcome value := Return (VString text).

(** [Number(text)] *)
Definition Number_ (text : string) : Outcome value :=
  Return (VNumber (NumberOf text)).

(** [Boolean(text)]: a string is truthy unless it is empty. *)
Definition Boolean_ (text : string) : Outcome value :=
  Return (VBool (negb (String.eqb text ""))).

(** [Date.parse(text)] *)
Definition Date_parse (text : string) : Outcome value :=
  Return (VNumber (DateParseOf text)).

(** [identity] of util.ts *)
Definition identity (text : string) : Outcome value := Return (VString text).

Definition digitValue (radix : N) (c : ascii) : option N :=
  let n := N_of_ascii c in
  let v :=
    if ((48 <=? n) && (n <=? 57))%N then Some (n - 48)%N
    else if ((97 <=? n) && (n <=? 122))%N then Some (n - 87)%N
    else if ((65 <=? n) && (n <=? 90))%N then Some (n - 55)%N
    else None in
  match v with
  | Some d => if (d <? radix)%N then Some d else None
  | None => None
  end.

Fixpoint digits (radix acc : N) (s : string) : option N :=
  match s with
  | EmptyString => Some acc
  | String c s' =>
      match digitValue radix c with
      | Some d => digits radix (acc * radix + d)%N s'
      | None => None
      end
  end.

Definition digits1 (radix : N) (s : string) : option N :=
  match s with
  | EmptyString => None
  | _ => digits radix 0 s
  end.

(** The integer a string denotes for [BigInt]: white space around an
    optionally signed decimal numeral or an unsigned binary, octal or
    hexadecimal one; the empty numeral is zero. *)
Definition StringToBigInt (text : string) : option Z :=
  match trim text with
  | EmptyString => Some 0%Z
  | String "+" s => Z.of_N <$> digits1 10 s
  | String "-" s => (fun n => Z.opp (Z.of_N n)) <$> digits1 10 s
  | String "0" (String x s) as t =>
      if orb (Ascii.eqb x "b") (Ascii.eqb x "B") then Z.of_N <$> digits1 2 s
      else if orb (Ascii.eqb x "o") (Ascii.eqb x "O") then Z.of_N <$> digits1 8 s
      else if orb (Ascii.eqb x "x") (Ascii.eqb x "X") then Z.of_N <$> digits1 16 s
      else Z.of_N <$> digits1 10 t
  | t => Z.of_N <$> digits1 10 t
  end.

(** [BigInt(text)] *)
Definition BigInt_ (text : string) : Outcome value :=
  match StringToBigInt text with
  | Some z => Return (VBigInt z)
  | None => Throw ("Cannot convert " +:+ text +:+ " to a BigInt")
  end.

(** *** ParserRegistry *)

Record ParserRegistryOptions : Type := {
  opt_parsers : gmap string Parser;
  opt_arraySeparator : option string;
  opt_recordKeyValueSeparator : option string;
  opt_recordEntrySeparator : option string
}.

Record ParserRegistry : Type := {
  parsers : gmap string Parser;
  arraySeparator : string;
  recordEntrySeparator : string;
  recordKeyValueSeparator : string
}.

Definition builtinParsers : gmap string Parser :=
  <["string" := String_]>
  (<["number" := Number_]>
  (<["bigint" := BigInt_]>
  (<["boolean" := Boolean_]>
  (<["date" := Date_parse]>
  (<["undefined" := identity]>
  (<["unknown" := identity]>
  (<["any" := identity]> ∅))))))).

(** The constructor: caller-supplied coercers are spread after the
    built-in ones and so replace them.  [parsers] holds the own
    properties of the table; what the table inherits is added where it
    is read ([readerOf], [parse]). *)
Definition newParserRegistry (options : ParserRegistryOptions) : ParserRegistry :=
  {| parsers := opt_parsers options ∪ builtinParsers;
     arraySeparator := default "," (opt_arraySeparator options);
     recordEntrySeparator := default "," (opt_recordEntrySeparator options);
     recordKeyValueSeparator := default "=" (opt_recordKeyValueSeparator options) |}.

Definition defaultOptions : ParserRegistryOptions :=
  {| opt_parsers := ∅;
     opt_arraySeparator := None;
     opt_recordKeyValueSeparator := None;
     opt_recordEntrySeparator := None |}.

(** *** Type names *)

Definition ARRAY_BASE_TYPE_NAMES : list string :=
  ["Array"; "ReadonlyArray"; "Set"; "ReadonlySet"].
Definition RECORD_BASE_TYPE_NAMES : list string :=
  ["Record"; "Map"; "ReadonlyMap"].

Definition getArrayElementTypeName (typeName : string) : string :=
  if endsWith typeName "[]"
  then substring typeName 0 (Z.of_nat (String.length typeName) - 2)
  else
    let begin := indexOf typeName "<" in
    let end_ := lastIndexOf typeName ">" in
    substring typeName (begin + 1) end_.

Definition getMapEntryTypeName (typeName : string) : Outcome (string * string) :=
  let begin := indexOf typeName "<" in
  let end_ := lastIndexOf typeName ">" in
  let entry := substring typeName (begin + 1) end_ in
  splitOnceOrFail entry "," true.

(** [StringReader]: the text and the position of the next read. *)
Record StringReader : Type := {
  str : string;
  position : nat
}.

(** [read()] returns [str[position]] and advances the position. *)
Definition read (r : StringReader) : option ascii * StringReader :=
  (String.get (position r) (str r),
   {| str := str r; position := S (position r) |}).

Definition eof (r : StringReader) : bool :=
  (String.length (str r) <=? position r)%nat.

#[warnings="-register-all"] Inductive GenericTypeName : Type :=
  mkGenericTypeName {
    typeName : string;
    typeParameters : list GenericTypeName
  }.

Definition between (lo hi ch : ascii) : bool :=
  ((N_of_ascii lo <=? N_of_ascii ch) && (N_of_ascii ch <=? N_of_ascii hi))%N.

Definition isIdentifierChar (ch : ascii) (position : nat) : bool :=
  if between "a" "z" ch then true
  else if between "A" "Z" ch then true
  else if between "A" "Z" ch then true
  else if orb (Ascii.eqb ch "_") (Ascii.eqb ch "$") then true
  else if (0 <? position)%nat && between "0" "9" ch then true
  else false.

(** [readTypeNameFromReader]: the loop over the reader, one unit of
    [fuel] per character read.  The locals [nameOver], [typeOver],
    [buffer] and [typeParameters] are the loop's state; the reader is
    shared with the nested calls, so its position is threaded through
    them.  [None] stands for fuel that ran out. *)
Fixpoint readLoop (fuel : nat) (reader : StringReader)
    (nameOver typeOver : bool) (buffer : string)
    (typeParameters : list GenericTypeName)
  : option (Outcome (GenericTypeName * StringReader)) :=
  match fuel with
  | 0 => None
  | S fuel' =>
      if eof reader
      then Some (Return (mkGenericTypeName buffer typeParameters, reader))
      else
        let '(ch, reader) := read reader in
        match ch with
        | None => Some (Return (mkGenericTypeName buffer typeParameters, reader))
        | Some ch =>
            if Ascii.eqb ch " " then
              readLoop fuel' reader
                (if (0 <? String.length buffer)%nat then true else nameOver)
                typeOver buffer typeParameters
            else if negb nameOver && negb typeOver
                    && isIdentifierChar ch (String.length buffer) then
              readLoop fuel' reader nameOver typeOver
                (buffer +:+ singleton ch) typeParameters
            else if orb (Ascii.eqb ch "<") (Ascii.eqb ch ",") then
              match readLoop fuel' reader false false "" [] with
              | None => None
              | Some (Throw m) => Some (Throw m)
              | Some (Return (parameter, reader)) =>
                  readLoop fuel' reader true typeOver buffer
                    (typeParameters ++ [parameter])
              end
            else if Ascii.eqb ch ">" then
              readLoop fuel' reader true true buffer typeParameters
            else
              Some (Throw ("Failed to read type name '"
                           +:+ buffer +:+ singleton ch +:+ "'"))
        end
  end.

Definition readTypeNameFromReader (fuel : nat) (reader : StringReader)
  : option (Outcome (GenericTypeName * StringReader)) :=
  readLoop fuel reader false false "" [].

(** Fuel that covers every character of the text and the final test
    for the end of input. *)
Definition fuelFor (typeName : string) : nat := S (String.length typeName).

Definition parseTypeName (typeName : string) : Outcome GenericTypeName :=
  if endsWith typeName "[]" then
    let elementType :=
      mkGenericTypeName (getArrayElementTypeName typeName) [] in
    Return (mkGenericTypeName "Array" [elementType])
  else
    let reader := {| str := typeName; position := 0 |} in
    match readTypeNameFromReader (fuelFor typeName) reader with
    | Some (Return (t, _)) => Return t
    | Some (Throw m) => Throw m
    | None => Throw "out of fuel"
    end.

(** *** Coercion *)

(** A property key or template hole given [undefined] reads as the
    text "undefined". *)
Definition keyText (name : option string) : string := default "undefined" name.

(** *** Names the table of coercers inherits

    [this.parsers] is an object literal: under a name of
    [Object.prototype] that is not a coercer's, a read finds the
    inherited property.  The messages of the TypeErrors are V8's. *)

(** [this.parsers[name](text)] for such a name: the inherited function
    is called with the table as its receiver.  ([toLocaleString] calls
    the [toString] of the table, which is taken to be the inherited
    one; [__proto__] reads the prototype, which is not a function.) *)
Definition inheritedMethod (this : ParserRegistry) (name text : string)
  : Outcome value :=
  let own := match parsers this !! text with Some _ => true | None => false end in
  if String.eqb name "toString" || String.eqb name "toLocaleString"
  then Return (VString "[object Object]")
  else if String.eqb name "isPrototypeOf"
  then Return (VBool false)
  else if String.eqb name "hasOwnProperty"
          || String.eqb name "propertyIsEnumerable"
  then Return (VBool own)
  else if String.eqb name "constructor" || String.eqb name "valueOf"
  then Return (VNative name text)
  else if String.eqb name "__lookupGetter__"
          || String.eqb name "__lookupSetter__"
  then if String.eqb text "__proto__" && negb own
       then Return (VNative name text)
       else Return VUndefined
  else if String.eqb name "__defineGetter__"
  then Throw "Object.prototype.__defineGetter__: Expecting function"
  else if String.eqb name "__defineSetter__"
  then Throw "Object.prototype.__defineSetter__: Expecting function"
  else Throw "this.parsers[typeName] is not a function".

(** [callee(text)] where the variable [callee] holds what was read
    under such a name: the call has no receiver. *)
Definition inheritedReader (callee name : string) : Parser :=
  fun text =>
    if String.eqb name "toString"
    then Return (VString "[object Undefined]")
    else if String.eqb name "isPrototypeOf"
    then Return (VBool false)
    else if String.eqb name "constructor"
    then Return (VNative name text)
    else if String.eqb name "toLocaleString"
    then Throw "Object.prototype.toLocaleString called on null or undefined"
    else if String.eqb name "__proto__"
    then Throw (callee +:+ " is not a function")
    else Throw "Cannot convert undefined or null to object".

(** [const callee = this.parsers[key]]; [None] is [undefined]. *)
Definition readerOf (this : ParserRegistry) (callee key : string)
  : option Parser :=
  match parsers this !! key with
  | Some reader => Some reader
  | None =>
      if includes OBJECT_PROTOTYPE_KEYS key
      then Some (inheritedReader callee key)
      else None
  end.

Definition parseArray (this : ParserRegistry) (elementTypeName : option string)
    (text : string) : Outcome value :=
  match readerOf this "reader" (keyText elementTypeName) with
  | None => Throw ("No parser for type: " +:+ keyText elementTypeName)
  | Some reader =>
      bind (mapM reader (split text (arraySeparator this)))
           (fun items => Return (VArray items))
  end.

Definition parseRecord (this : ParserRegistry)
    (keyTypeName valueTypeName : option string) (text : string)
  : Outcome value :=
  match readerOf this "keyReader" (keyText keyTypeName),
        readerOf this "valueReader" (keyText valueTypeName) with
  | None, _ => Throw ("No parser for type: " +:+ keyText keyTypeName)
  | Some _, None => Throw ("No parser for type: " +:+ keyText valueTypeName)
  | Some keyReader, Some valueReader =>
      let entryStrings := split text (recordEntrySeparator this) in
      let entryTuples :=
        map (fun s => splitOnceOrZero s (recordKeyValueSeparator this) false)
            entryStrings in
      bind
        (mapM (fun '(key, value) =>
                 bind (keyReader key) (fun k =>
                 match value with
                 | None => Return (k, VUndefined)
                 | Some v => bind (valueReader v) (fun w => Return (k, w))
                 end))
              entryTuples)
        (fun typedEntries => Return (VObject typedEntries))
  end.

(** [ParserRegistry.parse], the coercion entry point.
    [typeName in this.parsers] holds for the name of a coercer and for
    a name the table inherits. *)
Definition parse (this : ParserRegistry) (typeName text : string)
  : Outcome value :=
  match parsers this !! typeName with
  | Some parser => parser text
  | None =>
      if includes OBJECT_PROTOTYPE_KEYS typeName
      then inheritedMethod this typeName text
      else
      bind (parseTypeName typeName) (fun parsedTypeName =>
        let names := map ValueParser.typeName (typeParameters parsedTypeName) in
        if includes ARRAY_BASE_TYPE_NAMES (ValueParser.typeName parsedTypeName)
        then parseArray this (names !! 0%nat) text
        else if includes RECORD_BASE_TYPE_NAMES (ValueParser.typeName parsedTypeName)
        then parseRecord this (names !! 0%nat) (names !! 1%nat) text
        else Throw ("No parser for type: " +:+ typeName))
  end.

(** [coerce] is the specification's name for [parse] on a registry
    built with the default options. *)
Definition coerce (typeName text : string) : Outcome value :=
  parse (newParserRegistry defaultOptions) typeName text.

End ValueParser.

(** ** output/format.ts *)

Module Format.

Definition ESC : string := String (ascii_of_nat 27) EmptyString.

Definition decimal (n : nat) : string :=
  DecimalString.NilEmpty.string_of_uint (Nat.to_uint n).

Definition Formatter : Type := string -> string.

Definition ansiFormatter (startCode endCode : nat) : Formatter :=
  fun text =>
    ESC +:+ "[" +:+ decimal startCode +:+ "m" +:+ text
        +:+ ESC +:+ "[" +:+ decimal endCode +:+ "m".

Definition fg_red : Formatter := ansiFormatter (30 + 1) 39.
Definition fg_yellow : Formatter := ansiFormatter (30 + 3) 39.
Definition fg_blue : Formatter := ansiFormatter (30 + 4) 39.
Definition style_bold : Formatter := ansiFormatter 1 22.
Definition style_italic : Formatter := ansiFormatter 3 23.
Definition style_underline : Formatter := ansiFormatter 4 24.

(** [format(text, ...formatters)] *)
Definition format (text : string) (formatters : list Formatter) : string :=
  fold_left (fun s formatter => formatter s) formatters text.

End Format.

(** ** metaInterface.ts and the type rendering of ast.ts *)

Module Meta.

Inductive MetaScalarType : Type :=
| bigint | boolean | number | string_.

(** The literal a scalar type is at run time. *)
Definition scalarText (t : MetaScalarType) : string :=
  match t with
  | bigint => "bigint"
  | boolean => "boolean"
  | number => "number"
  | string_ => "string"
  end.

(** ['string'|'number'], the key types of a record. *)
Inductive KeyDataType : Type :=
| KeyString | KeyNumber.

Definition keyScalar (k : KeyDataType) : MetaScalarType :=
  match k with
  | KeyString => string_
  | KeyNumber => number
  end.

Inductive Access : Type :=
| AccessPrivate | AccessProtected | AccessPackage | AccessPublic.

Record MetaTaggable : Type := {
  summary : option string;
  seeAlso : option string;
  aliases : option (list string);
  default_ : option string;
  example : option string;
  ignore : option bool;
  access : option Access
}.

#[warnings="-register-all"] Inductive MetaType : Type :=
| ScalarType (t : MetaScalarType)
| ArrayType (valueDataType : MetaTypeRef)
| RecordType (keyDataType : KeyDataType) (valueDataType : MetaTypeRef)
| ObjectType (name : option string) (description : option string)
             (members : list (string * MetaMember))
with MetaTypeRef : Type :=
| TypeRef (type : MetaType) (nullable : bool)
with MetaMember : Type :=
| ObjectProperty (tags : MetaTaggable) (name : string)
                 (description : option string) (dataType : MetaTypeRef)
| ScalarProperty (tags : MetaTaggable) (name : string)
                 (description : option string) (dataType : MetaTypeRef)
| Method (tags : MetaTaggable) (name : string) (description : option string)
         (parameters : list MetaParameter) (returnDataType : MetaReturnType)
with MetaParameter : Type :=
| MkParameter (name : string) (description : option string)
              (dataType : option MetaTypeRef)   (* [None] is 'unknown' *)
with MetaReturnType : Type :=
| ReturnsRef (r : MetaTypeRef)
| ReturnsUnknown
| ReturnsVoid.

Record MetaInterface : Type := {
  interfaceDescription : option string;
  packageName : option string;
  packageVersion : option string;
  interfaceMembers : list (string * MetaMember)
}.

(** The argument of [humanReadableType]:
    [MetaTypeRef | MetaType | MetaUnknownType]. *)
Inductive TypeArgument : Type :=
| OfRef (r : MetaTypeRef)
| OfType (t : MetaType)
| OfUnknown.

(** [humanReadableType] on a [MetaType] and on a [MetaTypeRef].  The
    tests of the source run in this order: a string is returned as it
    is, a value with [keyDataType] is a record, one with [valueDataType]
    an array, one with [type] a reference, anything else an object. *)
Fixpoint renderType (t : MetaType) : string :=
  match t with
  | ScalarType s => scalarText s
  | RecordType k v =>
      "Map<" +:+ scalarText (keyScalar k) +:+ ", " +:+ renderRef v +:+ ">"
  | ArrayType v => renderRef v +:+ "[]"
  | ObjectType name _ _ => default "unknown" name
  end
with renderRef (r : MetaTypeRef) : string :=
  match r with
  | TypeRef t _ => renderType t
  end.

Definition humanReadableType (a : TypeArgument) : string :=
  match a with
  | OfUnknown => "unknown"
  | OfType t => renderType t
  | OfRef r => renderRef r
  end.

(** [isTypeNullable(type)] for [MetaTypeRef | 'unknown']. *)
Definition isTypeNullable (a : option MetaTypeRef) : bool :=
  match a with
  | Some (TypeRef _ nullable) => nullable
  | None => false
  end.

End Meta.

(** ** cli.ts *)

Module Cli.

Import JsString JsObject Util Format Meta.

Definition FLAG_NO_VALUES : list string := ["no"; "0"; "off"; "false"].
Definition FLAG_YES_VALUES : list string := ["yes"; "1"; "on"; "true"].

(** [booleanFlagValue(value, {defaultValue})]; [None] is [undefined].
    The message lists the two arrays as the template prints them. *)
Definition booleanFlagValue (value : option string) (defaultValue : bool)
  : Outcome bool :=
  match value with
  | None => Return defaultValue
  | Some EmptyString => Return defaultValue
  | Some value =>
      let lowerValue := toLowerCase value in
      if includes FLAG_NO_VALUES lowerValue then Return false
      else if includes FLAG_YES_VALUES lowerValue then Return true
      else Throw ("Illegal boolean flag value: " +:+ value
                  +:+ " (expected one of "
                  +:+ join (FLAG_NO_VALUES ++ [join FLAG_YES_VALUES ","]) ","
                  +:+ ")")
  end.

Definition FLAG_PREFIX : string := "--".

(** *** Errors and the fatal path *)

Record JsError : Type := {
  errorName : string;
  errorMessage : string;
  exitCode : option Z
}.

(** [new Error(message)] *)
Definition newError (message : string) : JsError :=
  {| errorName := "Error"; errorMessage := message; exitCode := None |}.

(** [formatError(ex)] of util.ts, on an [Error]. *)
Definition formatError (ex : JsError) : string :=
  let name :=
    if negb (String.eqb (errorName ex) "")
       && negb (String.eqb (toLowerCase (errorName ex)) "error")
    then errorName ex else "" in
  let message := errorMessage ex in
  if negb (String.eqb name "") && negb (String.eqb message "")
  then name +:+ " - " +:+ message
  else name +:+ message.

(** *** The live command tree *)

(** Run-time values of the live tree.  A number is kept as its literal
    text.  A function has its declared parameter count and a body that
    receives the declared parameters as bound by the call and the whole
    argument list.  [LBuiltin name] is the function [Object.prototype]
    has under [name] ([Object] itself under [constructor]).  An object
    is the map of its own members; its prototype is
    [Object.prototype]. *)
#[warnings="-register-all"] Inductive live : Type :=
| LUndefined
| LNull
| LBoolean (b : bool)
| LNumber (literal : string)
| LBigInt (z : Z)
| LString (s : string)
| LSymbol (description : string)
| LFunction (declared : nat)
            (body : list (option string) -> list string -> Outcome live)
| LBuiltin (name : string)
| LObject (members : gmap string live).

Inductive TypeOf : Type :=
| TUndefined | TObject | TBoolean | TNumber | TBigInt | TString | TSymbol
| TFunction.

(** The context of the resolver: a value of the live tree, or the
    instance's own [showHelp] arrow function. *)
Inductive Context : Type :=
| Live (v : live)
| ShowHelp.

Definition typeofLive (v : live) : TypeOf :=
  match v with
  | LUndefined => TUndefined
  | LNull => TObject
  | LBoolean _ => TBoolean
  | LNumber _ => TNumber
  | LBigInt _ => TBigInt
  | LString _ => TString
  | LSymbol _ => TSymbol
  | LFunction _ _ => TFunction
  | LBuiltin _ => TFunction
  | LObject _ => TObject
  end.

Definition typeof (c : Context) : TypeOf :=
  match c with
  | Live v => typeofLive v
  | ShowHelp => TFunction
  end.

(** [v == null] *)
Definition isNil (v : live) : bool :=
  match v with
  | LUndefined | LNull => true
  | _ => false
  end.

(** [Object.prototype] as an object: its own properties are the
    eleven functions and the accessor [__proto__], which reads as
    [null] on it. *)
Definition objectPrototype : live :=
  LObject
    (list_to_map
       (map (fun name =>
               (name,
                if String.eqb name "__proto__" then LNull else LBuiltin name))
            OBJECT_PROTOTYPE_KEYS)).

(** What an object that has no own property [key] reads under it:
    the property of [Object.prototype], [undefined] where it has
    none.  The accessor [__proto__] gives the prototype itself. *)
Definition inherited (key : string) : live :=
  if includes OBJECT_PROTOTYPE_KEYS key then
    if String.eqb key "__proto__" then objectPrototype else LBuiltin key
  else LUndefined.

(** [object[key]] on an object with these own members. *)
Definition readMember (members : gmap string live) (key : string) : live :=
  match members !! key with
  | Some v => v
  | None => inherited key
  end.

(** [context[key]].  The program is an object
    ([Record<PropertyKey, unknown>]) and the resolver descends into
    objects only: a read on a primitive or on a function happens only
    after [contextFinal] is set, where the value read is not used; it
    is taken as [undefined]. *)
Definition getProperty (c : Context) (key : string) : live :=
  match c with
  | Live (LObject members) => readMember members key
  | _ => LUndefined
  end.

(** The declared parameters as a call binds them: the argument at the
    same position, [None] ([undefined]) where there is none. *)
Definition bindParameters (declared : nat) (arguments : list string)
  : list (option string) :=
  map (fun i => arguments !! i) (seq 0 declared).

(** [callee(...arguments)] *)
Definition call (declared : nat)
    (body : list (option string) -> list string -> Outcome live)
    (arguments : list string) : Outcome live :=
  body (bindParameters declared arguments) arguments.

(** *** What a run does, as the sequence of its observable actions *)

Inductive Event : Type :=
| ValueHandled (v : live)                         (* this.valueHandler(v) *)
| Called (callee : live) (arguments : list string) (* context(...positionalArgs) *)
| WrapperHandled (primitive : string)   (* this.valueHandler(Object(primitive)) *)
| HelpShown (path : list string)                   (* this.showHelp(...path) *)
| ConsoleError (text : string)                     (* console.error(text) *)
| ProcessExit (code : Z)                           (* process.exit(code) *)
| Rejected (message : string).                     (* the callable threw *)

(** [Cli.print.error(ex)] with no options. *)
Definition printError (ex : JsError) : list Event :=
  [ConsoleError (format "ERROR:" [style_bold; fg_red] +:+ " "
                 +:+ formatError ex +:+ String (ascii_of_nat 10) EmptyString)].

Definition failGracefully (ex : JsError) : list Event :=
  printError ex ++ [ProcessExit (default 1%Z (exitCode ex))].

(** *** The Cli instance and the process *)

Record CliOptions : Type := {
  opt_autoHelp : option bool;
  opt_commandName : option string
}.

Record Cli : Type := {
  program : live;
  metaInterface : MetaInterface;
  autoHelp : bool;
  commandName : string;
  argv : list string;
  runtimePath : option string;
  scriptPath : option string;
  rawArgs : list string;
  positionalArgs : list string;
  flags : gmap string string
}.

(** The process: its argument vector, the base name of the running
    script ([path.basename(process.argv[1])]) and the static
    [Cli.instance]. *)
Record Process : Type := {
  process_argv : list string;
  scriptBaseName : string;
  instance : option Cli
}.

(** The constructor: the field initialisers, then the options assigned
    over them, then the default of [commandName]. *)
Definition newCli (p : Process) (program : live) (metaInterface : MetaInterface)
    (options : CliOptions) : Cli :=
  {| program := program;
     metaInterface := metaInterface;
     autoHelp := default true (opt_autoHelp options);
     commandName :=
       match opt_commandName options with
       | None | Some EmptyString => scriptBaseName p
       | Some name => name
       end;
     argv := [];
     runtimePath := None;
     scriptPath := None;
     rawArgs := [];
     positionalArgs := [];
     flags := ∅ |}.

(** The result of a step that may end the process. *)
Inductive Bound : Type :=
| Installed (inst : Cli) (p : Process)
| Terminated (events : list Event) (p : Process).

(** [Cli.of(program, metaInterface, options)] *)
Definition of_ (p : Process) (program : live) (metaInterface : MetaInterface)
    (options : CliOptions) : Bound :=
  match instance p with
  | Some _ =>
      Terminated
        (failGracefully
           (newError "Cli is a singleton, cannot create multiple instances"))
        p
  | None =>
      let inst := newCli p program metaInterface options in
      Installed inst
        {| process_argv := process_argv p;
           scriptBaseName := scriptBaseName p;
           instance := Some inst |}
  end.

(** *** Resolving the argument vector *)

(** [parseArgs(argv)] *)
Definition parseArgs (this : Cli) (argv : list string) : Cli :=
  {| program := program this;
     metaInterface := metaInterface this;
     autoHelp := autoHelp this;
     commandName := commandName this;
     argv := argv;
     runtimePath := argv !! 0%nat;
     scriptPath := argv !! 1%nat;
     rawArgs := drop 2 argv;
     positionalArgs := positionalArgs this;
     flags := flags this |}.

(** The locals of [runInternal]. *)
Record Resolver : Type := {
  context : Context;
  contextDepth : nat;
  contextFinal : bool;
  r_positionalArgs : list string;
  r_flags : gmap string string
}.

Definition initial (program : live) : Resolver :=
  {| context := Live program;
     contextDepth := 0;
     contextFinal := false;
     r_positionalArgs := [];
     r_flags := ∅ |}.

(** The name and the value of a flag: [const [name, ...values] =
    arg.substring(FLAG_PREFIX.length).split('=')] and
    [values.join('=')]. A missing first element is [undefined], which
    as a property key reads "undefined". *)
Definition flagOf (arg : string) : string * string :=
  match split (substringFrom arg (Z.of_nat (String.length FLAG_PREFIX))) "=" with
  | name :: values => (name, join values "=")
  | [] => ("undefined", join [] "=")
  end.

(** [flags[name] = value] on the plain object [flags], for a string
    [value]: under [__proto__] the assignment goes to the setter the
    object inherits, which ignores a value that is not an object and
    stores nothing. *)
Definition assign (flags : gmap string string) (name value : string)
  : gmap string string :=
  if String.eqb name "__proto__" then flags else <[name := value]> flags.

(** One iteration of the loop over [rawArgs]. *)
Definition step (autoHelp : bool) (st : Resolver) (arg : string) : Resolver :=
  if autoHelp && (contextDepth st =? 0)%nat
     && String.eqb (toLowerCase arg) "help"
  then
    {| context := ShowHelp;
       contextDepth := S (contextDepth st);
       contextFinal := true;
       r_positionalArgs := r_positionalArgs st;
       r_flags := r_flags st |}
  else
    let contextProp := getProperty (context st) arg in
    if negb (contextFinal st) && negb (isNil contextProp) then
      match typeofLive contextProp with
      | TBigInt | TBoolean | TNumber | TString | TFunction =>
          {| context := Live contextProp;
             contextDepth := S (contextDepth st);
             contextFinal := true;
             r_positionalArgs := r_positionalArgs st;
             r_flags := r_flags st |}
      | TObject =>
          {| context := Live contextProp;
             contextDepth := S (contextDepth st);
             contextFinal := contextFinal st;
             r_positionalArgs := r_positionalArgs st;
             r_flags := r_flags st |}
      | _ => st
      end
    else if startsWith arg FLAG_PREFIX then
      let '(name, value) := flagOf arg in
      {| context := context st;
         contextDepth := contextDepth st;
         contextFinal := contextFinal st;
         r_positionalArgs := r_positionalArgs st;
         r_flags := assign (r_flags st) name value |}
    else
      {| context := context st;
         contextDepth := contextDepth st;
         contextFinal := contextFinal st;
         r_positionalArgs := r_positionalArgs st ++ [arg];
         r_flags := r_flags st |}.

(** The loop. *)
Definition resolve (autoHelp : bool) (program : live) (rawArgs : list string)
  : Resolver :=
  fold_left (step autoHelp) rawArgs (initial program).

(** What follows the call [builtin(...arguments)] of a function of
    [Object.prototype], which the run makes without a receiver.
    [toString] and [isPrototypeOf] return; [Object] returns a new
    object, a String object when it has an argument; the others throw
    a TypeError on the missing receiver (given here with the messages
    of V8). *)
Definition builtinEvents (name : string) (arguments : list string)
  : list Event :=
  if String.eqb name "toString"
  then [ValueHandled (LString "[object Undefined]")]
  else if String.eqb name "isPrototypeOf"
  then [ValueHandled (LBoolean false)]
  else if String.eqb name "constructor"
  then match arguments with
       | [] => [ValueHandled (LObject ∅)]
       | primitive :: _ => [WrapperHandled primitive]
       end
  else if String.eqb name "toLocaleString"
  then [Rejected "Object.prototype.toLocaleString called on null or undefined"]
  else [Rejected "Cannot convert undefined or null to object"].

(** The final [switch (typeof context)].  [showHelp] is represented by
    the event of its call with its path: what it prints, that it reads
    the [debug] flag of the instance and that it throws on a path it
    cannot follow are not part of the event.  The body of a callable
    of the tree is a function of its arguments. *)
Definition dispatch (st : Resolver) : list Event :=
  match context st with
  | ShowHelp => [HelpShown (r_positionalArgs st)]
  | Live v =>
      match v with
      | LBigInt _ | LBoolean _ | LNumber _ | LString _ => [ValueHandled v]
      | LFunction declared body =>
          Called v (r_positionalArgs st) ::
          match call declared body (r_positionalArgs st) with
          | Return returnValue =>
              if isNil returnValue then [] else [ValueHandled returnValue]
          | Throw message => [Rejected message]
          end
      | LBuiltin name =>
          Called v (r_positionalArgs st)
          :: builtinEvents name (r_positionalArgs st)
      | _ => failGracefully (newError "i dunno what to do")
      end
  end.

(** [runInternal()], reading [processArgv] for [process.argv]: the
    instance after the run and the events of the run. *)
Definition runInternal (this : Cli) (processArgv : list string)
  : Cli * list Event :=
  let this := parseArgs this processArgv in
  let st := resolve (autoHelp this) (program this) (rawArgs this) in
  ({| program := program this;
      metaInterface := metaInterface this;
      autoHelp := autoHelp this;
      commandName := commandName this;
      argv := argv this;
      runtimePath := runtimePath this;
      scriptPath := scriptPath this;
      rawArgs := rawArgs this;
      positionalArgs := r_positionalArgs st;
      flags := r_flags st |},
   dispatch st).

(** The events of [run()] on [tokens] given after the runtime and
    script paths, where [DEBUG_MODE] is false (the environment has no
    [DEBUG]): [handleFailure] then only awaits [runInternal], and a
    rejection of it is handled by nobody. *)
Definition run (this : Cli) (tokens : list string) : list Event :=
  snd (runInternal this ("node" :: "script" :: tokens)).

End Cli.

(** ** demo.ts *)

Module Demo.

Import Meta Cli.

(** The demo program.  [stuff] and [bar] only print, so they return
    [undefined]; [version] reads the package version of the bound
    instance's metadata. *)
Definition stuff : live := LFunction 0 (fun _ _ => Return LUndefined).

Definition bar : live := LFunction 2 (fun _ _ => Return LUndefined).

Definition version (meta : MetaInterface) : live :=
  LFunction 0 (fun _ _ =>
    Return (LString (default "unknown" (packageVersion meta)))).

Definition foo : live :=
  LObject (<["name" := LString "shawn"]>
          (<["stuff" := stuff]>
          (<["bar" := bar]> ∅))).

Definition goob : live :=
  LObject (<["middleName" := LString "cameron"]>
          (<["lastName" := LString "tabai"]> ∅)).

Definition program (meta : MetaInterface) : live :=
  LObject (<["foo" := foo]>
          (<["goob" := goob]>
          (<["version" := version meta]> ∅))).

(** The generated [programMetaInterface.json] is not among the sources;
    this stand-in has no members and no package fields. *)
Definition programMetaInterface : MetaInterface :=
  {| interfaceDescription := None;
     packageName := None;
     packageVersion := None;
     interfaceMembers := [] |}.

Definition options : CliOptions :=
  {| opt_autoHelp := Some true; opt_commandName := Some "demo" |}.

Definition freshProcess : Process :=
  {| process_argv := ["bun"; "demo.ts"];
     scriptBaseName := "demo.ts";
     instance := None |}.

(** The instance that [Cli.run(program, programMetaInterface, options)]
    binds in a fresh process. *)
Definition cli : Cli :=
  newCli freshProcess (program programMetaInterface) programMetaInterface
         options.

End Demo.

(** ** Notions used to state the properties *)

Module Notions.

Import JsString ValueParser Cli.

(** The text of a descriptor in the grammar of the specification: a
    name, followed for a generic by its parameters between angle
    brackets, separated by commas. *)
Fixpoint specText (t : GenericTypeName) : string :=
  match t with
  | mkGenericTypeName name [] => name
  | mkGenericTypeName name (p :: ps) =>
      name +:+ "<"
      +:+ fold_left (fun acc q => acc +:+ "," +:+ specText q) ps (specText p)
      +:+ ">"
  end.

(** A descriptor in which every node has at most one type parameter. *)
Fixpoint isChain (t : GenericTypeName) : bool :=
  match t with
  | mkGenericTypeName _ [] => true
  | mkGenericTypeName _ [p] => isChain p
  | mkGenericTypeName _ (_ :: _ :: _) => false
  end.

(** The characters of [s] are identifier characters, the first of them
    standing at [position]; from position 0 a digit cannot come first. *)
Fixpoint identifierFrom (position : nat) (s : string) : bool :=
  match s with
  | EmptyString => true
  | String c s' => isIdentifierChar c position && identifierFrom (S position) s'
  end.

(** The descriptor of [name<n1<n2<...>>>]: each generic has the next as
    its one parameter. *)
Fixpoint chainOf (name : string) (names : list string) : GenericTypeName :=
  match names with
  | [] => mkGenericTypeName name []
  | n :: ns => mkGenericTypeName name [chainOf n ns]
  end.

(** [count] closing angle brackets. *)
Fixpoint closers (count : nat) : string :=
  match count with
  | 0 => EmptyString
  | S k => String ">" (closers k)
  end.

(** The reader that has read [before] and has [after] left. *)
Definition readerAt (before after : string) : StringReader :=
  {| str := before +:+ after; position := String.length before |}.

(** The last character of a string. *)
Fixpoint lastChar (s : string) : option ascii :=
  match s with
  | EmptyString => None
  | String c EmptyString => Some c
  | String _ s' => lastChar s'
  end.

(** What [Record<string,number>] makes of one entry of the text: the
    key and the value as texts, [undefined] for a missing value. *)
Definition textEntry (entry : string) : value * value :=
  match Util.splitOnceOrZero entry "=" false with
  | (key, None) => (VString key, VUndefined)
  | (key, Some v) => (VString key, VString v)
  end.

(** A token recorded as a flag or as a positional, the context kept. *)
Definition classify (st : Resolver) (arg : string) : Resolver :=
  if startsWith arg FLAG_PREFIX then
    {| context := context st;
       contextDepth := contextDepth st;
       contextFinal := contextFinal st;
       r_positionalArgs := r_positionalArgs st;
       r_flags := assign (r_flags st) (fst (flagOf arg)) (snd (flagOf arg)) |}
  else
    {| context := context st;
       contextDepth := contextDepth st;
       contextFinal := contextFinal st;
       r_positionalArgs := r_positionalArgs st ++ [arg];
       r_flags := r_flags st |}.

(** The test that takes a token as the help keyword. *)
Definition takenAsHelp (autoHelp : bool) (st : Resolver) (arg : string) : bool :=
  autoHelp && (contextDepth st =? 0)%nat && String.eqb (toLowerCase arg) "help".


(** The instance with another program. *)
Definition withProgram (this : Cli) (program : live) : Cli :=
  {| program := program;
     metaInterface := metaInterface this;
     autoHelp := autoHelp this;
     commandName := commandName this;
     argv := argv this;
     runtimePath := runtimePath this;
     scriptPath := scriptPath this;
     rawArgs := rawArgs this;
     positionalArgs := positionalArgs this;
     flags := flags this |}.

(** A character does not occur in a string. *)
Fixpoint absent (c : ascii) (s : string) : bool :=
  match s with
  | EmptyString => true
  | String d s' => negb (Ascii.eqb d c) && absent c s'
  end.

(** Tokens that do not start with the flag prefix. *)
Definition positionalsOf (tokens : list string) : list string :=
  List.filter (fun a => negb (startsWith a FLAG_PREFIX)) tokens.

Definition isError (e : Event) : bool :=
  match e with
  | ConsoleError _ | ProcessExit _ | Rejected _ => true
  | _ => false
  end.

Definition isHelp (e : Event) : bool :=
  match e with
  | HelpShown _ => true
  | _ => false
  end.

(** Once the context is final the depth is positive. *)
Definition settled (st : Resolver) : Prop :=
  contextFinal st = true -> 0 < contextDepth st.

(** The text [Cli.print.error] writes for [new Error(message)]. *)
Definition errorText (message : string) : string :=
  Format.format "ERROR:" [Format.style_bold; Format.fg_red] +:+ " "
  +:+ message +:+ String (ascii_of_nat 10) EmptyString.





(** Two live values that differ only in what reads as [null] or
    [undefined] on both sides: in one such a member may be present
    with that value and in the other be missing. *)
#[warnings="-register-all"] Inductive alike : live -> live -> Prop :=
| alike_same (v : live) : alike v v
| alike_objects (m1 m2 : gmap string live) :
    (forall key : string,
        (isNil (readMember m1 key) = true /\
         isNil (readMember m2 key) = true) \/
        alike (readMember m1 key) (readMember m2 key)) ->
    alike (LObject m1) (LObject m2).

Inductive alikeContext : Context -> Context -> Prop :=
| alike_help : alikeContext ShowHelp ShowHelp
| alike_live (v1 v2 : live) : alike v1 v2 -> alikeContext (Live v1) (Live v2).

(** Two resolver states that agree on everything but such members. *)
Definition related (s1 s2 : Resolver) : Prop :=
  alikeContext (context s1) (context s2) /\
  contextDepth s1 = contextDepth s2 /\
  contextFinal s1 = contextFinal s2 /\
  r_positionalArgs s1 = r_positionalArgs s2 /\
  r_flags s1 = r_flags s2.

End Notions.


(** ** Further notions used to state properties *)

Module NotionsMore.

Import JsString ValueParser Cli Notions.

Definition isObject (v : live) : bool :=
  match v with
  | LObject _ => true
  | _ => false
  end.

(** The value a path of member names leads to in the live tree: every
    name is a member of the object reached so far, with a value that is
    neither [null], nor [undefined], nor a symbol. *)
Fixpoint follow (v : live) (path : list string) : option live :=
  match path with
  | [] => Some v
  | key :: rest =>
      match v with
      | LObject members =>
          match members !! key with
          | Some child =>
              match child with
              | LUndefined | LNull | LSymbol _ => None
              | _ => follow child rest
              end
          | None => None
          end
      | _ => None
      end
  end.

(** The context is a value of type bigint, boolean, number or string. *)
Definition isScalar (v : live) : bool :=
  match v with
  | LBigInt _ | LBoolean _ | LNumber _ | LString _ => true
  | _ => false
  end.

End NotionsMore.

(** ** util.ts: the loops *)

Module UtilLoops.

Import JsString.

(** The [while] loop of [romanNumeral], on an integer [remainder];
    [None] when the iterations allowed by [fuel] are used up. *)
Fixpoint romanLoop (fuel : nat) (remainder : Z) (buffer : string)
  : option string :=
  if (remainder >? 0)%Z then
    match fuel with
    | 0 => None
    | S fuel' =>
        if (remainder >=? 100)%Z
        then romanLoop fuel' (remainder - 100) (buffer +:+ "c")
        else if (remainder >=? 90)%Z
        then romanLoop fuel' (remainder - 90) (buffer +:+ "xc")
        else if (remainder >=? 50)%Z
        then romanLoop fuel' (remainder - 50) (buffer +:+ "l")
        else if (remainder >=? 40)%Z
        then romanLoop fuel' (remainder - 40) (buffer +:+ "xl")
        else if (remainder >=? 10)%Z
        then romanLoop fuel' (remainder - 10) (buffer +:+ "x")
        else if (remainder >=? 9)%Z
        then romanLoop fuel' (remainder - 9) (buffer +:+ "ix")
        else if (remainder >=? 5)%Z
        then romanLoop fuel' (remainder - 5) (buffer +:+ "v")
        else if (remainder >=? 4)%Z
        then romanLoop fuel' (remainder - 4) (buffer +:+ "iv")
        else romanLoop fuel' (remainder - 1) (buffer +:+ "i")
    end
  else Some buffer.

(** [romanNumeral(value)] on an integer: every iteration takes at
    least one off the remainder, so [value] iterations are allowed.
    The source counts down a double and builds a string: the
    embedding stands for it on the integers whose numeral is a string
    an engine holds, up to [ROMAN_RANGE] at the least, where the
    doubles are exact. *)
Definition romanNumeral (value : Z) : option string :=
  romanLoop (Z.to_nat value) value "".

(** A bound below which the numeral, of a hundredth of the value in
    length, is far from the longest string of any engine. *)
Definition ROMAN_RANGE : Z := 1000000.

Definition newline : ascii := ascii_of_nat 10.

(** [/[\s,\.\?\!]/.test(ch)] on one code unit. *)
Definition isBreak (ch : ascii) : bool :=
  isWhiteSpace ch
  || Ascii.eqb ch "," || Ascii.eqb ch "." || Ascii.eqb ch "?"
  || Ascii.eqb ch "!".

(** The [for] loop of [wrap] from index [i] on, [rest] being the
    remainder from that index: the last wrap position found and whether
    a new line of the text ended the scan.  The loop runs only where
    the remainder is longer than [maxWidth], so every index it reads is
    inside the remainder. *)
Fixpoint scan (rest : string) (i : nat) (maxWidth : Z) (lastWrapPos : Z)
  : Z * bool :=
  match rest with
  | EmptyString => (lastWrapPos, false)
  | String ch rest' =>
      if (Z.of_nat i <? maxWidth)%Z then
        if Ascii.eqb ch newline then (Z.of_nat i, true)
        else if isBreak ch then scan rest' (S i) maxWidth (Z.of_nat i)
        else scan rest' (S i) maxWidth lastWrapPos
      else (lastWrapPos, false)
  end.

(** The [while] loop of [wrap]; [None] when the iterations allowed by
    [fuel] are used up. *)
Fixpoint wrapLoop (fuel : nat) (remainder buffer : string) (maxWidth : Z)
  : option string :=
  if (0 <? String.length remainder)%nat then
    match fuel with
    | 0 => None
    | S fuel' =>
        let buffer :=
          if (0 <? String.length buffer)%nat
          then buffer +:+ singleton newline else buffer in
        if (Z.of_nat (String.length remainder) <=? maxWidth)%Z
        then Some (buffer +:+ remainder)
        else
          let '(found, hardNewLine) := scan remainder 0 maxWidth (-1) in
          let lastWrapPos := if (found <? 0)%Z then maxWidth else found in
          let buffer :=
            buffer +:+ trimEnd (substring remainder 0 (lastWrapPos + 1)) in
          let remainder := substringFrom remainder (lastWrapPos + 1) in
          let remainder :=
            if hardNewLine then trimStart remainder else remainder in
          wrapLoop fuel' remainder buffer maxWidth
    end
  else Some buffer.

(** [wrap(text, maxWidth)] for an integer width.  With a width of at
    least zero every iteration shortens the remainder, so one iteration
    for each character is allowed. *)
Definition wrap (text : string) (maxWidth : Z) : option string :=
  wrapLoop (String.length text) text "" maxWidth.

End UtilLoops.

(** ** Notions for wrapping *)

Module WrapNotions.

Import JsString UtilLoops.

(** The lines the loop has put in the buffer: none is longer than the
    width by more than one. *)
Definition wrapped (maxWidth : Z) (buffer : string) : Prop :=
  exists pieces,
    buffer = join pieces (singleton newline) /\
    Forall (fun piece => (Z.of_nat (String.length piece) <= maxWidth + 1)%Z)
           pieces.

End WrapNotions.

(** ** Notions for the numerals *)

Module NumeralNotions.

(** The value of a numeral symbol. *)
Definition symbolValue (ch : ascii) : Z :=
  if Ascii.eqb ch "i" then 1
  else if Ascii.eqb ch "v" then 5
  else if Ascii.eqb ch "x" then 10
  else if Ascii.eqb ch "l" then 50
  else if Ascii.eqb ch "c" then 100
  else 0.

(** A numeral as it is read: a symbol before a larger one is taken off,
    any other is added. *)
Fixpoint numeralValue (s : string) : Z :=
  match s with
  | EmptyString => 0
  | String a rest =>
      match rest with
      | EmptyString => symbolValue a
      | String b _ =>
          if (symbolValue a <? symbolValue b)%Z
          then numeralValue rest - symbolValue a
          else numeralValue rest + symbolValue a
      end
  end.

(** The numeral of a number by its digits: a [c] for every hundred,
    then the tens, then the units. *)
Fixpoint hundreds (count : nat) : string :=
  match count with
  | 0 => ""
  | S n => String "c" (hundreds n)
  end.

Definition tens (digit : Z) : string :=
  match digit with
  | 1 => "x" | 2 => "xx" | 3 => "xxx" | 4 => "xl" | 5 => "l"
  | 6 => "lx" | 7 => "lxx" | 8 => "lxxx" | 9 => "xc"
  | _ => ""
  end%Z.

Definition units (digit : Z) : string :=
  match digit with
  | 1 => "i" | 2 => "ii" | 3 => "iii" | 4 => "iv" | 5 => "v"
  | 6 => "vi" | 7 => "vii" | 8 => "viii" | 9 => "ix"
  | _ => ""
  end%Z.

Definition numeralOf (value : Z) : string :=
  hundreds (Z.to_nat (value / 100))
  +:+ tens (value mod 100 / 10) +:+ units (value mod 10).

End NumeralNotions.

(** ** output/columns.ts *)

Module Columns.

Import JsString Format.

(** A cell: a string, or [None] for [null] or [undefined].  (These are
    the cells [showHelp] builds.) *)
Definition Cell : Type := option string.
Definition Row : Type := list Cell.
Definition DataSet : Type := list Row.

(** [ColumnOptions]; [None] is a property the options do not have.
    An object of data sets is the list of its entries in property
    order. *)
Record ColumnOptions : Type := {
  opt_maxWidth : option Z;
  opt_padding : option Z;
  opt_paddingChar : option string;
  opt_rowPrefix : option string;
  opt_columnFormatters : option (gmap nat Formatter);
  opt_dataSets : option (list (string * DataSet))
}.

(** The fields of a [ColumnPrinter]; [columnWidths] is the array with
    the indices it has.  ([maxWidth], which no method reads, is left
    out.) *)
Record ColumnPrinter : Type := {
  padding : Z;
  columnFormatters : gmap nat Formatter;
  paddingChar : string;
  rowPrefix : string;
  dataSets : list (string * DataSet);
  columnWidths : gmap nat nat
}.

(** [row[i]?.toString().length ?? 0] *)
Definition cellWidth (cell : Cell) : nat :=
  match cell with
  | Some text => String.length text
  | None => 0
  end.

(** The inner loop of [updateColumnWidths], from index [i] on. *)
Fixpoint updateRow (widths : gmap nat nat) (row : Row) (i : nat)
  : gmap nat nat :=
  match row with
  | [] => widths
  | cell :: rest =>
      let widths :=
        match widths !! i with
        | None => <[i := cellWidth cell]> widths
        | Some known =>
            if (known <? cellWidth cell)%nat
            then <[i := cellWidth cell]> widths
            else widths
        end in
      updateRow widths rest (S i)
  end.

Definition updateColumnWidths (widths : gmap nat nat) (dataSet : DataSet)
  : gmap nat nat :=
  fold_left (fun widths row => updateRow widths row 0) dataSet widths.

(** [new ColumnPrinter(options)]: the field initialisers, the options
    copied over them, then the widths of every data set. *)
Definition newColumnPrinter (options : ColumnOptions) : ColumnPrinter :=
  let sets := default [] (opt_dataSets options) in
  {| padding := default 2%Z (opt_padding options);
     columnFormatters := default ∅ (opt_columnFormatters options);
     paddingChar := default " " (opt_paddingChar options);
     rowPrefix := default "" (opt_rowPrefix options);
     dataSets := sets;
     columnWidths :=
       fold_left (fun widths entry => updateColumnWidths widths entry.2)
                 sets ∅ |}.

(** [object[key]] on the entries of an object. *)
Fixpoint entryOf {A : Type} (entries : list (string * A)) (key : string)
  : option A :=
  match entries with
  | [] => None
  | (k, a) :: rest => if String.eqb k key then Some a else entryOf rest key
  end.

(** [object[key] = a]: the entry is replaced where the object has the
    key, added at the end where it has not. *)
Fixpoint setEntry {A : Type} (entries : list (string * A)) (key : string)
    (a : A) : list (string * A) :=
  match entries with
  | [] => [(key, a)]
  | (k, old) :: rest =>
      if String.eqb k key then (k, a) :: rest
      else (k, old) :: setEntry rest key a
  end.

(** [addDataSet(key, data)] *)
Definition addDataSet (this : ColumnPrinter) (key : string) (data : DataSet)
  : ColumnPrinter :=
  {| padding := padding this;
     columnFormatters := columnFormatters this;
     paddingChar := paddingChar this;
     rowPrefix := rowPrefix this;
     dataSets := setEntry (dataSets this) key data;
     columnWidths := updateColumnWidths (columnWidths this) data |}.

(** What a call of [printDataSet] can throw. *)
Inductive Failure : Type :=
| InvalidCount (count : Z)     (* the RangeError of [repeat] *)
| NotIterable.                 (* the TypeError of [for ... of undefined] *)

Fixpoint repeatString (s : string) (count : nat) : string :=
  match count with
  | 0 => ""
  | S n => s +:+ repeatString s n
  end.

(** [s.repeat(count)] on an integer count. *)
Definition repeat (s : string) (count : Z) : Failure + string :=
  if (count <? 0)%Z then inl (InvalidCount count)
  else inr (repeatString s (Z.to_nat count)).

(** The callback of [row.map] in [printDataSet].  Where the array of
    widths has no index [i], the count is [NaN], which [repeat] takes
    as zero. *)
Definition padCell (this : ColumnPrinter) (cell : Cell) (i : nat)
  : Failure + string :=
  let cellText := default "" cell in
  let cellPadding :=
    match columnWidths this !! i with
    | Some width =>
        repeat (paddingChar this)
               (Z.of_nat width - Z.of_nat (String.length cellText))
    | None => inr ""
    end in
  match cellPadding with
  | inl failure => inl failure
  | inr cellPadding =>
      let formattedCellText :=
        match columnFormatters this !! i with
        | None => cellText
        | Some formatter => formatter cellText
        end in
      inr (formattedCellText +:+ cellPadding)
  end.

Fixpoint padCells (this : ColumnPrinter) (row : Row) (i : nat)
  : Failure + list string :=
  match row with
  | [] => inr []
  | cell :: rest =>
      match padCell this cell i with
      | inl failure => inl failure
      | inr padded =>
          match padCells this rest (S i) with
          | inl failure => inl failure
          | inr others => inr (padded :: others)
          end
      end
  end.

(** The line [printDataSet] logs for one row. *)
Definition printRow (this : ColumnPrinter) (row : Row) : Failure + string :=
  match padCells this row 0 with
  | inl failure => inl failure
  | inr paddedCells =>
      match repeat (paddingChar this) (padding this) with
      | inl failure => inl failure
      | inr separator => inr (rowPrefix this +:+ join paddedCells separator)
      end
  end.



End Columns.

(** ** Notions for the column printer *)

Module ColumnNotions.

Import Columns.

(** The widths have, for every cell of the row, a width at its index
    that is no less than the cell's. *)
Definition covers (widths : gmap nat nat) (row : Row) : Prop :=
  forall i cell,
    row !! i = Some cell ->
    exists width, widths !! i = Some width /\ cellWidth cell <= width.

(** A printer as the class makes it: constructed, then given further
    data sets. *)
Inductive built : ColumnPrinter -> Prop :=
| built_new (options : ColumnOptions) : built (newColumnPrinter options)
| built_add (this : ColumnPrinter) (key : string) (data : DataSet) :
    built this -> built (addDataSet this key data).

(** The sum of the widths of the first [n] columns. *)
Fixpoint widthsUpTo (widths : gmap nat nat) (n : nat) : nat :=
  match n with
  | 0 => 0
  | S m => widthsUpTo widths m + default 0 (widths !! m)
  end.

(** Widths only grow. *)
Definition grows (widths widths' : gmap nat nat) : Prop :=
  forall i width,
    widths !! i = Some width ->
    exists width', widths' !! i = Some width' /\ width <= width'.

(** The lengths of the strings of a list, added up. *)
Definition totalLength (cells : list string) : nat :=
  fold_right (fun cell total => String.length cell + total) 0 cells.

(** The widths of [n] columns from column [i] on. *)
Fixpoint widthsFrom (widths : gmap nat nat) (i n : nat) : nat :=
  match n with
  | 0 => 0
  | S m => default 0 (widths !! i) + widthsFrom widths (S i) m
  end.

(** A printer of two columns, as [showHelp] makes one for its groups
    (without the formatter of the first column). *)
Definition groupColumns : ColumnPrinter :=
  newColumnPrinter
    {| opt_maxWidth := None; opt_padding := None;
       opt_paddingChar := None; opt_rowPrefix := Some "  ";
       opt_columnFormatters := None;
       opt_dataSets :=
         Some [("groups", [[Some "db"; Some "Database commands"];
                           [Some "cache"; None]])] |}.

End ColumnNotions.

(** ** cli.ts: the path of [showHelp] *)

Module Help.

Import JsString JsObject Meta Columns.







End Help.

(** ** Notions for the help path *)

Module HelpNotions.

Import Meta.



End HelpNotions.

(** ** output/format.ts: the colour tables *)

Module Colors.

Import JsString Format.

(** [COLOR_OFFSETS], as [Object.entries] lists it. *)
Definition COLOR_OFFSETS : list (string * nat) :=
  [("black", 0); ("red", 1); ("green", 2); ("yellow", 3);
   ("blue", 4); ("purple", 5); ("cyan", 6); ("white", 7)].

Definition BRIGHT_OFFSET : nat := 60.

(** [ch.toUpperCase()] on the code units whose upper case is one code
    unit below 256 (which leaves out three code units that no colour
    name has). *)
Definition upperUnit (c : ascii) : ascii :=
  let n := N_of_ascii c in
  if ((97 <=? n) && (n <=? 122)
      || (224 <=? n) && (n <=? 254) && negb (n =? 247))%N
  then ascii_of_N (n - 32)
  else c.

(** [bright(text)]: [text[0].toUpperCase() + text.substring(1)], on a
    colour name, which is not empty. *)
Definition bright (text : string) : string :=
  match text with
  | EmptyString => EmptyString
  | String c rest => String (upperUnit c) (substringFrom text 1)
  end.

(** [colorFormatters(baseCode, resetCode)] *)
Definition colorFormatters (baseCode resetCode : nat)
  : gmap string Formatter :=
  fold_left
    (fun formatters entry =>
       let normalColor := entry.1 in
       let brightColor := bright normalColor in
       <[brightColor :=
           ansiFormatter (baseCode + BRIGHT_OFFSET + entry.2) resetCode]>
         (<[normalColor := ansiFormatter (baseCode + entry.2) resetCode]>
            formatters))
    COLOR_OFFSETS ∅.

Definition fg : gmap string Formatter := colorFormatters 30 39.
Definition bg : gmap string Formatter := colorFormatters 40 49.

Definition style_faint : Formatter := ansiFormatter 2 22.
Definition style_strikethrough : Formatter := ansiFormatter 9 29.

(** [formatter(...formatters)] *)
Definition formatter (formatters : list Formatter) : Formatter :=
  fun text => format text formatters.

End Colors.

(** ** output/layout.ts: rendering of text blocks *)

Module Layout.

Import JsString Format Colors.

(** [FormattedSpan]; [None] is a property the span does not have (or
    has as [undefined]). *)
Record FormattedSpan : Type := {
  text : string;
  color : option string;
  bold : option bool;
  faint : option bool;
  italic : option bool;
  underline : option bool;
  strikethrough : option bool
}.

Inductive TextPart : Type :=
| Plain (s : string)
| Span (span : FormattedSpan).

Inductive TextBlock : Type :=
| BlockString (s : string)
| BlockParts (parts : list TextPart).

(** The width the logger wraps at. *)
Definition maxWidth : nat := 100.

(** [flag === true] *)
Definition isTrue (flag : option bool) : bool :=
  match flag with
  | Some true => true
  | _ => false
  end.

Definition applyIf (condition : bool) (formatter : Formatter) (s : string)
  : string :=
  if condition then formatter s else s.

(** [renderPart(text)]: the rendering and the length of the text.  A
    colour that [fg] has no formatter for makes the call of
    [fg[text.color]] a TypeError (given here with the message of V8). *)
Definition renderPart (part : TextPart) : Outcome (string * nat) :=
  match part with
  | Plain s => Return (s, String.length s)
  | Span span =>
      let buffer := text span in
      bind (match color span with
            | None => Return buffer
            | Some name =>
                match fg !! name with
                | Some formatter => Return (formatter buffer)
                | None => Throw "fg[text.color] is not a function"
                end
            end)
           (fun buffer =>
              let buffer := applyIf (isTrue (bold span)) style_bold buffer in
              let buffer := applyIf (isTrue (faint span)) style_faint buffer in
              let buffer := applyIf (isTrue (italic span)) style_italic buffer in
              let buffer :=
                applyIf (isTrue (underline span)) style_underline buffer in
              let buffer :=
                applyIf (isTrue (strikethrough span)) style_strikethrough
                        buffer in
              Return (buffer, String.length (text span)))
  end.

(** The [for] loop of [renderBlock] over the parts left. *)
Fixpoint renderLoop (parts : list TextPart) (buffer line : string)
  : Outcome (string * string) :=
  match parts with
  | [] => Return (buffer, line)
  | part :: rest =>
      bind (renderPart part) (fun '(rendered, textLength) =>
        if (0 <? String.length line)%nat
           && (maxWidth <? String.length line + textLength)%nat
        then renderLoop rest (buffer +:+ line +:+ singleton (ascii_of_nat 10))
                        ("" +:+ rendered)
        else renderLoop rest buffer (line +:+ rendered))
  end.

(** [renderBlock(text)] *)
Definition renderBlock (block : TextBlock) : Outcome string :=
  match block with
  | BlockString s => Return s
  | BlockParts parts =>
      bind (renderLoop parts "" "") (fun '(buffer, line) =>
        if (0 <? String.length line)%nat
        then Return (buffer +:+ "line")
        else Return buffer)
  end.

(** [renderBlocks(text)] *)
Definition renderBlocks (blocks : list TextBlock) : Outcome string :=
  bind (mapM renderBlock blocks) (fun rendered => Return (join rendered "")).

End Layout.

(** ** ast.ts: readers of display parts and of flags *)

Module Ast.

Import JsString.

(** [ts.SymbolDisplayPart] *)
Record SymbolDisplayPart : Type := {
  kind : string;
  partText : string
}.

(** The [for] loop of [expandSymbolDisplay].  The attributes are a
    plain object: an assignment of a string under [__proto__] stores
    nothing. *)
Fixpoint expandLoop (parts : list SymbolDisplayPart)
    (attributes : gmap string string) (text : string)
    (remainingKinds : gset string)
  : Outcome (gmap string string * string) :=
  match parts with
  | [] => Return (attributes, text)
  | part :: rest =>
      if String.eqb (kind part) "text" || String.eqb (kind part) "space"
      then expandLoop rest attributes (text +:+ partText part) remainingKinds
      else if bool_decide (kind part ∈ remainingKinds)
      then expandLoop rest
                      (if String.eqb (kind part) "__proto__" then attributes
                       else <[kind part := partText part]> attributes)
                      text (remainingKinds ∖ {[kind part]})
      else Throw ("Unexpected symbol kind: " +:+ kind part)
  end.

(** [expandSymbolDisplay(parts, specialKinds)]: the attributes, and the
    [text] property of the result ([None] is [undefined]). *)
Definition expandSymbolDisplay (parts : list SymbolDisplayPart)
    (specialKinds : list string)
  : Outcome (gmap string string * option string) :=
  bind (expandLoop parts ∅ "" (list_to_set specialKinds))
       (fun '(attributes, text) =>
          let text := trim text in
          Return (attributes,
                  if (String.length text =? 0)%nat then None else Some text)).

(** [expandJsDocParamTag(parts)] *)
Definition expandJsDocParamTag (parts : list SymbolDisplayPart)
  : Outcome (gmap string string * option string) :=
  expandSymbolDisplay parts ["parameterName"].





End Ast.

(** ** Notions for the display parts *)

Module AstNotions.

Import Ast.

(** The kinds of the parts that are neither text nor space, in
    order. *)
Fixpoint specialKindsOf (parts : list SymbolDisplayPart) : list string :=
  match parts with
  | [] => []
  | part :: rest =>
      if String.eqb (kind part) "text" || String.eqb (kind part) "space"
      then specialKindsOf rest
      else kind part :: specialKindsOf rest
  end.

End AstNotions.

(** * Properties *)

(** ** String built-ins *)

Module StringFacts.

Import JsString Notions.

#[local] Arguments String.append !_ _ / : simpl nomatch.

Lemma append_empty_r (s : string) : s +:+ "" = s.
Proof. induction s as [|c s IH]; cbn; [reflexivity|now rewrite IH]. Qed.

Lemma append_assoc (a b c : string) : (a +:+ b) +:+ c = a +:+ (b +:+ c).
Proof. induction a as [|x a IH]; cbn; [reflexivity|now rewrite IH]. Qed.

Lemma length_append (a b : string) :
  String.length (a +:+ b) = String.length a + String.length b.
Proof. induction a as [|c a IH]; cbn; [reflexivity|now rewrite IH]. Qed.

Lemma dropChars_append (a b : string) : dropChars (String.length a) (a +:+ b) = b.
Proof. induction a as [|c a IH]; cbn; [reflexivity|exact IH]. Qed.

Lemma takeChars_append (a b : string) : takeChars (String.length a) (a +:+ b) = a.
Proof. induction a as [|c a IH]; cbn; [now destruct b|now rewrite IH]. Qed.

Lemma get_append (a b : string) (c : ascii) :
  String.get (String.length a) (a +:+ String c b) = Some c.
Proof. induction a as [|d a IH]; cbn; [reflexivity|exact IH]. Qed.

Lemma dropChars_length (n : nat) (s : string) :
  String.length (dropChars n s) = String.length s - n.
Proof.
  revert s. induction n as [|n IH]; intros [|c s]; cbn; auto; lia.
Qed.

Lemma takeChars_all (n : nat) (s : string) :
  String.length s <= n -> takeChars n s = s.
Proof.
  revert s. induction n as [|n IH]; intros [|c s]; cbn; intros H;
    try reflexivity; try lia.
  rewrite IH; [reflexivity|lia].
Qed.

Lemma dropChars_beyond (n : nat) (s : string) :
  String.length s <= n -> dropChars n s = "".
Proof.
  revert s. induction n as [|n IH]; intros [|c s]; cbn; intros H;
    try reflexivity; try lia.
  apply IH. lia.
Qed.

(** [s.substring(n)] drops the first [n] code units. *)
Lemma substringFrom_drop (s : string) (n : nat) :
  substringFrom s (Z.of_nat n) = dropChars n s.
Proof.
  unfold substringFrom, substring, clamp.
  destruct (Z.ltb_spec (Z.of_nat n) 0); [lia|].
  destruct (Z.ltb_spec (Z.of_nat (String.length s)) 0); [lia|].
  rewrite !Nat2Z.id.
  replace (Nat.min (Nat.min n (String.length s))
                   (Nat.min (String.length s) (String.length s)))
    with (Nat.min n (String.length s)) by lia.
  replace (Nat.max (Nat.min n (String.length s))
                   (Nat.min (String.length s) (String.length s)))
    with (String.length s) by lia.
  destruct (Nat.le_gt_cases (String.length s) n) as [Hle|Hgt].
  - rewrite (Nat.min_r n) by lia. rewrite Nat.sub_diag.
    rewrite !dropChars_beyond by lia. reflexivity.
  - rewrite (Nat.min_l n) by lia.
    apply takeChars_all. rewrite dropChars_length. lia.
Qed.

Lemma prefix_cons (c d : ascii) (p s : string) :
  String.prefix (String c p) (String d s) = Ascii.eqb c d && String.prefix p s.
Proof.
  cbn [String.prefix]. destruct (ascii_dec c d) as [->|Hne].
  - now rewrite Ascii.eqb_refl.
  - apply Ascii.eqb_neq in Hne. now rewrite Hne.
Qed.

(** A token that starts with the flag prefix is the prefix followed by
    the rest of the token. *)
Lemma startsWith_dashes (arg : string) :
  startsWith arg "--" = true ->
  arg = "--" +:+ dropChars 2 arg.
Proof.
  unfold startsWith. intros H.
  destruct arg as [|a [|b rest]]; [discriminate H| |].
  - rewrite prefix_cons in H. apply andb_true_iff in H as [_ H].
    discriminate H.
  - rewrite !prefix_cons in H.
    apply andb_true_iff in H as [Ha H].
    apply andb_true_iff in H as [Hb _].
    apply Ascii.eqb_eq in Ha, Hb. subst a b. reflexivity.
Qed.

Lemma prefix_empty (s : string) : String.prefix "" s = true.
Proof. now destruct s. Qed.


(** A token that starts with the flag prefix is not the help keyword. *)
Lemma dashes_not_help (arg : string) :
  startsWith arg "--" = true -> String.eqb (toLowerCase arg) "help" = false.
Proof.
  intros H. rewrite (startsWith_dashes arg H). reflexivity.
Qed.

Lemma split_go_nonempty (sep : string) (skip : nat) (cur s : string) :
  split_go sep skip cur s <> [].
Proof.
  revert skip cur. induction s as [|c s IH]; intros skip cur.
  - intros [=].
  - cbn [split_go]. destruct skip; [|apply IH].
    destruct (String.prefix sep (String c s)); [intros [=]|apply IH].
Qed.

Lemma concat_cons (sep x : string) (l : list string) :
  l <> [] -> String.concat sep (x :: l) = x +:+ sep +:+ String.concat sep l.
Proof. destruct l; [congruence|reflexivity]. Qed.

Lemma prefix_char (c d : ascii) (s : string) :
  String.prefix (singleton c) (String d s) = Ascii.eqb d c.
Proof.
  unfold singleton. rewrite prefix_cons.
  rewrite prefix_empty, andb_true_r. apply Ascii.eqb_sym.
Qed.

(** Joining the pieces of a split on a character with that character
    gives the text back. *)
Lemma join_split_go (c : ascii) (s cur : string) :
  join (split_go (singleton c) 0 cur s) (singleton c) = cur +:+ s.
Proof.
  revert cur. induction s as [|d s IH]; intros cur.
  - cbn. now rewrite append_empty_r.
  - cbn [split_go]. rewrite prefix_char.
    destruct (Ascii.eqb d c) eqn:E.
    + apply Ascii.eqb_eq in E. subst d. cbn [String.length singleton Nat.sub].
      unfold join in *. rewrite concat_cons by apply split_go_nonempty.
      now rewrite IH.
    + rewrite IH. now rewrite append_assoc.
Qed.

(** The first piece of a split on a character: the text before the
    first occurrence of the character, the rest being the split of the
    text after it; the whole text when the character does not occur. *)
Lemma split_go_first (c : ascii) (s cur : string) :
  if absent c s
  then split_go (singleton c) 0 cur s = [cur +:+ s]
  else exists name value,
      s = name +:+ singleton c +:+ value /\
      absent c name = true /\
      split_go (singleton c) 0 cur s
      = (cur +:+ name) :: split_go (singleton c) 0 "" value.
Proof.
  revert cur. induction s as [|d s IH]; intros cur.
  - cbn. now rewrite append_empty_r.
  - cbn [absent split_go]. rewrite prefix_char.
    destruct (Ascii.eqb d c) eqn:E; cbn [negb andb].
    + apply Ascii.eqb_eq in E. subst d.
      exists "", s. rewrite append_empty_r. repeat split; reflexivity.
    + specialize (IH (cur +:+ singleton d)).
      destruct (absent c s).
      * rewrite IH. now rewrite append_assoc.
      * destruct IH as (name & value & -> & Hn & Hs).
        exists (String d name), value. cbn [absent]. rewrite E, Hn.
        repeat split; try reflexivity.
        rewrite Hs. now rewrite append_assoc.
Qed.

(** Splitting at the first occurrence of the character. *)
Lemma split_go_at (c : ascii) (name value cur : string) :
  absent c name = true ->
  split_go (singleton c) 0 cur (name +:+ singleton c +:+ value)
  = (cur +:+ name) :: split_go (singleton c) 0 "" value.
Proof.
  revert cur. induction name as [|d name IH]; intros cur H.
  - cbn [String.append]. unfold singleton at 2. cbn [String.append split_go].
    rewrite prefix_char, Ascii.eqb_refl. now rewrite append_empty_r.
  - cbn [absent] in H. apply andb_true_iff in H as [Hd Hn].
    cbn [String.append split_go]. rewrite prefix_char.
    apply negb_true_iff in Hd. rewrite Hd.
    rewrite IH by exact Hn. now rewrite append_assoc.
Qed.

Lemma split_go_absent (c : ascii) (s cur : string) :
  absent c s = true ->
  split_go (singleton c) 0 cur s = [cur +:+ s].
Proof.
  intros H. pose proof (split_go_first c s cur) as F. now rewrite H in F.
Qed.

Lemma lastChar_append (a b : string) :
  b <> "" -> lastChar (a +:+ b) = lastChar b.
Proof.
  intros Hb. induction a as [|c a IH]; [reflexivity|].
  cbn [String.append lastChar]. rewrite IH.
  destruct (a +:+ b) eqn:E; [|reflexivity].
  destruct a; [cbn in E; congruence|discriminate E].
Qed.

Lemma lastChar_dropChars (k : nat) (s : string) :
  dropChars k s <> "" -> lastChar s = lastChar (dropChars k s).
Proof.
  revert s. induction k as [|k IH]; intros [|c s] H; cbn in *;
    try reflexivity; try congruence.
  rewrite <- IH by exact H. destruct s; [|reflexivity].
  destruct k; cbn in H; congruence.
Qed.

(** A text that ends with the array suffix ends with a closing square
    bracket. *)
Lemma endsWith_lastChar (s : string) :
  endsWith s "[]" = true -> lastChar s = Some "]"%char.
Proof.
  unfold endsWith. intros H. apply andb_true_iff in H as [_ H].
  apply String.eqb_eq in H.
  rewrite (lastChar_dropChars (String.length s - String.length "[]") s);
    rewrite H; [reflexivity|discriminate].
Qed.

Lemma endsWith_append (s suffix : string) : endsWith (s +:+ suffix) suffix = true.
Proof.
  unfold endsWith. rewrite length_append.
  replace (String.length s + String.length suffix - String.length suffix)
    with (String.length s) by lia.
  rewrite dropChars_append, String.eqb_refl, andb_true_r.
  apply Nat.leb_le. lia.
Qed.

(** [s.substring(0, n)] keeps the first [n] code units. *)
Lemma substring_take (s : string) (n : nat) :
  n <= String.length s -> substring s 0 (Z.of_nat n) = takeChars n s.
Proof.
  intros H. unfold substring, clamp. cbn [Z.ltb Z.compare Z.to_nat].
  destruct (Z.ltb_spec (Z.of_nat n) 0); [lia|].
  rewrite Nat2Z.id, Nat.min_0_l, (Nat.min_l n) by lia.
  rewrite Nat.min_0_l, Nat.max_0_l, Nat.sub_0_r. reflexivity.
Qed.

End StringFacts.

(** ** The type-name parser *)

Module TypeNameFacts.

Import JsString ValueParser Notions StringFacts.

#[local] Arguments String.append !_ _ / : simpl nomatch.

(** A read before the end of the input yields a character. *)
Lemma get_in_range (s : string) :
  forall n, n < String.length s -> exists c, String.get n s = Some c.
Proof.
  induction s as [|c s IH]; intros n H; cbn in H; [lia|].
  destruct n as [|n]; cbn; [now exists c|]. apply IH. lia.
Qed.

Lemma read_before_eof (reader : StringReader) :
  eof reader = false ->
  exists ch,
    read reader
    = (Some ch, {| str := str reader; position := S (position reader) |}).
Proof.
  unfold eof, read. intros H. apply Nat.leb_gt in H.
  destruct (get_in_range _ _ H) as (c & ->). now exists c.
Qed.

(** The reader only moves forward over the same text, the loop returns
    only at the end of the input, and fuel beyond the characters left
    is never used up. *)
Lemma readLoop_runs (fuel : nat) :
  forall reader nameOver typeOver buffer params,
    String.length (str reader) - position reader < fuel ->
    exists o,
      readLoop fuel reader nameOver typeOver buffer params = Some o /\
      forall t r, o = Return (t, r) ->
        str r = str reader /\ position reader <= position r /\ eof r = true.
Proof.
  induction fuel as [|fuel IH];
    intros reader nameOver typeOver buffer params Hlen; [lia|].
  cbn [readLoop].
  destruct (eof reader) eqn:Heof.
  { eexists; split; [reflexivity|]. intros t r [= <- <-]. auto. }
  destruct (read_before_eof reader Heof) as (ch & ->).
  set (reader' := {| str := str reader; position := S (position reader) |}).
  assert (Hlen' : String.length (str reader') - position reader' < fuel).
  { unfold eof in Heof. apply Nat.leb_gt in Heof. unfold reader'. cbn. lia. }
  assert (Hnext : forall nameOver' typeOver' buffer' params',
    exists o,
      readLoop fuel reader' nameOver' typeOver' buffer' params' = Some o /\
      forall t r, o = Return (t, r) ->
        str r = str reader /\ position reader < position r /\ eof r = true).
  { intros nameOver' typeOver' buffer' params'.
    destruct (IH reader' nameOver' typeOver' buffer' params' Hlen')
      as (o & Ho & Hr).
    exists o; split; [exact Ho|].
    intros t r E. destruct (Hr t r E) as (Hs & Hp & He).
    unfold reader' in Hs, Hp. cbn in Hs, Hp.
    repeat split; [exact Hs|lia|exact He]. }
  assert (Hweaken : forall o : Outcome (GenericTypeName * StringReader),
    (forall t r, o = Return (t, r) ->
       str r = str reader /\ position reader < position r /\ eof r = true) ->
    forall t r, o = Return (t, r) ->
      str r = str reader /\ position reader <= position r /\ eof r = true).
  { intros o Hr t r E. destruct (Hr t r E) as (Hs & Hp & He).
    repeat split; [exact Hs|lia|exact He]. }
  assert (Hstep : forall nameOver' typeOver' buffer' params',
    exists o,
      readLoop fuel reader' nameOver' typeOver' buffer' params' = Some o /\
      forall t r, o = Return (t, r) ->
        str r = str reader /\ position reader <= position r /\ eof r = true).
  { intros nameOver' typeOver' buffer' params'.
    destruct (Hnext nameOver' typeOver' buffer' params') as (o & Ho & Hr).
    exists o; split; [exact Ho|]. now apply Hweaken. }
  destruct (Ascii.eqb ch " "); [apply Hstep|].
  destruct (negb nameOver && negb typeOver
            && isIdentifierChar ch (String.length buffer)); [apply Hstep|].
  destruct (Ascii.eqb ch "<" || Ascii.eqb ch ",").
  - destruct (Hnext false false "" []) as (o1 & -> & Hr1).
    destruct o1 as [[p r1]|m].
    + destruct (Hr1 p r1 eq_refl) as (Hs & Hp & _).
      assert (Hlen1 : String.length (str r1) - position r1 < fuel)
        by (rewrite Hs; unfold eof in Heof; apply Nat.leb_gt in Heof; lia).
      destruct (IH r1 true typeOver buffer (params ++ [p])%list Hlen1)
        as (o & Ho & Hr).
      exists o; split; [exact Ho|].
      intros t r E. destruct (Hr t r E) as (Hs' & Hp' & He).
      repeat split; [congruence|lia|exact He].
    + eexists; split; [reflexivity|]. intros t r [=].
  - destruct (Ascii.eqb ch ">"); [apply Hstep|].
    eexists; split; [reflexivity|]. intros t r [=].
Qed.

(** At the end of the input the loop returns what it has. *)
Lemma readLoop_at_eof fuel reader nameOver typeOver buffer params :
  eof reader = true ->
  readLoop (S fuel) reader nameOver typeOver buffer params =
  Some (Return (mkGenericTypeName buffer params, reader)).
Proof. intros H. cbn [readLoop]. now rewrite H. Qed.

(** A call adds at most one type parameter to those it starts with,
    and that parameter is a chain. *)
Lemma readLoop_shape (fuel : nat) :
  forall reader nameOver typeOver buffer params t r,
    readLoop fuel reader nameOver typeOver buffer params = Some (Return (t, r)) ->
    eof r = true /\
    (typeParameters t = params \/
     exists p, typeParameters t = (params ++ [p])%list /\ isChain p = true).
Proof.
  induction fuel as [|fuel IH]; intros reader nameOver typeOver buffer params t r H.
  - discriminate.
  - cbn [readLoop] in H.
    destruct (eof reader) eqn:Heof.
    { injection H as <- <-. auto. }
    destruct (read_before_eof reader Heof) as (ch & Hread). rewrite Hread in H.
    set (reader' := {| str := str reader; position := S (position reader) |}) in *.
    destruct (Ascii.eqb ch " "); [eapply IH; eassumption|].
    destruct (negb nameOver && negb typeOver
              && isIdentifierChar ch (String.length buffer));
      [eapply IH; eassumption|].
    destruct (Ascii.eqb ch "<" || Ascii.eqb ch ",").
    { destruct (readLoop fuel reader' false false "" []) as [[[p r1]|m]|] eqn:Hin;
        try discriminate.
      destruct (IH _ _ _ _ _ _ _ Hin) as (Heof1 & Hp).
      destruct fuel as [|fuel']; [discriminate|].
      rewrite (readLoop_at_eof _ _ _ _ _ _ Heof1) in H.
      injection H as <- <-. split; [assumption|].
      right. exists p. split; [reflexivity|].
      destruct p as [n ps]. cbn in Hp.
      destruct Hp as [->|(q & -> & Hq)]; [reflexivity|exact Hq]. }
    destruct (Ascii.eqb ch ">"); [eapply IH; eassumption|].
    discriminate.
Qed.

(** Whatever [parseTypeName] returns is a chain: it never returns two
    type parameters side by side. *)
Lemma parseTypeName_chain (text : string) (t : GenericTypeName) :
  parseTypeName text = Return t -> isChain t = true.
Proof.
  unfold parseTypeName. destruct (endsWith text "[]").
  - intros [= <-]. reflexivity.
  - unfold readTypeNameFromReader. intros Hr.
    destruct (readLoop _ _ _ _ _ _) as [[[t' r]|m]|] eqn:H; try discriminate Hr.
    injection Hr as <-. apply readLoop_shape in H as (_ & H).
    destruct t' as [n ps]. cbn in H.
    destruct H as [->|(q & -> & Hq)]; [reflexivity|exact Hq].
Qed.

Lemma parseTypeName_at_most_one_parameter (text : string) (t : GenericTypeName) :
  parseTypeName text = Return t -> length (typeParameters t) <= 1.
Proof.
  intros H. apply parseTypeName_chain in H.
  destruct t as [n [|p [|q ps]]]; cbn in *; first [lia | discriminate].
Qed.

(** The fuel [parseTypeName] gives the reader is enough: the parse
    returns a descriptor or throws what the reader throws. *)
Lemma parseTypeName_fuel (text : string) :
  exists o,
    readTypeNameFromReader (fuelFor text) {| str := text; position := 0 |}
    = Some o.
Proof.
  destruct (readLoop_runs (fuelFor text) {| str := text; position := 0 |}
              false false "" []) as (o & Ho & _).
  - unfold fuelFor. cbn. lia.
  - exists o. exact Ho.
Qed.

(** More fuel does not change a result. *)
Lemma readLoop_more_fuel (fuel : nat) :
  forall fuel' reader nameOver typeOver buffer params o,
    fuel <= fuel' ->
    readLoop fuel reader nameOver typeOver buffer params = Some o ->
    readLoop fuel' reader nameOver typeOver buffer params = Some o.
Proof.
  induction fuel as [|fuel IH];
    intros fuel' reader nameOver typeOver buffer params o Hle H.
  - discriminate.
  - destruct fuel' as [|fuel']; [lia|].
    assert (Hle' : fuel <= fuel') by lia.
    cbn [readLoop] in *.
    destruct (eof reader); [exact H|].
    destruct (read reader) as [[ch|] reader'] eqn:Hread; [|exact H].
    destruct (Ascii.eqb ch " "); [eapply IH; eassumption|].
    destruct (negb nameOver && negb typeOver
              && isIdentifierChar ch (String.length buffer));
      [eapply IH; eassumption|].
    destruct (Ascii.eqb ch "<" || Ascii.eqb ch ",").
    { destruct (readLoop fuel reader' false false "" []) as [[[p r1]|m]|] eqn:Hin;
        try discriminate.
      - rewrite (IH _ _ _ _ _ _ _ Hle' Hin). eapply IH; eassumption.
      - rewrite (IH _ _ _ _ _ _ _ Hle' Hin). exact H. }
    destruct (Ascii.eqb ch ">"); [eapply IH; eassumption|].
    exact H.
Qed.

(** *** Where the parser agrees with the grammar *)

Lemma eof_readerAt_end (before : string) : eof (readerAt before "") = true.
Proof.
  unfold eof, readerAt. cbn [str position]. rewrite append_empty_r.
  apply Nat.leb_refl.
Qed.

Lemma eof_readerAt_more (before after : string) (c : ascii) :
  eof (readerAt before (String c after)) = false.
Proof.
  unfold eof, readerAt. cbn [str position]. rewrite length_append.
  apply Nat.leb_gt. cbn. lia.
Qed.

Lemma read_readerAt (before after : string) (c : ascii) :
  read (readerAt before (String c after))
  = (Some c, readerAt (before +:+ singleton c) after).
Proof.
  unfold read, readerAt. cbn [str position]. rewrite get_append.
  f_equal. rewrite append_assoc, length_append. cbn.
  f_equal. lia.
Qed.

Lemma identifier_not_space (c : ascii) (n : nat) :
  isIdentifierChar c n = true -> Ascii.eqb c " " = false.
Proof.
  intros H. destruct (Ascii.eqb c " ") eqn:E; [|reflexivity].
  apply Ascii.eqb_eq in E. subst c. destruct n; discriminate H.
Qed.

Lemma open_not_identifier (n : nat) : isIdentifierChar "<" n = false.
Proof. now destruct n. Qed.

Lemma close_not_identifier (n : nat) : isIdentifierChar ">" n = false.
Proof. now destruct n. Qed.

(** Reading an identifier character into the buffer. *)
Lemma readLoop_identifier_char fuel before after c buffer params :
  isIdentifierChar c (String.length buffer) = true ->
  readLoop (S fuel) (readerAt before (String c after)) false false buffer params
  = readLoop fuel (readerAt (before +:+ singleton c) after) false false
      (buffer +:+ singleton c) params.
Proof.
  intros H. cbn [readLoop]. rewrite eof_readerAt_more, read_readerAt.
  rewrite (identifier_not_space _ _ H), H. reflexivity.
Qed.

(** Reading a whole run of identifier characters. *)
Lemma readLoop_identifier (w : string) :
  forall fuel before after buffer params,
    identifierFrom (String.length buffer) w = true ->
    readLoop (String.length w + fuel) (readerAt before (w +:+ after))
      false false buffer params
    = readLoop fuel (readerAt (before +:+ w) after) false false
        (buffer +:+ w) params.
Proof.
  induction w as [|c w IH]; intros fuel before after buffer params H.
  - cbn. now rewrite !append_empty_r.
  - cbn [identifierFrom] in H. apply andb_true_iff in H as [Hc Hw].
    cbn [String.length Nat.add String.append].
    rewrite readLoop_identifier_char by exact Hc.
    rewrite IH.
    + rewrite !append_assoc. reflexivity.
    + rewrite length_append. cbn. now rewrite Nat.add_1_r.
Qed.

(** Reading the closing brackets that end a text. *)
Lemma readLoop_closers (count : nat) :
  forall fuel before nameOver typeOver buffer params,
    readLoop (count + S fuel) (readerAt before (closers count))
      nameOver typeOver buffer params
    = Some (Return (mkGenericTypeName buffer params,
                    readerAt (before +:+ closers count) "")).
Proof.
  induction count as [|count IH];
    intros fuel before nameOver typeOver buffer params.
  - cbn [closers Nat.add]. rewrite append_empty_r.
    apply readLoop_at_eof, eof_readerAt_end.
  - cbn [closers Nat.add readLoop].
    rewrite eof_readerAt_more, read_readerAt.
    rewrite close_not_identifier, andb_false_r. cbn.
    rewrite IH. now rewrite append_assoc.
Qed.

Lemma specText_chain (n m : string) (ms : list string) :
  specText (chainOf n (m :: ms)) = n +:+ "<" +:+ specText (chainOf m ms) +:+ ">".
Proof. reflexivity. Qed.

(** The reader, started anywhere on the text of a chain of identifiers
    that is followed by closing brackets only, returns the chain. *)
Lemma readLoop_chain (ns : list string) :
  forall n before count fuel,
    Forall (fun s => identifierFrom 0 s = true) (n :: ns) ->
    String.length (specText (chainOf n ns)) + count < fuel ->
    readLoop fuel (readerAt before (specText (chainOf n ns) +:+ closers count))
      false false "" []
    = Some (Return (chainOf n ns,
                    readerAt (before +:+ specText (chainOf n ns)
                              +:+ closers count) "")).
Proof.
  induction ns as [|m ms IH]; intros n before count fuel Hids Hfuel.
  - cbn [chainOf specText] in *.
    apply Forall_cons_iff in Hids as [Hn _].
    replace fuel with (String.length n + (count + S (fuel - String.length n - count - 1)))
      by lia.
    rewrite readLoop_identifier by exact Hn.
    rewrite readLoop_closers. cbn [String.append]. now rewrite append_assoc.
  - apply Forall_cons_iff in Hids as [Hn Hrest].
    rewrite specText_chain in *.
    set (inner := specText (chainOf m ms)) in *.
    assert (Hlen : String.length (n +:+ "<" +:+ inner +:+ ">")
                   = String.length n + S (String.length inner + 1)).
    { rewrite !length_append. reflexivity. }
    rewrite Hlen in Hfuel.
    replace fuel with (String.length n + S (S (fuel - String.length n - 2)))
      by lia.
    set (f := fuel - String.length n - 2).
    assert (Hf : String.length inner + S count < S f) by (unfold f; lia).
    replace ((n +:+ "<" +:+ inner +:+ ">") +:+ closers count)
      with (n +:+ String "<" (inner +:+ closers (S count)))
      by (cbn [closers]; rewrite !append_assoc; reflexivity).
    rewrite readLoop_identifier by exact Hn.
    remember (S f) as f1 eqn:Ef1.
    cbn [readLoop String.append].
    rewrite eof_readerAt_more, read_readerAt.
    rewrite open_not_identifier, andb_false_r.
    change (Ascii.eqb "<" " ") with false. change (Ascii.eqb "<" "<") with true.
    cbn [orb].
    rewrite (IH m _ (S count) f1 Hrest Hf).
    subst f1.
    rewrite (readLoop_at_eof f _ _ _ _ _ (eof_readerAt_end _)).
    cbn [app chainOf]. do 3 f_equal.
    cbn [closers]. unfold singleton. rewrite !append_assoc. reflexivity.
Qed.

Lemma identifier_lastChar (s : string) :
  forall k, identifierFrom k s = true -> lastChar s <> Some "]"%char.
Proof.
  induction s as [|c s IH]; intros k H; [discriminate|].
  cbn [identifierFrom] in H. apply andb_true_iff in H as [Hc Hs].
  destruct s as [|d s].
  - cbn. intros [= ->]. now destruct k.
  - change (lastChar (String c (String d s))) with (lastChar (String d s)).
    eapply IH, Hs.
Qed.

Lemma chain_not_array_shorthand (n : string) (ns : list string) :
  Forall (fun s => identifierFrom 0 s = true) (n :: ns) ->
  endsWith (specText (chainOf n ns)) "[]" = false.
Proof.
  intros Hids. destruct (endsWith _ _) eqn:E; [|reflexivity].
  apply endsWith_lastChar in E. exfalso.
  destruct ns as [|m ms].
  - apply Forall_cons_iff in Hids as [Hn _].
    exact (identifier_lastChar _ _ Hn E).
  - rewrite specText_chain in E.
    replace (n +:+ "<" +:+ specText (chainOf m ms) +:+ ">")
      with ((n +:+ "<" +:+ specText (chainOf m ms)) +:+ ">") in E
      by (rewrite !append_assoc; reflexivity).
    rewrite lastChar_append in E by (intros [=]).
    discriminate E.
Qed.

(** A generic with one type parameter at every level, of any depth,
    made of identifiers, is parsed into the descriptor of its text; so
    is a plain identifier, with no type parameter. *)
Lemma parseTypeName_chainOf (n : string) (ns : list string) :
  Forall (fun s => identifierFrom 0 s = true) (n :: ns) ->
  parseTypeName (specText (chainOf n ns)) = Return (chainOf n ns).
Proof.
  intros Hids. unfold parseTypeName, readTypeNameFromReader.
  rewrite chain_not_array_shorthand by exact Hids.
  pose proof (readLoop_chain ns n "" 0
                (fuelFor (specText (chainOf n ns))) Hids) as H.
  cbn [closers] in H. rewrite !append_empty_r in H.
  change (readerAt "" (specText (chainOf n ns)))
    with {| str := specText (chainOf n ns); position := 0 |} in H.
  rewrite H by (unfold fuelFor; lia). reflexivity.
Qed.

Lemma parseTypeName_identifier (name : string) :
  identifierFrom 0 name = true ->
  parseTypeName name = Return (mkGenericTypeName name []).
Proof.
  intros H. apply (parseTypeName_chainOf name []).
  constructor; [exact H|constructor].
Qed.

(** The array shorthand: whatever stands before the final [[]] becomes
    the name of the one parameter of [Array]. *)
Lemma parseTypeName_array_shorthand (element : string) :
  parseTypeName (element +:+ "[]")
  = Return (mkGenericTypeName "Array" [mkGenericTypeName element []]).
Proof.
  unfold parseTypeName, getArrayElementTypeName.
  rewrite endsWith_append, length_append.
  replace (Z.of_nat (String.length element + String.length "[]") - 2)%Z
    with (Z.of_nat (String.length element)) by (cbn; lia).
  rewrite substring_take by (rewrite length_append; lia).
  now rewrite takeChars_append.
Qed.

(** The array shorthand inside a generic is not read: the reader
    throws at the opening square bracket. *)
Example parseTypeName_nested_shorthand :
  parseTypeName "Array<string[]>" = Throw "Failed to read type name 'string['".
Proof. vm_compute. reflexivity. Qed.

(** C1: the text [Record<string,number>] of the grammar, a generic
    with the two parameters [string] and [number], is parsed into a
    descriptor whose only parameter is [string], with [number] nested
    below it; the descriptor of the text is not returned. *)
Theorem C1_record_parameters_are_nested :
  specText (mkGenericTypeName "Record"
              [mkGenericTypeName "string" []; mkGenericTypeName "number" []])
  = "Record<string,number>" /\
  parseTypeName "Record<string,number>"
  = Return (mkGenericTypeName "Record"
              [mkGenericTypeName "string" [mkGenericTypeName "number" []]]) /\
  parseTypeName "Record<string,number>"
  <> Return (mkGenericTypeName "Record"
               [mkGenericTypeName "string" []; mkGenericTypeName "number" []]).
Proof.
  split; [reflexivity|]. split; [vm_compute; reflexivity|].
  vm_compute. discriminate.
Qed.

End TypeNameFacts.

(** ** The coercion registry *)

Module CoercionFacts.

Import JsString JsObject Util ValueParser Cli Notions.

Lemma builtin_boolean :
  parsers (newParserRegistry defaultOptions) !! "boolean" = Some Boolean_.
Proof. vm_compute. reflexivity. Qed.

Lemma includes_In (l : list string) (x : string) :
  includes l x = true <-> In x l.
Proof.
  unfold includes. rewrite existsb_exists. split.
  - intros (y & Hy & E). apply String.eqb_eq in E. now subst.
  - intros H. exists x. split; [exact H|]. apply String.eqb_refl.
Qed.

Lemma includes_not_In (l : list string) (x : string) :
  includes l x = false <-> ~ In x l.
Proof.
  rewrite <- includes_In. destruct (includes l x); split; intros H;
    try reflexivity; try discriminate; try (intros [=]).
  now destruct H.
Qed.

(** A coercer of the table is what a read under its name finds. *)
Lemma readerOf_own (this : ParserRegistry) (callee key : string)
    (reader : Parser) :
  parsers this !! key = Some reader -> readerOf this callee key = Some reader.
Proof. unfold readerOf, Parser in *. now intros ->. Qed.

(** A read finds nothing under a name that is neither a coercer's nor
    inherited. *)
Lemma readerOf_none (this : ParserRegistry) (callee key : string) :
  parsers this !! key = None ->
  includes OBJECT_PROTOTYPE_KEYS key = false ->
  readerOf this callee key = None.
Proof. unfold readerOf, Parser in *. now intros -> ->. Qed.

(** No inherited name is written with the array shorthand or as a
    generic. *)
Lemma inherited_is_plain (name : string) :
  includes OBJECT_PROTOTYPE_KEYS name = true ->
  endsWith name "[]" = false /\ endsWith name ">" = false.
Proof.
  intros H. apply includes_In in H. unfold OBJECT_PROTOTYPE_KEYS in H.
  cbn [In] in H.
  repeat (destruct H as [<-|H]; [split; reflexivity|]).
  destruct H.
Qed.

(** An entry without the key/value separator gets [undefined] as its
    value, whatever the value coercer is. *)
Lemma parseRecord_missing_value (this : ParserRegistry)
    (keyTypeName valueTypeName : option string)
    (keyReader valueReader : Parser) (text : string) (k : value) :
  parsers this !! keyText keyTypeName = Some keyReader ->
  parsers this !! keyText valueTypeName = Some valueReader ->
  split text (recordEntrySeparator this) = [text] ->
  indexOf text (recordKeyValueSeparator this) = (-1)%Z ->
  keyReader text = Return k ->
  parseRecord this keyTypeName valueTypeName text
  = Return (VObject [(k, VUndefined)]).
Proof.
  intros Hk Hv Hs Hi Hr. unfold parseRecord.
  rewrite (readerOf_own _ _ _ _ Hk), (readerOf_own _ _ _ _ Hv), Hs. cbn.
  unfold splitOnceOrZero. rewrite Hi. cbn. rewrite Hr. reflexivity.
Qed.

(** On every text, [Record<string,number>] coerces keys and values to
    texts: the coercer of [number] is never applied. *)
Lemma coerce_record_string_number (text : string) :
  coerce "Record<string,number>" text
  = Return (VObject (map textEntry (split text ","))).
Proof.
  unfold coerce, parse.
  assert (Hnone : parsers (newParserRegistry defaultOptions)
                    !! "Record<string,number>" = None)
    by (vm_compute; reflexivity).
  assert (Hparse : parseTypeName "Record<string,number>"
                   = Return (mkGenericTypeName "Record"
                       [mkGenericTypeName "string"
                          [mkGenericTypeName "number" []]]))
    by (vm_compute; reflexivity).
  assert (Hkey : parsers (newParserRegistry defaultOptions) !! "string"
                 = Some String_) by (vm_compute; reflexivity).
  assert (Hvalue : parsers (newParserRegistry defaultOptions) !! "undefined"
                   = Some identity) by (vm_compute; reflexivity).
  unfold Parser in *. rewrite Hnone.
  change (includes OBJECT_PROTOTYPE_KEYS "Record<string,number>") with false.
  cbn iota. rewrite Hparse.
  cbn [bind typeParameters typeName map lookup list_lookup].
  change (includes ARRAY_BASE_TYPE_NAMES "Record") with false.
  change (includes RECORD_BASE_TYPE_NAMES "Record") with true.
  cbn iota. unfold parseRecord, keyText. cbn [default from_option id].
  rewrite (readerOf_own _ _ _ _ Hkey), (readerOf_own _ _ _ _ Hvalue).
  change (recordEntrySeparator (newParserRegistry defaultOptions)) with ",".
  change (recordKeyValueSeparator (newParserRegistry defaultOptions)) with "=".
  generalize (split text ",") as entries. intros entries.
  match goal with
  | |- bind ?m _ = _ =>
      enough (H : m = Return (map textEntry entries)) by now rewrite H
  end.
  induction entries as [|entry entries IH]; [reflexivity|].
  cbn [map mapM]. rewrite IH. unfold textEntry at 2.
  now destruct (splitOnceOrZero entry "=" false) as [key [v|]].
Qed.

(** C2: with the type name [Record<string,number>] the value coercer
    that is looked up is not the one of [number]: the text [a=1,b=2]
    is coerced to the mapping of [a] to the text [1] and of [b] to the
    text [2], not to the numbers; the text [a], which has no key/value
    separator, is coerced to the mapping of [a] to [undefined]. *)
Theorem C2_record_values_are_not_numbers :
  coerce "Record<string,number>" "a=1,b=2"
  = Return (VObject [(VString "a", VString "1"); (VString "b", VString "2")]) /\
  coerce "Record<string,number>" "a=1,b=2"
  <> Return (VObject [(VString "a", VNumber (NumberOf "1"));
                      (VString "b", VNumber (NumberOf "2"))]) /\
  coerce "Record<string,number>" "a"
  = Return (VObject [(VString "a", VUndefined)]).
Proof.
  split; [vm_compute; reflexivity|].
  split; [vm_compute; discriminate|].
  vm_compute; reflexivity.
Qed.

(** C3, as the claim states it, fails: the registry's coercer for
    [boolean] returns true on the text [no] and on a text outside the
    vocabulary. *)
Lemma C3_boolean_no_is_true :
  coerce "boolean" "no" = Return (VBool true) /\
  coerce "boolean" "no" <> Return (VBool false) /\
  coerce "boolean" "maybe" = Return (VBool true).
Proof.
  split; [vm_compute; reflexivity|].
  split; [vm_compute; discriminate|].
  vm_compute; reflexivity.
Qed.

(** C3, amended: [coerce("boolean", v)] is the built-in conversion of
    a string to a boolean, true exactly when [v] is not empty, and it
    never fails.  The yes/no vocabulary is that of [booleanFlagValue]:
    it returns true when the lower-cased text is one of yes, 1, on,
    true, false when it is one of no, 0, off, false, fails for every
    other non-empty text, and returns the default for the empty or
    missing text. *)
Theorem C3_boolean_coercion (v : string) (d : bool) :
  coerce "boolean" v = Return (VBool (negb (String.eqb v ""))) /\
  (In (toLowerCase v) FLAG_YES_VALUES ->
   booleanFlagValue (Some v) d = Return true) /\
  (In (toLowerCase v) FLAG_NO_VALUES ->
   booleanFlagValue (Some v) d = Return false) /\
  (v <> "" ->
   ~ In (toLowerCase v) (FLAG_YES_VALUES ++ FLAG_NO_VALUES) ->
   exists message, booleanFlagValue (Some v) d = Throw message) /\
  booleanFlagValue (Some "") d = Return d /\
  booleanFlagValue None d = Return d.
Proof.
  split.
  { pose proof builtin_boolean as Hb. unfold coerce, parse, Parser in *.
    rewrite Hb. reflexivity. }
  split.
  { intros H. destruct v as [|c v].
    - cbn in H. intuition discriminate.
    - unfold booleanFlagValue.
      assert (Hno : includes FLAG_NO_VALUES (toLowerCase (String c v)) = false).
      { apply includes_not_In. intros Hn. cbn in H, Hn.
        intuition congruence. }
      rewrite Hno. apply includes_In in H. now rewrite H. }
  split.
  { intros H. destruct v as [|c v].
    - cbn in H. intuition discriminate.
    - unfold booleanFlagValue. apply includes_In in H. now rewrite H. }
  split.
  { intros Hne Hnot. destruct v as [|c v]; [congruence|].
    unfold booleanFlagValue.
    assert (Hno : includes FLAG_NO_VALUES (toLowerCase (String c v)) = false).
    { apply includes_not_In. intros Hn. apply Hnot, in_or_app. now right. }
    assert (Hyes : includes FLAG_YES_VALUES (toLowerCase (String c v)) = false).
    { apply includes_not_In. intros Hn. apply Hnot, in_or_app. now left. }
    rewrite Hno, Hyes. eexists. reflexivity. }
  split; reflexivity.
Qed.

Lemma C3_boolean_coercion_witness :
  In (toLowerCase "YES") FLAG_YES_VALUES /\
  booleanFlagValue (Some "YES") false = Return true /\
  In (toLowerCase "Off") FLAG_NO_VALUES /\
  booleanFlagValue (Some "Off") true = Return false /\
  "maybe" <> "" /\
  ~ In (toLowerCase "maybe") (FLAG_YES_VALUES ++ FLAG_NO_VALUES) /\
  exists message, booleanFlagValue (Some "maybe") false = Throw message.
Proof.
  assert (Hyes : In (toLowerCase "YES") FLAG_YES_VALUES) by (cbn; auto).
  assert (Hoff : In (toLowerCase "Off") FLAG_NO_VALUES) by (cbn; auto).
  assert (Hne : "maybe" <> "") by discriminate.
  assert (Hout : ~ In (toLowerCase "maybe") (FLAG_YES_VALUES ++ FLAG_NO_VALUES))
    by (cbn; intuition discriminate).
  split; [exact Hyes|].
  split; [exact (proj1 (proj2 (C3_boolean_coercion "YES" false)) Hyes)|].
  split; [exact Hoff|].
  split; [exact (proj1 (proj2 (proj2 (C3_boolean_coercion "Off" true))) Hoff)|].
  split; [exact Hne|].
  split; [exact Hout|].
  exact (proj1 (proj2 (proj2 (proj2 (C3_boolean_coercion "maybe" false)))) Hne Hout).
Defined.

End CoercionFacts.

(** ** The resolver *)

Module ResolverFacts.

Import JsString JsObject Util Meta Cli Notions StringFacts.

(** Membership of an event in an explicit list of events. *)
Ltac in_events :=
  let H := fresh "H" in
  intros H; cbn in H;
  repeat (destruct H as [H|H];
          [first [discriminate H | injection H as <-; reflexivity]|]);
  contradiction.

Lemma run_dispatch (this : Cli) (tokens : list string) :
  run this tokens = dispatch (resolve (autoHelp this) (program this) tokens).
Proof. reflexivity. Qed.

Lemma resolve_app (autoHelp : bool) (program : live) (pre rest : list string) :
  resolve autoHelp program (pre ++ rest)
  = fold_left (step autoHelp) rest (resolve autoHelp program pre).
Proof. unfold resolve. apply fold_left_app. Qed.

(** A token that is neither the help keyword nor taken as a member is
    recorded as a flag or as a positional. *)
Lemma step_classify (autoHelp : bool) (st : Resolver) (arg : string) :
  takenAsHelp autoHelp st arg = false ->
  contextFinal st = true \/ isNil (getProperty (context st) arg) = true ->
  step autoHelp st arg = classify st arg.
Proof.
  unfold takenAsHelp, step, classify. intros -> H.
  assert (E : negb (contextFinal st)
              && negb (isNil (getProperty (context st) arg)) = false).
  { destruct H as [-> | ->]; [reflexivity|apply andb_false_r]. }
  rewrite E. destruct (startsWith arg FLAG_PREFIX); [|reflexivity].
  now destruct (flagOf arg).
Qed.

Lemma step_settled (autoHelp : bool) (st : Resolver) (arg : string) :
  settled st -> settled (step autoHelp st arg).
Proof.
  unfold settled, step. intros H.
  destruct (autoHelp && (contextDepth st =? 0)%nat
            && String.eqb (toLowerCase arg) "help"); [cbn; lia|].
  destruct (negb (contextFinal st)
            && negb (isNil (getProperty (context st) arg))).
  - destruct (typeofLive (getProperty (context st) arg)); cbn; try lia; exact H.
  - destruct (startsWith arg FLAG_PREFIX); [destruct (flagOf arg)|]; exact H.
Qed.

Lemma fold_settled (autoHelp : bool) (tokens : list string) (st : Resolver) :
  settled st -> settled (fold_left (step autoHelp) tokens st).
Proof.
  revert st. induction tokens as [|t tokens IH]; intros st H; [exact H|].
  cbn. apply IH, step_settled, H.
Qed.

Lemma resolve_settled (autoHelp : bool) (program : live) (tokens : list string) :
  settled (resolve autoHelp program tokens).
Proof. apply fold_settled. intros [=]. Qed.

(** After the context is final, the context stays and every further
    token without the flag prefix is appended to the positionals. *)
Lemma fold_final (autoHelp : bool) (tokens : list string) :
  forall st,
    contextFinal st = true -> 0 < contextDepth st ->
    let st' := fold_left (step autoHelp) tokens st in
    context st' = context st /\
    contextFinal st' = true /\
    r_positionalArgs st' = (r_positionalArgs st ++ positionalsOf tokens)%list.
Proof.
  induction tokens as [|t tokens IH]; intros st Hf Hd; cbn.
  - now rewrite app_nil_r.
  - assert (E : step autoHelp st t = classify st t).
    { apply step_classify; [|now left].
      unfold takenAsHelp. destruct (contextDepth st); [lia|].
      cbn. now rewrite andb_false_r. }
    rewrite E.
    assert (Hc : context (classify st t) = context st
                 /\ contextFinal (classify st t) = contextFinal st
                 /\ contextDepth (classify st t) = contextDepth st).
    { unfold classify. now destruct (startsWith t FLAG_PREFIX). }
    destruct Hc as (Hc1 & Hc2 & Hc3).
    destruct (IH (classify st t)) as (H1 & H2 & H3); [congruence|lia|].
    rewrite H1, H2, H3, Hc1. repeat split.
    unfold classify, positionalsOf. cbn [List.filter].
    destruct (startsWith t FLAG_PREFIX); cbn; [reflexivity|].
    now rewrite <- app_assoc.
Qed.



(** C4, as the claim states it, fails: the demo run with the single
    token [foo] ends while navigating, on the group [foo]; it shows no
    help, prints an error and exits with status 1. *)
Lemma C4_group_at_end_is_an_error :
  contextFinal (resolve (autoHelp Demo.cli) (program Demo.cli) ["foo"]) = false /\
  context (resolve (autoHelp Demo.cli) (program Demo.cli) ["foo"])
  = Live Demo.foo /\
  run Demo.cli ["foo"]
  = [ConsoleError (errorText "i dunno what to do"); ProcessExit 1] /\
  existsb isHelp (run Demo.cli ["foo"]) = false.
Proof. vm_compute. repeat split; reflexivity. Qed.

(** C4, amended: when the tokens are all consumed while the resolver
    is still navigating and the context is a group, the run shows no
    help: it prints the error [i dunno what to do] and exits the
    process with status 1. *)
Theorem C4_end_on_group_fails (this : Cli) (tokens : list string)
    (members : gmap string live) :
  contextFinal (resolve (autoHelp this) (program this) tokens) = false ->
  context (resolve (autoHelp this) (program this) tokens)
  = Live (LObject members) ->
  run this tokens
  = [ConsoleError (errorText "i dunno what to do"); ProcessExit 1] /\
  existsb isHelp (run this tokens) = false.
Proof.
  intros _ Hc. rewrite run_dispatch. unfold dispatch. rewrite Hc.
  split; reflexivity.
Qed.

Lemma C4_end_on_group_fails_witness :
  contextFinal (resolve (autoHelp Demo.cli) (program Demo.cli) ["goob"]) = false /\
  context (resolve (autoHelp Demo.cli) (program Demo.cli) ["goob"])
  = Live (LObject (<["middleName" := LString "cameron"]>
                  (<["lastName" := LString "tabai"]> ∅))) /\
  run Demo.cli ["goob"]
  = [ConsoleError (errorText "i dunno what to do"); ProcessExit 1] /\
  existsb isHelp (run Demo.cli ["goob"]) = false.
Proof.
  assert (H1 : contextFinal
                 (resolve (autoHelp Demo.cli) (program Demo.cli) ["goob"]) = false)
    by (vm_compute; reflexivity).
  assert (H2 : context (resolve (autoHelp Demo.cli) (program Demo.cli) ["goob"])
               = Live (LObject (<["middleName" := LString "cameron"]>
                               (<["lastName" := LString "tabai"]> ∅))))
    by (vm_compute; reflexivity).
  split; [exact H1|]. split; [exact H2|].
  exact (C4_end_on_group_fails Demo.cli ["goob"] _ H1 H2).
Defined.

(** C5, as the claim states it, fails: in the demo the token [bogus]
    is met while navigating at the root, matches no member, has no
    flag prefix and is not the help keyword; the run reports no error
    and calls [version] with [bogus] as its argument. *)
Lemma C5_unmatched_token_is_no_error :
  contextFinal (initial (program Demo.cli)) = false /\
  getProperty (context (initial (program Demo.cli))) "bogus" = LUndefined /\
  startsWith "bogus" FLAG_PREFIX = false /\
  takenAsHelp (autoHelp Demo.cli) (initial (program Demo.cli)) "bogus" = false /\
  run Demo.cli ["bogus"; "version"]
  = [Called (Demo.version Demo.programMetaInterface) ["bogus"];
     ValueHandled (LString "unknown")] /\
  existsb isError (run Demo.cli ["bogus"; "version"]) = false.
Proof. vm_compute. repeat split; reflexivity. Qed.

(** C5, amended: a token met while navigating that matches no member
    of the current live object (it reads as [null] or [undefined]
    there, through the prototype too), does not start with the flag
    prefix and is not taken as the help keyword is appended to the
    positional arguments; the context, the depth, the navigating state
    and the flags are kept, and the resolver goes on with the next
    token: no error is raised for it. *)
Theorem C5_unmatched_token_is_positional (autoHelp : bool) (st : Resolver)
    (members : gmap string live) (arg : string) :
  context st = Live (LObject members) ->
  contextFinal st = false ->
  isNil (readMember members arg) = true ->
  startsWith arg FLAG_PREFIX = false ->
  takenAsHelp autoHelp st arg = false ->
  step autoHelp st arg
  = {| context := context st;
       contextDepth := contextDepth st;
       contextFinal := contextFinal st;
       r_positionalArgs := r_positionalArgs st ++ [arg];
       r_flags := r_flags st |} /\
  forall rest : list string,
    fold_left (step autoHelp) (arg :: rest) st
    = fold_left (step autoHelp) rest
        {| context := context st;
           contextDepth := contextDepth st;
           contextFinal := contextFinal st;
           r_positionalArgs := r_positionalArgs st ++ [arg];
           r_flags := r_flags st |}.
Proof.
  intros Hc _ Hnil Hflag Hhelp.
  assert (Hprop : isNil (getProperty (context st) arg) = true)
    by (rewrite Hc; exact Hnil).
  assert (E : step autoHelp st arg
              = {| context := context st;
                   contextDepth := contextDepth st;
                   contextFinal := contextFinal st;
                   r_positionalArgs := r_positionalArgs st ++ [arg];
                   r_flags := r_flags st |}).
  { rewrite step_classify by auto. unfold classify. now rewrite Hflag. }
  split; [exact E|]. intros rest. cbn [fold_left]. now rewrite E.
Qed.

Lemma C5_unmatched_token_is_positional_witness :
  context (initial (program Demo.cli))
  = Live (LObject (<["foo" := Demo.foo]>
                   (<["goob" := Demo.goob]>
                   (<["version" := Demo.version Demo.programMetaInterface]>
                      ∅)))) /\
  contextFinal (initial (program Demo.cli)) = false /\
  isNil (getProperty (context (initial (program Demo.cli))) "bogus") = true /\
  startsWith "bogus" FLAG_PREFIX = false /\
  takenAsHelp true (initial (program Demo.cli)) "bogus" = false /\
  r_positionalArgs (step true (initial (program Demo.cli)) "bogus") = ["bogus"] /\
  context (step true (initial (program Demo.cli)) "bogus")
  = context (initial (program Demo.cli)).
Proof.
  assert (H0 : context (initial (program Demo.cli))
               = Live (LObject (<["foo" := Demo.foo]>
                         (<["goob" := Demo.goob]>
                         (<["version" := Demo.version Demo.programMetaInterface]>
                            ∅))))) by reflexivity.
  assert (H1 : contextFinal (initial (program Demo.cli)) = false) by reflexivity.
  assert (H2 : isNil (getProperty (context (initial (program Demo.cli))) "bogus")
               = true) by (vm_compute; reflexivity).
  assert (H3 : startsWith "bogus" FLAG_PREFIX = false) by reflexivity.
  assert (H4 : takenAsHelp true (initial (program Demo.cli)) "bogus" = false)
    by reflexivity.
  do 5 (split; [assumption|]).
  rewrite (proj1 (C5_unmatched_token_is_positional true
                    (initial (program Demo.cli)) _ "bogus" H0 H1 H2 H3 H4)).
  split; reflexivity.
Defined.

Lemma flagOf_with_value (name value : string) :
  absent "=" name = true ->
  flagOf (FLAG_PREFIX +:+ name +:+ "=" +:+ value) = (name, value).
Proof.
  intros H. unfold flagOf. rewrite substringFrom_drop.
  change (dropChars (String.length FLAG_PREFIX)
            (FLAG_PREFIX +:+ name +:+ "=" +:+ value))
    with (name +:+ singleton "=" +:+ value).
  change (split (name +:+ singleton "=" +:+ value) "=")
    with (split_go (singleton "=") 0 "" (name +:+ singleton "=" +:+ value)).
  rewrite split_go_at by exact H.
  change (join (split_go (singleton "=") 0 "" value) "=")
    with (join (split_go (singleton "=") 0 "" value) (singleton "=")).
  now rewrite join_split_go.
Qed.

Lemma flagOf_without_value (name : string) :
  absent "=" name = true ->
  flagOf (FLAG_PREFIX +:+ name) = (name, "").
Proof.
  intros H. unfold flagOf. rewrite substringFrom_drop.
  change (dropChars (String.length FLAG_PREFIX) (FLAG_PREFIX +:+ name))
    with name.
  change (split name "=") with (split_go (singleton "=") 0 "" name).
  now rewrite split_go_absent by exact H.
Qed.

(** Every token with the flag prefix is the prefix and a name without
    [=], alone or followed by [=] and a value. *)
Lemma flag_token_forms (arg : string) :
  startsWith arg FLAG_PREFIX = true ->
  exists name,
    absent "=" name = true /\
    (arg = FLAG_PREFIX +:+ name \/
     exists value, arg = FLAG_PREFIX +:+ name +:+ "=" +:+ value).
Proof.
  intros H. apply startsWith_dashes in H. rewrite H.
  pose proof (split_go_first "=" (dropChars 2 arg) "") as F.
  destruct (absent "=" (dropChars 2 arg)) eqn:E.
  - exists (dropChars 2 arg). split; [exact E|now left].
  - destruct F as (name & value & -> & Hn & _).
    exists name. split; [exact Hn|]. right. now exists value.
Qed.

(** A token with the flag prefix that is not consumed as a tree member
    has a name, the text between the prefix and the first [=], and a
    value, all the text after that first [=] (the empty string when
    there is none).  Under every name but [__proto__] the value is
    recorded; a flag named [__proto__] leaves the resolver as it
    was. *)
Lemma flag_recorded (autoHelp : bool) (st : Resolver) (arg : string) :
  startsWith arg FLAG_PREFIX = true ->
  contextFinal st = true \/ isNil (getProperty (context st) arg) = true ->
  exists name value,
    absent "=" name = true /\
    (arg = FLAG_PREFIX +:+ name +:+ "=" +:+ value \/
     arg = FLAG_PREFIX +:+ name /\ value = "") /\
    flagOf arg = (name, value) /\
    (name <> "__proto__" ->
     step autoHelp st arg
     = {| context := context st;
          contextDepth := contextDepth st;
          contextFinal := contextFinal st;
          r_positionalArgs := r_positionalArgs st;
          r_flags := <[name := value]> (r_flags st) |} /\
     r_flags (step autoHelp st arg) !! name = Some value) /\
    (name = "__proto__" -> step autoHelp st arg = st).
Proof.
  intros Hprefix Hfree.
  assert (Hstep : step autoHelp st arg = classify st arg).
  { apply step_classify; [|exact Hfree].
    unfold takenAsHelp. rewrite dashes_not_help by exact Hprefix.
    apply andb_false_r. }
  assert (Hforms : exists name value,
    absent "=" name = true /\
    (arg = FLAG_PREFIX +:+ name +:+ "=" +:+ value \/
     arg = FLAG_PREFIX +:+ name /\ value = "") /\
    flagOf arg = (name, value)).
  { destruct (flag_token_forms arg Hprefix) as (name & Hname & [->|(value & ->)]).
    - exists name, "". repeat split; [exact Hname|now right|].
      now apply flagOf_without_value.
    - exists name, value. repeat split; [exact Hname|now left|].
      now apply flagOf_with_value. }
  destruct Hforms as (name & value & Hname & Hform & Hflag).
  exists name, value.
  split; [exact Hname|]. split; [exact Hform|]. split; [exact Hflag|].
  rewrite Hstep. unfold classify, assign. rewrite Hprefix, Hflag.
  cbn [fst snd]. split.
  - intros Hne. apply String.eqb_neq in Hne. rewrite Hne.
    split; [reflexivity|]. cbn [r_flags]. apply lookup_insert_eq.
  - intros ->. cbn [String.eqb]. rewrite !Ascii.eqb_refl. now destruct st.
Qed.

(** C6: the token [--__proto__=x] is classified as a flag, its name is
    [__proto__] and its value [x], and nothing is recorded for it: the
    flags are as they were, where the token [--x=a=b] beside it is
    recorded under [x] with the value [a=b].  A flag is recorded under
    every name but that one. *)
Theorem C6_flag_named_proto_is_not_recorded :
  (startsWith "--__proto__=x" FLAG_PREFIX = true /\
   isNil (getProperty (context (initial (program Demo.cli))) "--__proto__=x")
   = true /\
   flagOf "--__proto__=x" = ("__proto__", "x") /\
   r_flags (step true (initial (program Demo.cli)) "--__proto__=x") = ∅ /\
   r_flags (resolve true (program Demo.cli) ["--x=a=b"; "--__proto__=x"])
   = <["x" := "a=b"]> ∅) /\
  forall (autoHelp : bool) (st : Resolver) (arg : string),
    startsWith arg FLAG_PREFIX = true ->
    contextFinal st = true \/ isNil (getProperty (context st) arg) = true ->
    exists name value,
      absent "=" name = true /\
      (arg = FLAG_PREFIX +:+ name +:+ "=" +:+ value \/
       arg = FLAG_PREFIX +:+ name /\ value = "") /\
      flagOf arg = (name, value) /\
      (name <> "__proto__" ->
       r_flags (step autoHelp st arg) !! name = Some value) /\
      (name = "__proto__" -> r_flags (step autoHelp st arg) = r_flags st).
Proof.
  split; [vm_compute; repeat split; reflexivity|].
  intros autoHelp st arg Hprefix Hfree.
  destruct (flag_recorded autoHelp st arg Hprefix Hfree)
    as (name & value & Hname & Hform & Hflag & Hrec & Hproto).
  exists name, value. repeat split; try assumption.
  - intros Hne. now destruct (Hrec Hne).
  - intros E. now rewrite (Hproto E).
Qed.



(** C8: the first binding installs the instance; a second binding,
    of whatever program, prints the singleton error and exits with
    status 1, and the process keeps the instance bound first. *)
Theorem C8_single_binding (p : Process) (program1 program2 : live)
    (meta1 meta2 : MetaInterface) (options1 options2 : CliOptions) :
  (instance p = None ->
   exists inst p1,
     of_ p program1 meta1 options1 = Installed inst p1 /\
     instance p1 = Some inst /\
     program inst = program1 /\
     of_ p1 program2 meta2 options2
     = Terminated
         [ConsoleError
            (errorText "Cli is a singleton, cannot create multiple instances");
          ProcessExit 1]
         p1) /\
  (forall first, instance p = Some first ->
     of_ p program2 meta2 options2
     = Terminated
         [ConsoleError
            (errorText "Cli is a singleton, cannot create multiple instances");
          ProcessExit 1]
         p).
Proof.
  split.
  - intros H. unfold of_ at 1. rewrite H.
    eexists. eexists. split; [reflexivity|].
    split; [reflexivity|]. split; reflexivity.
  - intros first H. unfold of_. rewrite H. reflexivity.
Qed.

Lemma C8_single_binding_witness :
  instance Demo.freshProcess = None /\
  exists p1,
    of_ Demo.freshProcess (Demo.program Demo.programMetaInterface)
        Demo.programMetaInterface Demo.options
    = Installed Demo.cli p1 /\
    instance p1 = Some Demo.cli /\
    of_ p1 Demo.goob Demo.programMetaInterface Demo.options
    = Terminated
        [ConsoleError
           (errorText "Cli is a singleton, cannot create multiple instances");
         ProcessExit 1]
        p1.
Proof.
  assert (H : instance Demo.freshProcess = None) by reflexivity.
  split; [exact H|].
  destruct (proj1 (C8_single_binding Demo.freshProcess
                     (Demo.program Demo.programMetaInterface) Demo.goob
                     Demo.programMetaInterface Demo.programMetaInterface
                     Demo.options Demo.options) H)
    as (inst & p1 & Hof & Hinst & _ & Hsecond).
  exists p1.
  assert (E : inst = Demo.cli).
  { unfold of_ in Hof. rewrite H in Hof. now injection Hof as <- _. }
  subst inst. repeat split; assumption.
Defined.

(** *** Members that are [null] or [undefined], anywhere in the tree *)

Lemma alike_nil (v1 v2 : live) :
  alike v1 v2 -> isNil v1 = isNil v2 /\ typeofLive v1 = typeofLive v2.
Proof. intros [v|m1 m2 _]; split; reflexivity. Qed.

Lemma inherited_none (key : string) :
  includes OBJECT_PROTOTYPE_KEYS key = false -> inherited key = LUndefined.
Proof. unfold inherited. now intros ->. Qed.

Lemma alike_delete (members : gmap string live) (key : string) (v : live) :
  members !! key = Some v -> isNil v = true ->
  includes OBJECT_PROTOTYPE_KEYS key = false ->
  alike (LObject members) (LObject (delete key members)).
Proof.
  intros Hm Hnil Hown. apply alike_objects. intros k. unfold readMember.
  destruct (decide (key = k)) as [<-|Hne].
  - left. rewrite Hm, lookup_delete_eq, inherited_none by exact Hown.
    split; [exact Hnil|reflexivity].
  - right. rewrite lookup_delete_ne by exact Hne. apply alike_same.
Qed.

Lemma step_related (autoHelp : bool) (s1 s2 : Resolver) (arg : string) :
  related s1 s2 -> related (step autoHelp s1 arg) (step autoHelp s2 arg).
Proof.
  destruct s1 as [c1 d1 f1 p1 g1], s2 as [c2 d2 f2 p2 g2].
  intros (Hc & Hd & Hf & Hp & Hg). cbn in Hc, Hd, Hf, Hp, Hg. subst d2 f2 p2 g2.
  unfold step. cbn [context contextDepth contextFinal r_positionalArgs r_flags].
  destruct (autoHelp && (d1 =? 0)%nat && String.eqb (toLowerCase arg) "help").
  { repeat split. constructor. }
  assert (Hclass :
    related
      (if startsWith arg FLAG_PREFIX
       then let '(name, value) := flagOf arg in
            {| context := c1; contextDepth := d1; contextFinal := f1;
               r_positionalArgs := p1; r_flags := assign g1 name value |}
       else {| context := c1; contextDepth := d1; contextFinal := f1;
               r_positionalArgs := p1 ++ [arg]; r_flags := g1 |})
      (if startsWith arg FLAG_PREFIX
       then let '(name, value) := flagOf arg in
            {| context := c2; contextDepth := d1; contextFinal := f1;
               r_positionalArgs := p1; r_flags := assign g1 name value |}
       else {| context := c2; contextDepth := d1; contextFinal := f1;
               r_positionalArgs := p1 ++ [arg]; r_flags := g1 |})).
  { destruct (startsWith arg FLAG_PREFIX); [destruct (flagOf arg)|];
      repeat split; exact Hc. }
  destruct f1; [exact Hclass|]. cbn [negb andb].
  assert (Hprop :
    (isNil (getProperty c1 arg) = true /\ isNil (getProperty c2 arg) = true) \/
    alike (getProperty c1 arg) (getProperty c2 arg)).
  { destruct Hc as [|v1 v2 Hv]; [right; apply alike_same|].
    destruct Hv as [v|m1 m2 Hm]; [right; apply alike_same|].
    apply Hm. }
  destruct Hprop as [[-> ->]|Hprop]; [exact Hclass|].
  destruct (alike_nil _ _ Hprop) as (<- & <-).
  destruct (isNil (getProperty c1 arg)); [exact Hclass|]. cbn [negb].
  destruct (typeofLive (getProperty c1 arg));
    repeat split; try exact Hc; now constructor.
Qed.

Lemma fold_related (autoHelp : bool) (tokens : list string) :
  forall s1 s2,
    related s1 s2 ->
    related (fold_left (step autoHelp) tokens s1)
            (fold_left (step autoHelp) tokens s2).
Proof.
  induction tokens as [|t tokens IH]; intros s1 s2 H; [exact H|].
  cbn. apply IH, step_related, H.
Qed.

Lemma dispatch_related (s1 s2 : Resolver) :
  related s1 s2 -> dispatch s1 = dispatch s2.
Proof.
  destruct s1 as [c1 d1 f1 p1 g1], s2 as [c2 d2 f2 p2 g2].
  intros (Hc & Hd & Hf & Hp & Hg). cbn in Hc, Hd, Hf, Hp, Hg. subst d2 f2 p2 g2.
  destruct Hc as [|v1 v2 Hv]; [reflexivity|].
  destruct Hv as [v|m1 m2 _]; reflexivity.
Qed.

(** Two programs that differ only in members that read as [null] or
    [undefined] give the same run on every argument vector. *)
Lemma run_alike (this : Cli) (program1 program2 : live) (tokens : list string) :
  alike program1 program2 ->
  run (withProgram this program1) tokens = run (withProgram this program2) tokens.
Proof.
  intros H. rewrite !run_dispatch. apply dispatch_related.
  apply fold_related. repeat split. cbn. now constructor.
Qed.

(** Removing a member whose value is [null] or [undefined] from the
    root object changes no run, when no object inherits a property of
    its name. *)
Lemma run_without_nil_member (this : Cli) (members : gmap string live)
    (key : string) (v : live) (tokens : list string) :
  members !! key = Some v -> isNil v = true ->
  includes OBJECT_PROTOTYPE_KEYS key = false ->
  run (withProgram this (LObject members)) tokens
  = run (withProgram this (LObject (delete key members))) tokens.
Proof.
  intros Hm Hnil Hown. apply run_alike. eapply alike_delete; eassumption.
Qed.




(** While the resolver navigates from an object, its context is an
    object. *)
Lemma navigating_on_object (autoHelp : bool) (tokens : list string) :
  forall st,
    (contextFinal st = false -> exists m, context st = Live (LObject m)) ->
    contextFinal (fold_left (step autoHelp) tokens st) = false ->
    exists m, context (fold_left (step autoHelp) tokens st) = Live (LObject m).
Proof.
  induction tokens as [|t tokens IH]; intros st H; [exact H|].
  cbn. apply IH. clear IH. unfold step.
  destruct (autoHelp && (contextDepth st =? 0)%nat
            && String.eqb (toLowerCase t) "help"); [intros [=]|].
  destruct (negb (contextFinal st)
            && negb (isNil (getProperty (context st) t))) eqn:E.
  - destruct (getProperty (context st) t) eqn:G;
      cbn [typeofLive isNil negb] in *; cbn;
      first [ rewrite andb_false_r in E; discriminate E
            | exact H
            | intros Hfinal; discriminate Hfinal
            | intros _; eexists; reflexivity ].
  - destruct (startsWith t FLAG_PREFIX); [destruct (flagOf t)|]; exact H.
Qed.

(** The tree of the specification's example, [{foo: {bar: method(a,
    b)}}], on the argument vector [foo bar --x=1 hello]. *)
Example resolve_two_level_tree :
  let bar := LFunction 2 (fun _ _ => Return LUndefined) in
  let tree : live :=
    LObject (<["foo" := LObject (<["bar" := bar]> ∅)]> ∅) in
  let st := resolve true tree ["foo"; "bar"; "--x=1"; "hello"] in
  context st = Live bar /\
  r_positionalArgs st = ["hello"] /\
  r_flags st = <["x" := "1"]> ∅ /\
  dispatch st = [Called bar ["hello"]] /\
  bindParameters 2 ["hello"] = [Some "hello"; None].
Proof. vm_compute. repeat split; reflexivity. Qed.

(** The same tree on [help foo]: help is shown for the path [foo] and
    nothing is called. *)
Example resolve_help_path :
  let bar := LFunction 2 (fun _ _ => Return LUndefined) in
  let tree : live :=
    LObject (<["foo" := LObject (<["bar" := bar]> ∅)]> ∅) in
  dispatch (resolve true tree ["help"; "foo"]) = [HelpShown ["foo"]].
Proof. vm_compute. reflexivity. Qed.

End ResolverFacts.

(** ** Type rendering *)

Module RenderingFacts.

Import Meta.

(** C9, as the claim states it, fails: the record of [string] keys and
    [number] values is rendered with a space after the comma, not as
    the text [Map<string,number>]. *)
Lemma C9_record_rendering_has_a_space :
  humanReadableType
    (OfType (RecordType KeyString (TypeRef (ScalarType number) false)))
  = "Map<string, number>" /\
  humanReadableType
    (OfType (RecordType KeyString (TypeRef (ScalarType number) false)))
  <> "Map<" +:+ humanReadableType (OfType (ScalarType string_))
     +:+ "," +:+ humanReadableType (OfRef (TypeRef (ScalarType number) false))
     +:+ ">".
Proof. split; [reflexivity|]. vm_compute. discriminate. Qed.

(** C9, amended: the rendering is defined on every metadata type, by
    recursion on it; a record renders as [Map<K, V>], with a comma and
    a space between the renderings [K] of its key type and [V] of its
    value type; an array as the rendering of its element type followed
    by [[]]; a reference as the rendering of the type it wraps,
    nullable or not; a named object as its name; an unnamed object as
    [unknown]. *)
Theorem C9_human_readable_type :
  (forall k v,
     humanReadableType (OfType (RecordType k v))
     = "Map<" +:+ humanReadableType (OfType (ScalarType (keyScalar k)))
       +:+ ", " +:+ humanReadableType (OfRef v) +:+ ">") /\
  (forall v,
     humanReadableType (OfType (ArrayType v))
     = humanReadableType (OfRef v) +:+ "[]") /\
  (forall t nullable,
     humanReadableType (OfRef (TypeRef t nullable))
     = humanReadableType (OfType t)) /\
  (forall name description members,
     humanReadableType (OfType (ObjectType (Some name) description members))
     = name) /\
  (forall description members,
     humanReadableType (OfType (ObjectType None description members))
     = "unknown") /\
  (forall s, humanReadableType (OfType (ScalarType s)) = scalarText s) /\
  humanReadableType OfUnknown = "unknown".
Proof. repeat split. Qed.

(** A nested example: a nullable array of records of arrays. *)
Example humanReadableType_nested :
  humanReadableType
    (OfRef (TypeRef
       (ArrayType (TypeRef
          (RecordType KeyNumber
             (TypeRef (ArrayType (TypeRef (ObjectType (Some "Goober") None [])
                                          false))
                      true))
          false))
       true))
  = "Map<number, Goober[]>[]".
Proof. reflexivity. Qed.

End RenderingFacts.

(** ** More on the resolver *)

Module ResolverMore.

Import JsString JsObject Util Meta Cli Notions NotionsMore StringFacts ResolverFacts.



Lemma step_keeps_live (st : Resolver) (arg : string) :
  context st <> ShowHelp -> context (step false st arg) <> ShowHelp.
Proof.
  intros H. unfold step. cbn [andb].
  destruct (negb (contextFinal st)
            && negb (isNil (getProperty (context st) arg))).
  - destruct (typeofLive (getProperty (context st) arg)); cbn;
      first [exact H | discriminate].
  - destruct (startsWith arg FLAG_PREFIX); [destruct (flagOf arg)|]; exact H.
Qed.

Lemma builtinEvents_no_help (name : string) (arguments : list string) :
  existsb isHelp (builtinEvents name arguments) = false.
Proof.
  unfold builtinEvents.
  repeat match goal with
  | |- context [if ?c then _ else _] => destruct c
  end; try reflexivity.
  now destruct arguments.
Qed.

(** X2: with auto-help off, no argument vector makes the run show
    help: the help keyword is a token like any other. *)
Theorem no_help_without_autoHelp (this : Cli) (tokens : list string) :
  autoHelp this = false ->
  existsb isHelp (run this tokens) = false.
Proof.
  intros Hauto. rewrite run_dispatch, Hauto.
  assert (H : context (resolve false (program this) tokens) <> ShowHelp).
  { unfold resolve.
    assert (G : forall st, context st <> ShowHelp ->
                context (fold_left (step false) tokens st) <> ShowHelp).
    { induction tokens as [|t tokens IH]; intros st Hst; [exact Hst|].
      cbn. apply IH, step_keeps_live, Hst. }
    apply G. discriminate. }
  unfold dispatch. destruct (context _) as [v|]; [|congruence].
  destruct v; try reflexivity.
  - cbn. destruct (call _ _ _) as [r|m]; [destruct (isNil r)|]; reflexivity.
  - cbn [existsb isHelp orb]. apply builtinEvents_no_help.
Qed.

Lemma no_help_without_autoHelp_witness :
  autoHelp (newCli Demo.freshProcess Demo.foo Demo.programMetaInterface
              {| opt_autoHelp := Some false; opt_commandName := None |})
  = false /\
  existsb isHelp
    (run (newCli Demo.freshProcess Demo.foo Demo.programMetaInterface
            {| opt_autoHelp := Some false; opt_commandName := None |})
         ["help"; "name"]) = false.
Proof.
  split; [reflexivity|].
  apply (no_help_without_autoHelp
           (newCli Demo.freshProcess Demo.foo Demo.programMetaInterface
              {| opt_autoHelp := Some false; opt_commandName := None |})
           ["help"; "name"]).
  reflexivity.
Defined.

Lemma positionalsOf_idempotent (tokens : list string) :
  positionalsOf (positionalsOf tokens) = positionalsOf tokens.
Proof.
  unfold positionalsOf. induction tokens as [|t tokens IH]; [reflexivity|].
  cbn [List.filter]. destruct (negb (startsWith t FLAG_PREFIX)) eqn:E;
    [|exact IH].
  cbn [List.filter]. now rewrite E, IH.
Qed.

(** After the context is final nothing but the positionals and the
    flags changes, and tokens without the flag prefix leave the flags
    as they are. *)
Lemma fold_final_state (autoHelp : bool) (tokens : list string) :
  forall st,
    contextFinal st = true -> 0 < contextDepth st ->
    let st' := fold_left (step autoHelp) tokens st in
    context st' = context st /\
    contextDepth st' = contextDepth st /\
    contextFinal st' = true /\
    r_positionalArgs st' = (r_positionalArgs st ++ positionalsOf tokens)%list /\
    (positionalsOf tokens = tokens -> r_flags st' = r_flags st).
Proof.
  induction tokens as [|t tokens IH]; intros st Hf Hd; cbn.
  - now rewrite app_nil_r.
  - assert (E : step autoHelp st t = classify st t).
    { apply step_classify; [|now left].
      unfold takenAsHelp. destruct (contextDepth st); [lia|].
      cbn. now rewrite andb_false_r. }
    rewrite E.
    assert (Hc : context (classify st t) = context st
                 /\ contextFinal (classify st t) = contextFinal st
                 /\ contextDepth (classify st t) = contextDepth st).
    { unfold classify. now destruct (startsWith t FLAG_PREFIX). }
    destruct Hc as (Hc1 & Hc2 & Hc3).
    destruct (IH (classify st t)) as (H1 & H2 & H3 & H4 & H5);
      [congruence|lia|].
    rewrite H1, H2, H3, H4, Hc1, Hc3. repeat split.
    + unfold classify, positionalsOf. cbn [List.filter].
      destruct (startsWith t FLAG_PREFIX); cbn; [reflexivity|].
      now rewrite <- app_assoc.
    + unfold positionalsOf. cbn [List.filter].
      destruct (startsWith t FLAG_PREFIX) eqn:Et; cbn [negb].
      * intros Hkeep.
        assert (Hlen : length (List.filter
                                 (fun a => negb (startsWith a FLAG_PREFIX))
                                 tokens) <= length tokens)
          by apply filter_length_le.
        rewrite Hkeep in Hlen. cbn in Hlen. lia.
      * intros [= Hkeep]. rewrite H5 by exact Hkeep.
        unfold classify. now rewrite Et.
Qed.

Lemma positionalsOf_fixed (tokens : list string) :
  positionalsOf (positionalsOf tokens) = positionalsOf tokens.
Proof. apply positionalsOf_idempotent. Qed.

(** X3: once the context is terminal, the tokens with the flag prefix
    among those that follow change nothing but the flags: the
    resolver ends with the context, the depth and the positional
    arguments it ends with when they are taken out, where the flags
    are those recorded before the context became terminal. *)
Theorem flags_after_terminal_only_set_flags (autoHelp : bool)
    (program : live) (pre rest : list string) :
  contextFinal (resolve autoHelp program pre) = true ->
  resolve autoHelp program (pre ++ positionalsOf rest)
  = {| context := context (resolve autoHelp program (pre ++ rest));
       contextDepth := contextDepth (resolve autoHelp program (pre ++ rest));
       contextFinal := contextFinal (resolve autoHelp program (pre ++ rest));
       r_positionalArgs :=
         r_positionalArgs (resolve autoHelp program (pre ++ rest));
       r_flags := r_flags (resolve autoHelp program pre) |} /\
  context (resolve autoHelp program (pre ++ rest))
  = context (resolve autoHelp program pre) /\
  r_positionalArgs (resolve autoHelp program (pre ++ rest))
  = (r_positionalArgs (resolve autoHelp program pre)
     ++ positionalsOf rest)%list.
Proof.
  intros Hfinal. rewrite !resolve_app.
  pose proof (resolve_settled autoHelp program pre Hfinal) as Hd.
  destruct (fold_final_state autoHelp rest _ Hfinal Hd)
    as (Hc1 & Hd1 & Hf1 & Hp1 & _).
  destruct (fold_final_state autoHelp (positionalsOf rest) _ Hfinal Hd)
    as (Hc2 & Hd2 & Hf2 & Hp2 & Hg2).
  rewrite positionalsOf_fixed in Hp2.
  specialize (Hg2 (positionalsOf_fixed rest)).
  rewrite Hc1, Hd1, Hf1, Hp1. split; [|split; reflexivity].
  destruct (fold_left (step autoHelp) (positionalsOf rest)
              (resolve autoHelp program pre)) as [c d f p g].
  cbn in *. now subst.
Qed.

Lemma flags_after_terminal_only_set_flags_witness :
  contextFinal (resolve true (program Demo.cli) ["foo"; "bar"]) = true /\
  r_flags (resolve true (program Demo.cli)
             (["foo"; "bar"] ++ ["--x=1"; "hello"; "--y"]))
  = <["y" := ""]> (<["x" := "1"]> ∅) /\
  resolve true (program Demo.cli)
    (["foo"; "bar"] ++ positionalsOf ["--x=1"; "hello"; "--y"])
  = {| context := Live Demo.bar;
       contextDepth := 2;
       contextFinal := true;
       r_positionalArgs := ["hello"];
       r_flags := ∅ |} /\
  context (resolve true (program Demo.cli)
             (["foo"; "bar"] ++ ["--x=1"; "hello"; "--y"]))
  = Live Demo.bar.
Proof.
  assert (H : contextFinal (resolve true (program Demo.cli) ["foo"; "bar"])
              = true) by (vm_compute; reflexivity).
  split; [exact H|]. split; [vm_compute; reflexivity|].
  destruct (flags_after_terminal_only_set_flags true (program Demo.cli)
              ["foo"; "bar"] ["--x=1"; "hello"; "--y"] H) as (E & Hc & _).
  split.
  - rewrite E. vm_compute. reflexivity.
  - rewrite Hc. vm_compute. reflexivity.
Defined.

(** X4: once the context is a scalar, the run hands that scalar to the
    value handler whatever tokens follow: they are neither looked up
    nor reported. *)
Theorem scalar_ignores_later_tokens (this : Cli) (pre rest : list string)
    (v : live) :
  contextFinal (resolve (autoHelp this) (program this) pre) = true ->
  context (resolve (autoHelp this) (program this) pre) = Live v ->
  isScalar v = true ->
  run this (pre ++ rest) = [ValueHandled v].
Proof.
  intros Hfinal Hc Hs. rewrite run_dispatch, resolve_app.
  pose proof (resolve_settled (autoHelp this) (program this) pre Hfinal) as Hd.
  destruct (fold_final (autoHelp this) rest _ Hfinal Hd) as (Hc1 & _ & _).
  unfold dispatch. rewrite Hc1, Hc.
  destruct v; try discriminate Hs; reflexivity.
Qed.

Lemma scalar_ignores_later_tokens_witness :
  contextFinal (resolve (autoHelp Demo.cli) (program Demo.cli) ["foo"; "name"])
  = true /\
  context (resolve (autoHelp Demo.cli) (program Demo.cli) ["foo"; "name"])
  = Live (LString "shawn") /\
  isScalar (LString "shawn") = true /\
  run Demo.cli (["foo"; "name"] ++ ["bar"; "--x"; "stuff"])
  = [ValueHandled (LString "shawn")].
Proof.
  assert (H1 : contextFinal
                 (resolve (autoHelp Demo.cli) (program Demo.cli) ["foo"; "name"])
               = true) by (vm_compute; reflexivity).
  assert (H2 : context
                 (resolve (autoHelp Demo.cli) (program Demo.cli) ["foo"; "name"])
               = Live (LString "shawn")) by (vm_compute; reflexivity).
  assert (H3 : isScalar (LString "shawn") = true) by reflexivity.
  repeat (split; [assumption|]).
  exact (scalar_ignores_later_tokens Demo.cli ["foo"; "name"]
           ["bar"; "--x"; "stuff"] _ H1 H2 H3).
Defined.

(** One step either keeps the positionals, raising the depth by at
    most one, or appends the token, which then has no flag prefix, and
    keeps the depth. *)
Lemma step_positionals (autoHelp : bool) (st : Resolver) (arg : string) :
  (r_positionalArgs (step autoHelp st arg) = r_positionalArgs st /\
   contextDepth (step autoHelp st arg) <= S (contextDepth st)) \/
  (r_positionalArgs (step autoHelp st arg) = (r_positionalArgs st ++ [arg])%list /\
   contextDepth (step autoHelp st arg) = contextDepth st /\
   startsWith arg FLAG_PREFIX = false).
Proof.
  unfold step.
  destruct (autoHelp && (contextDepth st =? 0)%nat
            && String.eqb (toLowerCase arg) "help"); [left; cbn; auto|].
  destruct (negb (contextFinal st)
            && negb (isNil (getProperty (context st) arg))).
  - left. destruct (typeofLive (getProperty (context st) arg)); cbn; auto.
  - destruct (startsWith arg FLAG_PREFIX) eqn:E.
    + left. destruct (flagOf arg). cbn. auto.
    + right. cbn. auto.
Qed.

Lemma positionalsOf_cons_sublist (l : list string) (t : string)
    (tokens : list string) :
  sublist l (positionalsOf tokens) -> sublist l (positionalsOf (t :: tokens)).
Proof.
  intros H. unfold positionalsOf in *. cbn [List.filter].
  destruct (negb (startsWith t FLAG_PREFIX)); [now apply sublist_cons|exact H].
Qed.

Lemma fold_positionals (autoHelp : bool) (tokens : list string) :
  forall st,
    exists extra,
      r_positionalArgs (fold_left (step autoHelp) tokens st)
      = (r_positionalArgs st ++ extra)%list /\
      sublist extra (positionalsOf tokens) /\
      contextDepth (fold_left (step autoHelp) tokens st) + length extra
      <= contextDepth st + length tokens.
Proof.
  induction tokens as [|t tokens IH]; intros st.
  - exists []. cbn. rewrite app_nil_r. repeat split; [constructor|lia].
  - cbn [fold_left]. destruct (IH (step autoHelp st t)) as (extra & Hp & Hs & Hd).
    destruct (step_positionals autoHelp st t) as [(Hsame & Hdepth)|(Happ & Hdepth & Hflag)].
    + exists extra. rewrite Hp, Hsame. repeat split.
      * now apply positionalsOf_cons_sublist.
      * cbn [length]. lia.
    + exists (t :: extra). rewrite Hp, Happ, <- app_assoc. repeat split.
      * unfold positionalsOf in *. cbn [List.filter]. rewrite Hflag.
        cbn [negb]. now apply sublist_skip.
      * cbn [length]. lia.
Qed.

(** X5: the positional arguments of a run are tokens without the flag
    prefix, in the order met and none used twice; with the depth
    reached they account for no more tokens than were given. *)
Theorem positionals_are_ordered_tokens (autoHelp : bool) (program : live)
    (tokens : list string) :
  sublist (r_positionalArgs (resolve autoHelp program tokens))
          (positionalsOf tokens) /\
  contextDepth (resolve autoHelp program tokens)
  + length (r_positionalArgs (resolve autoHelp program tokens))
  <= length tokens.
Proof.
  destruct (fold_positionals autoHelp tokens (initial program))
    as (extra & Hp & Hs & Hd).
  unfold resolve. rewrite Hp. cbn in *. split; [exact Hs|exact Hd].
Qed.

(** Resolution along a path, from any state that is still navigating. *)
Lemma fold_follow (autoHelp : bool) (path : list string) :
  forall st v target,
    context st = Live v ->
    contextFinal st = false ->
    (forall key rest, path = key :: rest ->
       takenAsHelp autoHelp st key = false) ->
    follow v path = Some target ->
    fold_left (step autoHelp) path st
    = {| context := Live target;
         contextDepth := contextDepth st + length path;
         contextFinal := match path with
                         | [] => false
                         | _ => negb (isObject target)
                         end;
         r_positionalArgs := r_positionalArgs st;
         r_flags := r_flags st |}.
Proof.
  induction path as [|key rest IH]; intros st v target Hc Hf Hhelp Hfollow.
  - cbn in *. injection Hfollow as <-. destruct st; cbn in *.
    subst. now rewrite Nat.add_0_r.
  - cbn [follow] in Hfollow.
    destruct v as [| | | | | | | | |members]; try discriminate Hfollow.
    destruct (members !! key) as [child|] eqn:Hm; [|discriminate Hfollow].
    pose proof (Hhelp key rest eq_refl) as Hk. unfold takenAsHelp in Hk.
    cbn [fold_left]. 
    assert (Hprop : getProperty (context st) key = child).
    { rewrite Hc. cbn. unfold readMember. now rewrite Hm. }
    assert (Hterminal : forall c, child = c -> isObject c = false ->
              follow c rest = Some target ->
              step autoHelp st key
              = {| context := Live c; contextDepth := S (contextDepth st);
                   contextFinal := true;
                   r_positionalArgs := r_positionalArgs st;
                   r_flags := r_flags st |} ->
              fold_left (step autoHelp) rest (step autoHelp st key)
              = {| context := Live target;
                   contextDepth := contextDepth st + length (key :: rest);
                   contextFinal := negb (isObject target);
                   r_positionalArgs := r_positionalArgs st;
                   r_flags := r_flags st |}).
    { intros c -> Hobj Hfc ->.
      destruct rest as [|k2 rest2].
      - cbn in *. injection Hfc as <-. rewrite Hobj. cbn.
        f_equal. lia.
      - cbn [follow] in Hfc. destruct c; try discriminate Hfc.
        discriminate Hobj. }
    destruct child as [| | b|n|z|s|d|n body|name|m'] eqn:Echild;
      try discriminate Hfollow;
      try (apply (Hterminal _ eq_refl eq_refl Hfollow);
           unfold step; rewrite Hk, Hprop, Hf; reflexivity).
    assert (Estep : step autoHelp st key
                    = {| context := Live (LObject m');
                         contextDepth := S (contextDepth st);
                         contextFinal := false;
                         r_positionalArgs := r_positionalArgs st;
                         r_flags := r_flags st |}).
    { unfold step. rewrite Hk, Hprop, Hf. reflexivity. }
    rewrite Estep.
    erewrite IH;
      [ | reflexivity | reflexivity
        | intros k2 rest2 _; unfold takenAsHelp; cbn;
          now rewrite andb_false_r
        | exact Hfollow ].
    cbn [contextDepth r_positionalArgs r_flags length]. f_equal; [lia|].
    destruct rest as [|k2 rest2]; [|reflexivity].
    cbn in Hfollow. injection Hfollow as <-. reflexivity.
Qed.

(** X6: a path of member names that leads through groups of the live
    tree to a value is resolved to that value: the depth is the length
    of the path, the context is terminal exactly when the value is not
    a group, and nothing is recorded as positional or flag. *)
Theorem resolve_follows_path (autoHelp : bool) (program target : live)
    (path : list string) :
  follow program path = Some target ->
  (forall key rest, path = key :: rest ->
     autoHelp && String.eqb (toLowerCase key) "help" = false) ->
  resolve autoHelp program path
  = {| context := Live target;
       contextDepth := length path;
       contextFinal := match path with
                       | [] => false
                       | _ => negb (isObject target)
                       end;
       r_positionalArgs := [];
       r_flags := ∅ |}.
Proof.
  intros Hfollow Hhelp. unfold resolve.
  rewrite (fold_follow autoHelp path (initial program) program target);
    try reflexivity; try exact Hfollow.
  intros key rest E. unfold takenAsHelp. cbn.
  specialize (Hhelp key rest E).
  destruct autoHelp; [cbn in *; exact Hhelp|reflexivity].
Qed.

Lemma resolve_follows_path_witness :
  follow (program Demo.cli) ["foo"; "bar"] = Some Demo.bar /\
  (forall key rest, ["foo"; "bar"] = key :: rest ->
     true && String.eqb (toLowerCase key) "help" = false) /\
  context (resolve true (program Demo.cli) ["foo"; "bar"]) = Live Demo.bar /\
  contextDepth (resolve true (program Demo.cli) ["foo"; "bar"]) = 2 /\
  contextFinal (resolve true (program Demo.cli) ["foo"; "bar"]) = true.
Proof.
  assert (H1 : follow (program Demo.cli) ["foo"; "bar"] = Some Demo.bar)
    by (vm_compute; reflexivity).
  assert (H2 : forall key rest, ["foo"; "bar"] = key :: rest ->
                 true && String.eqb (toLowerCase key) "help" = false)
    by (intros key rest [= <- _]; reflexivity).
  split; [exact H1|]. split; [exact H2|].
  rewrite (resolve_follows_path true (program Demo.cli) Demo.bar
             ["foo"; "bar"] H1 H2).
  repeat split.
Defined.

End ResolverMore.

(** ** More on type names and coercion *)

Module CoercionMore.

Import JsString JsObject Util ValueParser Notions StringFacts TypeNameFacts CoercionFacts.

#[local] Arguments String.append !_ _ / : simpl nomatch.

Lemma shorthand_not_inherited (element : string) :
  includes OBJECT_PROTOTYPE_KEYS (element +:+ "[]") = false.
Proof.
  destruct (includes OBJECT_PROTOTYPE_KEYS (element +:+ "[]")) eqn:E;
    [|reflexivity].
  apply inherited_is_plain in E as [E _].
  now rewrite endsWith_append in E.
Qed.

Lemma generic_not_inherited (s : string) :
  includes OBJECT_PROTOTYPE_KEYS (s +:+ ">") = false.
Proof.
  destruct (includes OBJECT_PROTOTYPE_KEYS (s +:+ ">")) eqn:E;
    [|reflexivity].
  apply inherited_is_plain in E as [_ E].
  now rewrite endsWith_append in E.
Qed.

(** X7: a type name written with the array shorthand, when it is not
    itself registered, is coerced by splitting the text on the array
    separator and applying the coercer registered for the element type
    to every piece, in order; the first piece that fails fails the
    coercion. *)
Theorem array_shorthand_coerces_pieces (this : ParserRegistry)
    (element text : string) (reader : Parser) :
  parsers this !! (element +:+ "[]") = None ->
  parsers this !! element = Some reader ->
  parse this (element +:+ "[]") text
  = bind (mapM reader (split text (arraySeparator this)))
         (fun items => Return (VArray items)).
Proof.
  intros Hnone Hreader. unfold parse, Parser in *. rewrite Hnone.
  rewrite shorthand_not_inherited.
  rewrite parseTypeName_array_shorthand. cbn [bind typeName typeParameters map].
  change (includes ARRAY_BASE_TYPE_NAMES "Array") with true. cbn iota.
  unfold parseArray, keyText. cbn [lookup list_lookup default from_option id].
  now rewrite (readerOf_own _ _ _ _ Hreader).
Qed.

Lemma array_shorthand_coerces_pieces_witness :
  parsers (newParserRegistry defaultOptions) !! ("number" +:+ "[]") = None /\
  parsers (newParserRegistry defaultOptions) !! "number" = Some Number_ /\
  coerce "number[]" "1,2,3"
  = Return (VArray [VNumber (NumberOf "1"); VNumber (NumberOf "2");
                    VNumber (NumberOf "3")]).
Proof.
  assert (H1 : parsers (newParserRegistry defaultOptions) !! ("number" +:+ "[]")
               = None) by (vm_compute; reflexivity).
  assert (H2 : parsers (newParserRegistry defaultOptions) !! "number"
               = Some Number_) by (vm_compute; reflexivity).
  split; [exact H1|]. split; [exact H2|].
  unfold coerce. change "number[]" with ("number" +:+ "[]").
  rewrite (array_shorthand_coerces_pieces _ "number" "1,2,3" Number_ H1 H2).
  reflexivity.
Defined.

(** X8: the array shorthand over an element type that has no coercer,
    and whose name is none of those every object inherits, fails with
    the error that names the element type, whatever the text. *)
Theorem array_shorthand_unknown_element (this : ParserRegistry)
    (element text : string) :
  parsers this !! (element +:+ "[]") = None ->
  parsers this !! element = None ->
  includes OBJECT_PROTOTYPE_KEYS element = false ->
  parse this (element +:+ "[]") text
  = Throw ("No parser for type: " +:+ element).
Proof.
  intros Hnone Hreader Hown. unfold parse, Parser in *. rewrite Hnone.
  rewrite shorthand_not_inherited.
  rewrite parseTypeName_array_shorthand. cbn [bind typeName typeParameters map].
  change (includes ARRAY_BASE_TYPE_NAMES "Array") with true. cbn iota.
  unfold parseArray, keyText. cbn [lookup list_lookup default from_option id].
  now rewrite (readerOf_none _ _ _ Hreader Hown).
Qed.

Lemma array_shorthand_unknown_element_witness :
  parsers (newParserRegistry defaultOptions) !! ("Goober" +:+ "[]") = None /\
  parsers (newParserRegistry defaultOptions) !! "Goober" = None /\
  includes OBJECT_PROTOTYPE_KEYS "Goober" = false /\
  coerce "Goober[]" "" = Throw "No parser for type: Goober".
Proof.
  assert (H1 : parsers (newParserRegistry defaultOptions) !! ("Goober" +:+ "[]")
               = None) by (vm_compute; reflexivity).
  assert (H2 : parsers (newParserRegistry defaultOptions) !! "Goober" = None)
    by (vm_compute; reflexivity).
  assert (H3 : includes OBJECT_PROTOTYPE_KEYS "Goober" = false) by reflexivity.
  split; [exact H1|]. split; [exact H2|]. split; [exact H3|].
  exact (array_shorthand_unknown_element _ "Goober" "" H1 H2 H3).
Defined.

Lemma array_base_is_identifier (base : string) :
  In base ARRAY_BASE_TYPE_NAMES -> identifierFrom 0 base = true.
Proof.
  cbn. intros [<-|[<-|[<-|[<-|[]]]]]; reflexivity.
Qed.

(** X9: the generic form over any of the four array-like base names,
    with an identifier as element type, is coerced as the shorthand
    is: the pieces of the text go through the element type's coercer. *)
Theorem array_generic_coerces_pieces (this : ParserRegistry)
    (base element text : string) (reader : Parser) :
  In base ARRAY_BASE_TYPE_NAMES ->
  identifierFrom 0 element = true ->
  parsers this !! (base +:+ "<" +:+ element +:+ ">") = None ->
  parsers this !! element = Some reader ->
  parse this (base +:+ "<" +:+ element +:+ ">") text
  = bind (mapM reader (split text (arraySeparator this)))
         (fun items => Return (VArray items)).
Proof.
  intros Hbase Hid Hnone Hreader. unfold parse, Parser in *. rewrite Hnone.
  assert (Hown : includes OBJECT_PROTOTYPE_KEYS
                   (base +:+ "<" +:+ element +:+ ">") = false).
  { rewrite <- !append_assoc. apply generic_not_inherited. }
  rewrite Hown.
  pose proof (parseTypeName_chainOf base [element]) as Hparse.
  rewrite specText_chain in Hparse. cbn [chainOf specText] in Hparse.
  rewrite Hparse.
  2:{ repeat constructor; [now apply array_base_is_identifier|exact Hid]. }
  cbn [bind typeName typeParameters map].
  apply includes_In in Hbase. rewrite Hbase.
  unfold parseArray, keyText. cbn [lookup list_lookup default from_option id].
  now rewrite (readerOf_own _ _ _ _ Hreader).
Qed.

Lemma array_generic_coerces_pieces_witness :
  In "ReadonlySet" ARRAY_BASE_TYPE_NAMES /\
  identifierFrom 0 "string" = true /\
  parsers (newParserRegistry defaultOptions)
    !! ("ReadonlySet" +:+ "<" +:+ "string" +:+ ">") = None /\
  parsers (newParserRegistry defaultOptions) !! "string" = Some String_ /\
  coerce "ReadonlySet<string>" "a,,b"
  = Return (VArray [VString "a"; VString ""; VString "b"]).
Proof.
  assert (H0 : In "ReadonlySet" ARRAY_BASE_TYPE_NAMES) by (cbn; auto).
  assert (H1 : identifierFrom 0 "string" = true) by reflexivity.
  assert (H2 : parsers (newParserRegistry defaultOptions)
                 !! ("ReadonlySet" +:+ "<" +:+ "string" +:+ ">") = None)
    by (vm_compute; reflexivity).
  assert (H3 : parsers (newParserRegistry defaultOptions) !! "string"
               = Some String_) by (vm_compute; reflexivity).
  repeat (split; [assumption|]).
  unfold coerce.
  change "ReadonlySet<string>" with ("ReadonlySet" +:+ "<" +:+ "string" +:+ ">").
  rewrite (array_generic_coerces_pieces _ _ _ "a,,b" _ H0 H1 H2 H3).
  reflexivity.
Defined.

(** X10: an identifier that is neither registered, nor one of the
    names every object inherits, nor one of the known array-like or
    record-like base names has no coercion: [parse] fails with the
    error that names it. *)
Theorem unknown_type_name_fails (this : ParserRegistry) (name text : string) :
  identifierFrom 0 name = true ->
  parsers this !! name = None ->
  includes OBJECT_PROTOTYPE_KEYS name = false ->
  includes ARRAY_BASE_TYPE_NAMES name = false ->
  includes RECORD_BASE_TYPE_NAMES name = false ->
  parse this name text = Throw ("No parser for type: " +:+ name).
Proof.
  intros Hid Hnone Hown Harray Hrecord. unfold parse, Parser in *.
  rewrite Hnone, Hown.
  rewrite parseTypeName_identifier by exact Hid.
  cbn [bind typeName]. now rewrite Harray, Hrecord.
Qed.

Lemma unknown_type_name_fails_witness :
  identifierFrom 0 "Goober" = true /\
  parsers (newParserRegistry defaultOptions) !! "Goober" = None /\
  includes OBJECT_PROTOTYPE_KEYS "Goober" = false /\
  includes ARRAY_BASE_TYPE_NAMES "Goober" = false /\
  includes RECORD_BASE_TYPE_NAMES "Goober" = false /\
  coerce "Goober" "x" = Throw "No parser for type: Goober".
Proof.
  assert (H1 : identifierFrom 0 "Goober" = true) by reflexivity.
  assert (H2 : parsers (newParserRegistry defaultOptions) !! "Goober" = None)
    by (vm_compute; reflexivity).
  assert (H0 : includes OBJECT_PROTOTYPE_KEYS "Goober" = false) by reflexivity.
  assert (H3 : includes ARRAY_BASE_TYPE_NAMES "Goober" = false) by reflexivity.
  assert (H4 : includes RECORD_BASE_TYPE_NAMES "Goober" = false) by reflexivity.
  do 5 (split; [assumption|]).
  exact (unknown_type_name_fails _ "Goober" "x" H1 H2 H0 H3 H4).
Defined.

(** X11: a coercer supplied to the constructor is the one [parse]
    applies for its name, also when a built-in coercer has that name;
    a built-in coercer is applied when none is supplied for its name. *)
Theorem supplied_coercer_overrides (options : ParserRegistryOptions)
    (name text : string) (supplied : Parser) :
  (opt_parsers options !! name = Some supplied ->
   parse (newParserRegistry options) name text = supplied text) /\
  (forall builtin : Parser,
     opt_parsers options !! name = None ->
     builtinParsers !! name = Some builtin ->
     parse (newParserRegistry options) name text = builtin text).
Proof.
  split.
  - intros H. unfold parse, newParserRegistry, Parser in *. cbn [parsers].
    now rewrite (lookup_union_Some_l _ _ _ _ H).
  - intros builtin Hnone Hb. unfold parse, newParserRegistry, Parser in *.
    cbn [parsers]. rewrite lookup_union_r by exact Hnone. now rewrite Hb.
Qed.

Lemma supplied_coercer_overrides_witness :
  opt_parsers {| opt_parsers := <["boolean" := identity]> ∅;
                 opt_arraySeparator := None;
                 opt_recordKeyValueSeparator := None;
                 opt_recordEntrySeparator := None |} !! "boolean"
  = Some identity /\
  parse (newParserRegistry
           {| opt_parsers := <["boolean" := identity]> ∅;
              opt_arraySeparator := None;
              opt_recordKeyValueSeparator := None;
              opt_recordEntrySeparator := None |}) "boolean" "no"
  = Return (VString "no").
Proof.
  assert (H : opt_parsers {| opt_parsers := <["boolean" := identity]> ∅;
                             opt_arraySeparator := None;
                             opt_recordKeyValueSeparator := None;
                             opt_recordEntrySeparator := None |} !! "boolean"
              = Some identity) by (vm_compute; reflexivity).
  split; [exact H|].
  exact (proj1 (supplied_coercer_overrides _ "boolean" "no" identity) H).
Defined.

(** A name the table inherits is an identifier, and none is the name
    of a record-like base. *)
Lemma inherited_is_no_record (name : string) (t : GenericTypeName) :
  includes OBJECT_PROTOTYPE_KEYS name = true ->
  parseTypeName name = Return t ->
  includes RECORD_BASE_TYPE_NAMES (typeName t) = false.
Proof.
  intros H. apply includes_In in H. unfold OBJECT_PROTOTYPE_KEYS in H.
  cbn [In] in H.
  repeat (destruct H as [<-|H];
          [vm_compute; intros [= <-]; reflexivity|]).
  destruct H.
Qed.

(** X12: in the record branch of [parse] the name of a second type
    parameter is never there: whatever the type name, the values of
    the entries go through the coercer registered under [undefined],
    not through the one of a declared value type. *)
Theorem record_value_type_is_unused (this : ParserRegistry)
    (name text : string) (t : GenericTypeName) :
  parsers this !! name = None ->
  parseTypeName name = Return t ->
  includes ARRAY_BASE_TYPE_NAMES (typeName t) = false ->
  includes RECORD_BASE_TYPE_NAMES (typeName t) = true ->
  parse this name text
  = parseRecord this (map typeName (typeParameters t) !! 0%nat) None text.
Proof.
  intros Hnone Hparse Harray Hrecord.
  pose proof (parseTypeName_at_most_one_parameter _ _ Hparse) as Hlen.
  assert (Hown : includes OBJECT_PROTOTYPE_KEYS name = false).
  { destruct (includes OBJECT_PROTOTYPE_KEYS name) eqn:E; [|reflexivity].
    rewrite (inherited_is_no_record name t E Hparse) in Hrecord.
    discriminate Hrecord. }
  unfold parse, Parser in *. rewrite Hnone, Hown, Hparse. cbn [bind].
  rewrite Harray, Hrecord.
  destruct (typeParameters t) as [|p [|q ps]]; cbn in *; try reflexivity. lia.
Qed.

Lemma record_value_type_is_unused_witness :
  parsers (newParserRegistry defaultOptions) !! "Map<number,bigint>" = None /\
  parseTypeName "Map<number,bigint>"
  = Return (mkGenericTypeName "Map"
              [mkGenericTypeName "number" [mkGenericTypeName "bigint" []]]) /\
  includes ARRAY_BASE_TYPE_NAMES "Map" = false /\
  includes RECORD_BASE_TYPE_NAMES "Map" = true /\
  coerce "Map<number,bigint>" "1=x"
  = parseRecord (newParserRegistry defaultOptions) (Some "number") None "1=x" /\
  coerce "Map<number,bigint>" "1=x"
  = Return (VObject [(VNumber (NumberOf "1"), VString "x")]).
Proof.
  assert (H1 : parsers (newParserRegistry defaultOptions)
                 !! "Map<number,bigint>" = None) by (vm_compute; reflexivity).
  assert (H2 : parseTypeName "Map<number,bigint>"
               = Return (mkGenericTypeName "Map"
                   [mkGenericTypeName "number" [mkGenericTypeName "bigint" []]]))
    by (vm_compute; reflexivity).
  assert (H3 : includes ARRAY_BASE_TYPE_NAMES "Map" = false) by reflexivity.
  assert (H4 : includes RECORD_BASE_TYPE_NAMES "Map" = true) by reflexivity.
  repeat (split; [assumption|]).
  pose proof (record_value_type_is_unused _ "Map<number,bigint>" "1=x" _
                H1 H2 H3 H4) as E.
  split; [exact E|]. unfold coerce. rewrite E. vm_compute. reflexivity.
Defined.

Lemma readLoop_throw_shape (fuel : nat) :
  forall reader nameOver typeOver buffer params message,
    readLoop fuel reader nameOver typeOver buffer params
    = Some (Throw message) ->
    exists buffer' ch,
      message = "Failed to read type name '" +:+ buffer' +:+ singleton ch +:+ "'"
      /\ Ascii.eqb ch " " = false /\ Ascii.eqb ch "<" = false
      /\ Ascii.eqb ch "," = false /\ Ascii.eqb ch ">" = false.
Proof.
  induction fuel as [|fuel IH];
    intros reader nameOver typeOver buffer params message H; [discriminate|].
  cbn [readLoop] in H.
  destruct (eof reader); [discriminate|].
  destruct (read reader) as [[ch|] reader']; [|discriminate].
  destruct (Ascii.eqb ch " ") eqn:Espace; [eapply IH; eassumption|].
  destruct (negb nameOver && negb typeOver
            && isIdentifierChar ch (String.length buffer));
    [eapply IH; eassumption|].
  destruct (Ascii.eqb ch "<" || Ascii.eqb ch ",") eqn:Eopen.
  - destruct (readLoop fuel reader' false false "" []) as [[[p r1]|m]|] eqn:Hin;
      try discriminate.
    + eapply IH; eassumption.
    + injection H as <-. eapply IH; eassumption.
  - apply orb_false_iff in Eopen as [Elt Ecomma].
    destruct (Ascii.eqb ch ">") eqn:Egt; [eapply IH; eassumption|].
    injection H as <-. exists buffer, ch. auto.
Qed.

(** X13: [parseTypeName] fails in one way only: on a character that is
    not a space, [<], [,] or [>], with the error that quotes the name
    read so far followed by that character. *)
Theorem parse_failure_names_the_character (text message : string) :
  parseTypeName text = Throw message ->
  exists buffer ch,
    message = "Failed to read type name '" +:+ buffer +:+ singleton ch +:+ "'"
    /\ Ascii.eqb ch " " = false /\ Ascii.eqb ch "<" = false
    /\ Ascii.eqb ch "," = false /\ Ascii.eqb ch ">" = false.
Proof.
  unfold parseTypeName. destruct (endsWith text "[]"); [discriminate|].
  destruct (parseTypeName_fuel text) as (o & Ho). rewrite Ho.
  destruct o as [[t r]|m]; [discriminate|].
  intros [= <-]. unfold readTypeNameFromReader in Ho.
  eapply readLoop_throw_shape, Ho.
Qed.

Lemma parse_failure_names_the_character_witness :
  parseTypeName "Map<string;number>"
  = Throw "Failed to read type name 'string;'" /\
  exists buffer ch,
    "Failed to read type name 'string;'"
    = "Failed to read type name '" +:+ buffer +:+ singleton ch +:+ "'"
    /\ Ascii.eqb ch " " = false /\ Ascii.eqb ch "<" = false
    /\ Ascii.eqb ch "," = false /\ Ascii.eqb ch ">" = false.
Proof.
  assert (H : parseTypeName "Map<string;number>"
              = Throw "Failed to read type name 'string;'")
    by (vm_compute; reflexivity).
  split; [exact H|].
  exact (parse_failure_names_the_character _ _ H).
Defined.

(** X14: where no entry of the text has the key/value separator, every
    key is coerced and paired with [undefined]; the value coercer is
    not applied, so it cannot fail the coercion. *)
Theorem record_without_separators (this : ParserRegistry)
    (keyTypeName valueTypeName : option string)
    (keyReader valueReader : Parser) (key : string -> value) (text : string) :
  parsers this !! keyText keyTypeName = Some keyReader ->
  parsers this !! keyText valueTypeName = Some valueReader ->
  (forall s, keyReader s = Return (key s)) ->
  Forall (fun entry => indexOf entry (recordKeyValueSeparator this) = (-1)%Z)
         (split text (recordEntrySeparator this)) ->
  parseRecord this keyTypeName valueTypeName text
  = Return (VObject (map (fun entry => (key entry, VUndefined))
                         (split text (recordEntrySeparator this)))).
Proof.
  intros Hk Hv Hkey Hall. unfold parseRecord.
  rewrite (readerOf_own _ _ _ _ Hk), (readerOf_own _ _ _ _ Hv).
  induction Hall as [|entry entries Hentry Hall IH]; [reflexivity|].
  cbn [map mapM] in *. unfold splitOnceOrZero at 1. rewrite Hentry.
  cbn [Z.ltb Z.compare]. rewrite Hkey. cbn [bind].
  destruct (mapM _ _) as [typed|m]; [|discriminate IH].
  cbn [bind] in *. now injection IH as ->.
Qed.

Lemma record_without_separators_witness :
  parsers (newParserRegistry defaultOptions) !! keyText (Some "string")
  = Some String_ /\
  parsers (newParserRegistry defaultOptions) !! keyText (Some "bigint")
  = Some BigInt_ /\
  (forall s, String_ s = Return (VString s)) /\
  Forall (fun entry =>
            indexOf entry (recordKeyValueSeparator
                             (newParserRegistry defaultOptions)) = (-1)%Z)
         (split "a,b" (recordEntrySeparator (newParserRegistry defaultOptions))) /\
  parseRecord (newParserRegistry defaultOptions) (Some "string") (Some "bigint")
    "a,b"
  = Return (VObject [(VString "a", VUndefined); (VString "b", VUndefined)]).
Proof.
  assert (H1 : parsers (newParserRegistry defaultOptions) !! keyText (Some "string")
               = Some String_) by reflexivity.
  assert (H2 : parsers (newParserRegistry defaultOptions) !! keyText (Some "bigint")
               = Some BigInt_) by reflexivity.
  assert (H3 : forall s, String_ s = Return (VString s)) by reflexivity.
  assert (H4 : Forall (fun entry =>
                 indexOf entry (recordKeyValueSeparator
                                  (newParserRegistry defaultOptions)) = (-1)%Z)
                 (split "a,b" (recordEntrySeparator
                                 (newParserRegistry defaultOptions))))
    by (change (split "a,b" (recordEntrySeparator
                               (newParserRegistry defaultOptions)))
          with ["a"; "b"];
        repeat (apply Forall_cons_2; [vm_compute; reflexivity|]);
        apply Forall_nil_2).
  do 4 (split; [assumption|]).
  exact (record_without_separators _ _ _ _ _ VString "a,b" H1 H2 H3 H4).
Defined.

(** X15: a generic with one type parameter at every level, of any
    depth, made of identifiers, is parsed into the descriptor of its
    text: the parser inverts the printing of such type names. *)
Theorem generic_chain_round_trip (base : string) (names : list string) :
  Forall (fun s => identifierFrom 0 s = true) (base :: names) ->
  parseTypeName (specText (chainOf base names)) = Return (chainOf base names).
Proof. apply parseTypeName_chainOf. Qed.

Lemma generic_chain_round_trip_witness :
  Forall (fun s => identifierFrom 0 s = true) ["Set"; "Array"; "string"] /\
  specText (chainOf "Set" ["Array"; "string"]) = "Set<Array<string>>" /\
  parseTypeName (specText (chainOf "Set" ["Array"; "string"]))
  = Return (chainOf "Set" ["Array"; "string"]).
Proof.
  assert (H : Forall (fun s => identifierFrom 0 s = true)
                     ["Set"; "Array"; "string"])
    by (repeat constructor).
  split; [exact H|]. split; [reflexivity|].
  exact (generic_chain_round_trip "Set" ["Array"; "string"] H).
Defined.

(** X16: whatever [parseTypeName] returns has at most one type parameter
    at every level: a comma opens a nested parameter like an angle
    bracket does, so no descriptor has two parameters side by side. *)
Theorem parsed_type_is_a_chain (text : string) (t : GenericTypeName) :
  parseTypeName text = Return t ->
  isChain t = true /\ length (typeParameters t) <= 1.
Proof.
  intros H. split.
  - exact (parseTypeName_chain text t H).
  - exact (parseTypeName_at_most_one_parameter text t H).
Qed.

Lemma parsed_type_is_a_chain_witness :
  parseTypeName "Map<A<B>,C>" = Return (chainOf "Map" ["A"; "B"; "C"]) /\
  isChain (chainOf "Map" ["A"; "B"; "C"]) = true /\
  length (typeParameters (chainOf "Map" ["A"; "B"; "C"])) <= 1.
Proof.
  assert (H : parseTypeName "Map<A<B>,C>"
              = Return (chainOf "Map" ["A"; "B"; "C"]))
    by (vm_compute; reflexivity).
  split; [exact H|].
  exact (parsed_type_is_a_chain _ _ H).
Defined.

End CoercionMore.

(** ** util.ts: splitting and prefixes *)

Module UtilMore.

Import JsString Util Notions StringFacts.

#[local] Arguments String.append !_ _ / : simpl nomatch.

Lemma prefix_split (p s : string) :
  String.prefix p s = true -> s = p +:+ dropChars (String.length p) s.
Proof.
  revert s. induction p as [|c p IH]; intros s H; [reflexivity|].
  destruct s as [|d s]; [discriminate H|].
  rewrite prefix_cons in H. apply andb_true_iff in H as [Hc Hp].
  apply Ascii.eqb_eq in Hc. subst d. cbn. f_equal. now apply IH.
Qed.

(** What [indexOf_from] finds is the first position where the
    separator starts. *)
Lemma indexOf_from_Some (sep s : string) :
  forall i j,
    indexOf_from sep s i = Some j ->
    i <= j /\ j - i <= String.length s /\
    String.prefix sep (dropChars (j - i) s) = true /\
    forall k, k < j - i -> String.prefix sep (dropChars k s) = false.
Proof.
  induction s as [|c s IH]; intros i j H.
  - cbn [indexOf_from] in H.
    destruct (String.prefix sep "") eqn:E; [|discriminate H].
    injection H as <-. rewrite Nat.sub_diag. repeat split; auto; lia.
  - cbn [indexOf_from] in H.
    destruct (String.prefix sep (String c s)) eqn:E.
    + injection H as <-. rewrite Nat.sub_diag. repeat split; auto; lia.
    + apply IH in H as (Hle & Hlen & Hat & Hfirst).
      replace (j - i) with (S (j - S i)) by lia.
      repeat split; [lia | cbn [String.length]; lia | exact Hat |].
      intros [|k] Hk; [exact E|]. cbn [dropChars]. apply Hfirst. lia.
Qed.

Lemma indexOf_from_None (sep s : string) :
  forall i, indexOf_from sep s i = None ->
            forall k, k <= String.length s ->
                      String.prefix sep (dropChars k s) = false.
Proof.
  induction s as [|c s IH]; intros i H k Hk.
  - cbn [indexOf_from] in H. destruct (String.prefix sep "") eqn:E;
      [discriminate H|]. now destruct k.
  - cbn [indexOf_from] in H.
    destruct (String.prefix sep (String c s)) eqn:E; [discriminate H|].
    destruct k as [|k]; [exact E|]. cbn [dropChars].
    apply (IH _ H). cbn [String.length] in Hk. lia.
Qed.

Lemma takeChars_dropChars (n : nat) (s : string) :
  takeChars n s +:+ dropChars n s = s.
Proof.
  revert s. induction n as [|n IH]; intros [|c s]; cbn; try reflexivity.
  now rewrite IH.
Qed.

Lemma length_takeChars (n : nat) (s : string) :
  n <= String.length s -> String.length (takeChars n s) = n.
Proof.
  revert s. induction n as [|n IH]; intros [|c s] H; cbn in *;
    try reflexivity; try lia.
  rewrite IH; lia.
Qed.

(** The shape of a split. *)
Lemma splitOnceOrZero_shape (text separator l r : string) :
  splitOnceOrZero text separator false = (l, Some r) ->
  String.length l <= String.length text /\
  l = takeChars (String.length l) text /\
  String.prefix separator (dropChars (String.length l) text) = true /\
  (forall k, k < String.length l ->
             String.prefix separator (dropChars k text) = false) /\
  r = dropChars (String.length l + 1) text.
Proof.
  unfold splitOnceOrZero, indexOf.
  destruct (indexOf_from separator text 0) as [j|] eqn:E;
    [|cbn; intros [=]].
  apply indexOf_from_Some in E as (_ & Hlen & Hat & Hfirst).
  rewrite Nat.sub_0_r in *.
  destruct (Z.ltb_spec (Z.of_nat j) 0) as [Hneg|_]; [lia|].
  intros [= <- <-].
  rewrite substring_take by exact Hlen.
  rewrite (length_takeChars j text Hlen).
  replace (Z.of_nat j + 1)%Z with (Z.of_nat (j + 1)) by lia.
  rewrite substringFrom_drop. auto.
Qed.

(** With the [trim] option the parts of the split are trimmed;
    whether the text is split does not depend on it. *)
Lemma splitOnceOrZero_trim (text separator : string) (trimOpt : bool) :
  splitOnceOrZero text separator trimOpt
  = match splitOnceOrZero text separator false with
    | (before, Some after) =>
        if trimOpt then (trim before, Some (trim after))
        else (before, Some after)
    | (whole, None) => (whole, None)
    end.
Proof.
  unfold splitOnceOrZero.
  destruct (indexOf text separator <? 0)%Z; [reflexivity|].
  now destruct trimOpt.
Qed.

(** X17: when [splitOnceOrZero] splits, it cuts the text before the
    first place where the separator starts and ONE character after
    that place: of a separator that is longer than one character, all
    but the first character stay at the head of what follows.  The two
    parts returned are these two pieces, trimmed when the [trim] option
    is set. *)
Theorem splitOnceOrZero_skips_one_character (text separator l r : string)
    (trimOpt : bool) :
  splitOnceOrZero text separator trimOpt = (l, Some r) ->
  exists before after,
    String.length before <= String.length text /\
    before = takeChars (String.length before) text /\
    String.prefix separator (dropChars (String.length before) text) = true /\
    (forall k, k < String.length before ->
               String.prefix separator (dropChars k text) = false) /\
    after = dropChars (String.length before + 1) text /\
    l = (if trimOpt then trim before else before) /\
    r = (if trimOpt then trim after else after).
Proof.
  rewrite splitOnceOrZero_trim.
  destruct (splitOnceOrZero text separator false) as [before [after|]] eqn:E;
    [|intros [=]].
  apply splitOnceOrZero_shape in E as (H1 & H2 & H3 & H4 & H5).
  intros H. exists before, after.
  destruct trimOpt; injection H as <- <-; auto 10.
Qed.

Lemma splitOnceOrZero_skips_one_character_witness :
  splitOnceOrZero "a => b" "=>" true = ("a", Some "> b") /\
  exists before after,
    String.length before <= String.length "a => b" /\
    before = takeChars (String.length before) "a => b" /\
    String.prefix "=>" (dropChars (String.length before) "a => b") = true /\
    (forall k, k < String.length before ->
               String.prefix "=>" (dropChars k "a => b") = false) /\
    after = dropChars (String.length before + 1) "a => b" /\
    "a" = (if true then trim before else before) /\
    "> b" = (if true then trim after else after).
Proof.
  assert (H : splitOnceOrZero "a => b" "=>" true = ("a", Some "> b"))
    by reflexivity.
  split; [exact H|].
  exact (splitOnceOrZero_skips_one_character _ _ _ _ _ H).
Defined.

Lemma absent_prefix (c : ascii) (s : string) :
  absent c s = true ->
  forall k, String.prefix (singleton c) (dropChars k s) = false.
Proof.
  induction s as [|d s IH]; intros H k.
  - now destruct k.
  - cbn [absent] in H. apply andb_true_iff in H as [Hd Hs].
    destruct k as [|k]; cbn [dropChars]; [|now apply IH].
    rewrite prefix_char. now apply negb_true_iff.
Qed.

Lemma prefix_absent (c : ascii) (s : string) :
  (forall k, k < String.length s ->
             String.prefix (singleton c) (dropChars k s) = false) ->
  absent c s = true.
Proof.
  induction s as [|d s IH]; intros H; [reflexivity|].
  cbn [absent]. apply andb_true_iff. split.
  - specialize (H 0 ltac:(cbn; lia)). cbn [dropChars] in H.
    rewrite prefix_char in H. now rewrite H.
  - apply IH. intros k Hk. apply (H (S k)). cbn. lia.
Qed.

Lemma absent_takeChars (c : ascii) (n : nat) (s : string) :
  n <= String.length s ->
  (forall k, k < n -> String.prefix (singleton c) (dropChars k s) = false) ->
  absent c (takeChars n s) = true.
Proof.
  revert s. induction n as [|n IH]; intros [|d s] Hn H; cbn in *;
    try reflexivity; try lia.
  apply andb_true_iff. split.
  - specialize (H 0 ltac:(lia)). cbn [dropChars] in H.
    rewrite prefix_char in H. now rewrite H.
  - apply IH; [lia|]. intros k Hk. apply (H (S k)). lia.
Qed.

(** X18: [splitOnceOrFail] on a one-character separator, in full: it
    cuts the text at the FIRST separator, into the text before it and
    all the text after it, further separators included, and returns
    the two pieces, trimmed when the [trim] option is set; it fails
    only where the text has no separator at all.  Its error speaks of
    exactly one separator, but a text with several is split, not
    refused. *)
Theorem splitOnceOrFail_splits_at_first (c : ascii) (text : string)
    (trimOpt : bool) :
  match splitOnceOrFail text (singleton c) trimOpt with
  | Return (l, r) =>
      exists before after,
        text = before +:+ singleton c +:+ after /\
        absent c before = true /\
        l = (if trimOpt then trim before else before) /\
        r = (if trimOpt then trim after else after)
  | Throw message =>
      absent c text = true /\
      message = "Expected exactly one separator in '" +:+ text +:+ "'"
  end.
Proof.
  unfold splitOnceOrFail. rewrite splitOnceOrZero_trim.
  destruct (splitOnceOrZero text (singleton c) false) as [l [r|]] eqn:E.
  - apply splitOnceOrZero_shape in E
      as (Hlen & Hl & Hat & Hfirst & Hr).
    assert (Htext : text = l +:+ singleton c +:+ r).
    { assert (Hd : forall n s, dropChars (n + 1) s = dropChars 1 (dropChars n s)).
      { clear. induction n as [|n IH]; intros [|d s]; cbn; auto. }
      transitivity (takeChars (String.length l) text
                    +:+ dropChars (String.length l) text);
        [symmetry; apply takeChars_dropChars|].
      rewrite Hr, Hd. rewrite <- Hl. f_equal.
      exact (prefix_split _ _ Hat). }
    assert (Habsent : absent c l = true).
    { rewrite Hl. now apply absent_takeChars. }
    destruct trimOpt; exists l, r; auto.
  - split; [|reflexivity].
    unfold splitOnceOrZero, indexOf in E.
    destruct (indexOf_from (singleton c) text 0) as [j|] eqn:Ei.
    + destruct (Z.ltb_spec (Z.of_nat j) 0); [lia|discriminate E].
    + apply prefix_absent. intros k Hk.
      apply (indexOf_from_None _ _ _ Ei). lia.
Qed.

(** X19: [removePrefix] gives back what follows the prefix: putting the
    prefix in front of the result restores the text. *)
Theorem removePrefix_restores (text prefix : string) :
  startsWith text prefix = true ->
  prefix +:+ removePrefix text prefix = text.
Proof.
  intros H. unfold removePrefix. rewrite H.
  destruct prefix as [|c p]; [reflexivity|].
  cbn [String.eqb negb andb]. rewrite substringFrom_drop.
  symmetry. now apply prefix_split.
Qed.

Lemma removePrefix_restores_witness :
  startsWith "--port" "--" = true /\
  removePrefix "--port" "--" = "port" /\
  "--" +:+ removePrefix "--port" "--" = "--port".
Proof.
  assert (H : startsWith "--port" "--" = true) by reflexivity.
  split; [exact H|]. split; [reflexivity|].
  exact (removePrefix_restores _ _ H).
Defined.

End UtilMore.

(** ** util.ts: numerals and wrapping *)

Module UtilLoopFacts.

Import JsString UtilLoops WrapNotions NumeralNotions StringFacts.

#[local] Arguments String.append !_ _ / : simpl nomatch.

Lemma romanLoop_buffer (fuel : nat) :
  forall remainder buffer,
    romanLoop fuel remainder buffer
    = option_map (String.append buffer) (romanLoop fuel remainder "").
Proof.
  induction fuel as [|fuel IH]; intros remainder buffer; cbn [romanLoop].
  - destruct (remainder >? 0)%Z; cbn; [reflexivity|].
    now rewrite append_empty_r.
  - destruct (remainder >? 0)%Z; [|cbn; now rewrite append_empty_r].
    repeat match goal with
    | |- context [if ?c then _ else _] => destruct c
    end;
      rewrite IH; rewrite (IH _ ("" +:+ _));
      destruct (romanLoop fuel _ ""); cbn [option_map]; try reflexivity;
      now rewrite append_assoc.
Qed.

Lemma romanLoop_enough (fuel : nat) :
  forall remainder buffer,
    Z.to_nat remainder <= fuel ->
    exists s, romanLoop fuel remainder buffer = Some s.
Proof.
  induction fuel as [|fuel IH]; intros remainder buffer H; cbn [romanLoop].
  - destruct (Z.gtb_spec remainder 0); [lia|eauto].
  - destruct (Z.gtb_spec remainder 0); [|eauto].
    repeat match goal with
    | |- context [if ?c then _ else _] => destruct c
    end; apply IH; lia.
Qed.

Lemma romanLoop_more_fuel (fuel : nat) :
  forall remainder buffer s,
    romanLoop fuel remainder buffer = Some s ->
    romanLoop (S fuel) remainder buffer = Some s.
Proof.
  induction fuel as [|fuel IH]; intros remainder buffer s H.
  - cbn [romanLoop] in *. destruct (remainder >? 0)%Z; [discriminate|exact H].
  - remember (S fuel) as fuel1. cbn [romanLoop]. subst fuel1.
    cbn [romanLoop] in H.
    destruct (remainder >? 0)%Z; [|exact H].
    repeat match goal with
    | |- context [if ?c then _ else _] => destruct c
    end; apply IH; exact H.
Qed.

Lemma romanLoop_fuel_le (fuel fuel' : nat) (remainder : Z) (buffer s : string) :
  fuel <= fuel' ->
  romanLoop fuel remainder buffer = Some s ->
  romanLoop fuel' remainder buffer = Some s.
Proof.
  induction 1 as [|fuel' _ IH]; [auto|].
  intros H. apply romanLoop_more_fuel. auto.
Qed.

Lemma symbolValue_le (ch : ascii) : (symbolValue ch <= 100)%Z.
Proof.
  unfold symbolValue.
  repeat match goal with
  | |- context [if ?c then _ else _] => destruct c
  end; lia.
Qed.

Lemma numeralValue_c (s : string) :
  numeralValue (String "c" s) = (100 + numeralValue s)%Z.
Proof.
  destruct s as [|b s]; [reflexivity|].
  cbn [numeralValue]. change (symbolValue "c") with 100%Z.
  pose proof (symbolValue_le b).
  destruct (Z.ltb_spec 100 (symbolValue b)); [lia|]. lia.
Qed.

(** Below one hundred the loop is checked value by value. *)
Lemma small_numerals :
  forallb (fun n =>
             match romanLoop 100 (Z.of_nat n) "" with
             | Some s => (numeralValue s =? Z.of_nat n)%Z
             | None => false
             end)
          (seq 0 100) = true.
Proof. vm_compute. reflexivity. Qed.

Lemma romanLoop_value (n : nat) :
  forall remainder fuel,
    Z.to_nat remainder <= n ->
    Z.to_nat remainder <= fuel ->
    exists s, romanLoop fuel remainder "" = Some s /\
              numeralValue s = Z.max 0 remainder.
Proof.
  induction n as [|n IH]; intros remainder fuel Hn Hfuel.
  - destruct fuel; cbn [romanLoop];
      destruct (Z.gtb_spec remainder 0); try lia;
      exists ""; split; try reflexivity; cbn; lia.
  - destruct (Z.ltb_spec remainder 100) as [Hsmall|Hbig].
    + destruct (romanLoop_enough fuel remainder "" Hfuel) as (s & Hs).
      exists s. split; [exact Hs|].
      destruct (Z.leb_spec remainder 0) as [Hneg|Hpos].
      * destruct fuel; cbn [romanLoop] in Hs;
          destruct (Z.gtb_spec remainder 0); try lia;
          injection Hs as <-; cbn; lia.
      * pose proof small_numerals as Hall.
        rewrite forallb_forall in Hall.
        specialize (Hall (Z.to_nat remainder)).
        rewrite Z2Nat.id in Hall by lia.
        assert (Hin : In (Z.to_nat remainder) (seq 0 100))
          by (apply in_seq; lia).
        specialize (Hall Hin).
        destruct (Nat.le_ge_cases fuel 100) as [Hle|Hge].
        -- rewrite (romanLoop_fuel_le _ _ _ _ _ Hle Hs) in Hall.
           apply Z.eqb_eq in Hall. lia.
        -- destruct (romanLoop 100 remainder "") as [s'|] eqn:E;
             [|discriminate Hall].
           rewrite (romanLoop_fuel_le _ _ _ _ _ Hge E) in Hs.
           injection Hs as <-. apply Z.eqb_eq in Hall. lia.
    + destruct fuel as [|fuel]; [lia|].
      cbn [romanLoop].
      destruct (Z.gtb_spec remainder 0); [|lia].
      destruct (Z.geb_spec remainder 100); [|lia].
      rewrite romanLoop_buffer.
      destruct (IH (remainder - 100)%Z fuel) as (s & Hs & Hv); [lia|lia|].
      rewrite Hs. cbn [option_map String.append].
      eexists. split; [reflexivity|].
      rewrite numeralValue_c, Hv. lia.
Qed.

(** Below one hundred the loop writes the numeral of the digits. *)
Lemma small_digits :
  forallb (fun n =>
             match romanLoop 100 (Z.of_nat n) "" with
             | Some s => String.eqb s (numeralOf (Z.of_nat n))
             | None => false
             end)
          (seq 0 100) = true.
Proof. vm_compute. reflexivity. Qed.

Lemma numeralOf_hundred (remainder : Z) :
  (100 <= remainder)%Z ->
  numeralOf remainder = String "c" (numeralOf (remainder - 100)).
Proof.
  intros H. unfold numeralOf.
  replace remainder with (remainder - 100 + 1 * 100)%Z at 1 2 3 by lia.
  rewrite Z_div_plus_full by lia.
  rewrite Z_mod_plus_full.
  replace ((remainder - 100 + 1 * 100) mod 10)%Z
    with ((remainder - 100) mod 10)%Z.
  - replace (Z.to_nat ((remainder - 100) / 100 + 1))
      with (S (Z.to_nat ((remainder - 100) / 100))).
    + reflexivity.
    + assert (0 <= (remainder - 100) / 100)%Z by (apply Z.div_pos; lia). lia.
  - replace (remainder - 100 + 1 * 100)%Z
      with (remainder - 100 + 10 * 10)%Z by lia.
    now rewrite Z_mod_plus_full.
Qed.

Lemma romanLoop_digits (n : nat) :
  forall remainder fuel,
    (0 <= remainder)%Z ->
    Z.to_nat remainder <= n ->
    Z.to_nat remainder <= fuel ->
    romanLoop fuel remainder "" = Some (numeralOf remainder).
Proof.
  induction n as [|n IH]; intros remainder fuel Hpos Hn Hfuel.
  - assert (remainder = 0%Z) as -> by lia. now destruct fuel.
  - destruct (Z.ltb_spec remainder 100) as [Hsmall|Hbig].
    + destruct (romanLoop_enough fuel remainder "" Hfuel) as (s & Hs).
      rewrite Hs. f_equal.
      pose proof small_digits as Hall.
      rewrite forallb_forall in Hall.
      specialize (Hall (Z.to_nat remainder)).
      rewrite Z2Nat.id in Hall by lia.
      assert (Hin : In (Z.to_nat remainder) (seq 0 100))
        by (apply in_seq; lia).
      specialize (Hall Hin).
      destruct (Nat.le_ge_cases fuel 100) as [Hle|Hge].
      * rewrite (romanLoop_fuel_le _ _ _ _ _ Hle Hs) in Hall.
        now apply String.eqb_eq in Hall.
      * destruct (romanLoop 100 remainder "") as [s'|] eqn:E;
          [|discriminate Hall].
        rewrite (romanLoop_fuel_le _ _ _ _ _ Hge E) in Hs.
        injection Hs as <-. now apply String.eqb_eq in Hall.
    + destruct fuel as [|fuel]; [lia|].
      cbn [romanLoop].
      destruct (Z.gtb_spec remainder 0); [|lia].
      destruct (Z.geb_spec remainder 100); [|lia].
      rewrite romanLoop_buffer.
      rewrite (IH (remainder - 100)%Z fuel) by lia.
      cbn [option_map String.append].
      rewrite (numeralOf_hundred remainder) by lia. reflexivity.
Qed.

(** X20: on an integer in the range of the embedding [romanNumeral]
    returns the numeral of its digits: a [c] for every hundred (so
    [cccc] for 400), then the tens and the units written with [x],
    [l], [v] and [i], a smaller symbol before a larger one where four
    or nine are meant; for a number below one it returns the empty
    string.  The numeral reads back as the number. *)
Theorem romanNumeral_reads_back (value : Z) :
  (value <= ROMAN_RANGE)%Z ->
  romanNumeral value = Some (numeralOf (Z.max 0 value)) /\
  numeralValue (numeralOf (Z.max 0 value)) = Z.max 0 value.
Proof.
  intros _.
  assert (E : romanNumeral value = Some (numeralOf (Z.max 0 value))).
  { unfold romanNumeral. destruct (Z.leb_spec value 0) as [Hneg|Hpos].
    - rewrite Z.max_l by lia.
      replace (Z.to_nat value) with 0 by lia. cbn [romanLoop].
      destruct (Z.gtb_spec value 0); [lia|reflexivity].
    - rewrite Z.max_r by lia.
      apply (romanLoop_digits (Z.to_nat value)); lia. }
  split; [exact E|].
  destruct (romanLoop_value (Z.to_nat value) value (Z.to_nat value))
    as (s & Hs & Hv); [lia|lia|].
  unfold romanNumeral in E. rewrite Hs in E. injection E as <-. exact Hv.
Qed.

Lemma romanNumeral_reads_back_witness :
  (449 <= ROMAN_RANGE)%Z /\
  romanNumeral 449 = Some "ccccxlix" /\
  romanNumeral 449 = Some (numeralOf (Z.max 0 449)) /\
  numeralValue (numeralOf (Z.max 0 449)) = Z.max 0 449.
Proof.
  assert (H : (449 <= ROMAN_RANGE)%Z) by (unfold ROMAN_RANGE; lia).
  split; [exact H|]. split; [vm_compute; reflexivity|].
  exact (romanNumeral_reads_back 449 H).
Defined.

Lemma length_trimEnd (s : string) :
  String.length (trimEnd s) <= String.length s.
Proof.
  induction s as [|c s IH]; [reflexivity|].
  cbn [trimEnd]. destruct (trimEnd s) as [|d rest].
  - destruct (isWhiteSpace c); cbn; lia.
  - cbn [String.length] in *. lia.
Qed.

Lemma length_trimStart (s : string) :
  String.length (trimStart s) <= String.length s.
Proof.
  induction s as [|c s IH]; [reflexivity|].
  cbn [trimStart]. destruct (isWhiteSpace c); cbn [String.length]; lia.
Qed.

Lemma length_takeChars_le (n : nat) (s : string) :
  String.length (takeChars n s) <= n.
Proof.
  revert s. induction n as [|n IH]; intros [|c s]; cbn; try lia.
  specialize (IH s). lia.
Qed.

Lemma length_substring_0 (s : string) (k : Z) :
  (Z.of_nat (String.length (substring s 0 k)) <= Z.max 0 k)%Z.
Proof.
  unfold substring, clamp. cbn [Z.ltb Z.compare Z.to_nat].
  rewrite Nat.min_0_l.
  destruct (Z.ltb_spec k 0).
  - cbn. lia.
  - rewrite Nat.min_0_l, Nat.max_0_l, Nat.sub_0_r. cbn [dropChars].
    pose proof (length_takeChars_le (Nat.min (Z.to_nat k) (String.length s)) s).
    lia.
Qed.

Lemma substringFrom_nonpositive (s : string) (k : Z) :
  (k <= 0)%Z -> substringFrom s k = s.
Proof.
  intros H. destruct (Z.eq_dec k 0%Z) as [->|Hne].
  - exact (substringFrom_drop s 0).
  - unfold substringFrom, substring, clamp.
    destruct (Z.ltb_spec k 0); [|lia].
    destruct (Z.ltb_spec (Z.of_nat (String.length s)) 0); [lia|].
    rewrite Nat2Z.id, Nat.min_id, Nat.min_0_l, Nat.max_0_l, Nat.sub_0_r.
    cbn [dropChars]. apply takeChars_all. lia.
Qed.

Lemma substring_0_nonpositive (s : string) (k : Z) :
  (k <= 0)%Z -> substring s 0 k = "".
Proof.
  intros H. pose proof (length_substring_0 s k) as L.
  destruct (substring s 0 k); [reflexivity|]. cbn in L. lia.
Qed.

(** What the scan finds is a position below the width, or what it
    started with. *)
Lemma scan_found (rest : string) :
  forall i maxWidth lastWrapPos found hard,
    scan rest i maxWidth lastWrapPos = (found, hard) ->
    (found = lastWrapPos /\ hard = false)
    \/ (Z.of_nat i <= found < maxWidth)%Z.
Proof.
  induction rest as [|ch rest IH]; intros i maxWidth lastWrapPos found hard H;
    cbn [scan] in H.
  - injection H as <- <-. now left.
  - destruct (Z.ltb_spec (Z.of_nat i) maxWidth) as [Hlt|Hge];
      [|injection H as <- <-; now left].
    destruct (Ascii.eqb ch newline); [injection H as <- <-; right; lia|].
    destruct (isBreak ch); apply IH in H as [[-> ->]|H]; try (right; lia).
    now left.
Qed.

Lemma concat_snoc (sep x : string) (l : list string) :
  l <> [] ->
  String.concat sep (l ++ [x])%list = String.concat sep l +:+ sep +:+ x.
Proof.
  induction l as [|y l IH]; [congruence|]. intros _.
  destruct l as [|z l]; [reflexivity|].
  change ((y :: z :: l) ++ [x])%list with (y :: ((z :: l) ++ [x]))%list.
  rewrite concat_cons by (cbn; intros [=]).
  rewrite IH by (intros [=]). rewrite (concat_cons sep y) by (intros [=]).
  now rewrite !append_assoc.
Qed.


Lemma wrapped_add (maxWidth : Z) (buffer piece : string) :
  wrapped maxWidth buffer ->
  (Z.of_nat (String.length piece) <= maxWidth + 1)%Z ->
  wrapped maxWidth
    ((if (0 <? String.length buffer)%nat
      then buffer +:+ singleton newline else buffer) +:+ piece).
Proof.
  intros (pieces & -> & Hall) Hpiece.
  destruct (Nat.ltb_spec 0 (String.length (join pieces (singleton newline))))
    as [Hpos|Hzero].
  - exists (pieces ++ [piece])%list. split.
    + unfold join. rewrite concat_snoc; [now rewrite append_assoc|].
      intros ->. cbn in Hpos. lia.
    + apply Forall_app. split; [exact Hall|]. now constructor.
  - exists [piece]. split.
    + destruct (join pieces (singleton newline)); [reflexivity|].
      cbn in Hzero. lia.
    + now constructor.
Qed.

Lemma wrapLoop_returns (maxWidth : Z) (fuel : nat) :
  (0 <= maxWidth)%Z ->
  forall remainder buffer,
    String.length remainder <= fuel ->
    wrapped maxWidth buffer ->
    exists result,
      wrapLoop fuel remainder buffer maxWidth = Some result /\
      wrapped maxWidth result.
Proof.
  intros Hwidth. induction fuel as [|fuel IH]; intros remainder buffer Hfuel Hbuf.
  - destruct remainder; [|cbn in Hfuel; lia]. cbn. eauto.
  - cbn [wrapLoop].
    destruct (Nat.ltb_spec 0 (String.length remainder)) as [Hpos|Hzero];
      [|eauto].
    destruct (Z.leb_spec (Z.of_nat (String.length remainder)) maxWidth)
      as [Hfits|Hlong].
    + eexists. split; [reflexivity|]. apply wrapped_add; [exact Hbuf|lia].
    + destruct (scan remainder 0 maxWidth (-1)) as [found hard] eqn:Escan.
      apply scan_found in Escan.
      set (lastWrapPos := if (found <? 0)%Z then maxWidth else found).
      assert (Hpos' : (0 <= lastWrapPos <= maxWidth)%Z).
      { unfold lastWrapPos. destruct (Z.ltb_spec found 0); lia. }
      apply IH.
      * replace (lastWrapPos + 1)%Z with (Z.of_nat (Z.to_nat (lastWrapPos + 1)))
          by lia.
        rewrite substringFrom_drop.
        assert (String.length (dropChars (Z.to_nat (lastWrapPos + 1)) remainder)
                < String.length remainder)
          by (rewrite dropChars_length; lia).
        destruct hard; [|lia].
        pose proof (length_trimStart
                      (dropChars (Z.to_nat (lastWrapPos + 1)) remainder)).
        lia.
      * apply wrapped_add; [exact Hbuf|].
        pose proof (length_trimEnd (substring remainder 0 (lastWrapPos + 1))).
        pose proof (length_substring_0 remainder (lastWrapPos + 1)).
        lia.
Qed.

(** X21: for a width of zero or more [wrap] returns, and its result is
    made of lines joined by new lines of which none is longer than the
    width plus one: a line with no place to break in it is cut after
    [maxWidth + 1] characters, one more than the width asked for. *)
Theorem wrap_lines_are_bounded (text : string) (maxWidth : Z) :
  (0 <= maxWidth)%Z ->
  exists pieces,
    wrap text maxWidth = Some (join pieces (singleton newline)) /\
    Forall (fun piece => (Z.of_nat (String.length piece) <= maxWidth + 1)%Z)
           pieces.
Proof.
  intros Hwidth. unfold wrap.
  destruct (wrapLoop_returns maxWidth (String.length text) Hwidth text "")
    as (result & Hresult & pieces & -> & Hall).
  - lia.
  - exists []. split; [reflexivity|constructor].
  - eauto.
Qed.

Lemma wrap_lines_are_bounded_witness :
  (0 <= 3)%Z /\
  wrap "abcdef" 3 = Some (join ["abcd"; "ef"] (singleton newline)) /\
  exists pieces,
    wrap "abcdef" 3 = Some (join pieces (singleton newline)) /\
    Forall (fun piece => (Z.of_nat (String.length piece) <= 3 + 1)%Z) pieces.
Proof.
  assert (H : (0 <= 3)%Z) by lia.
  split; [exact H|]. split; [reflexivity|].
  exact (wrap_lines_are_bounded "abcdef" 3 H).
Defined.

(** A text that fits in the width is returned as it is, new lines
    of its own included. *)
Theorem wrap_keeps_short_text (text : string) (maxWidth : Z) :
  (Z.of_nat (String.length text) <= maxWidth)%Z ->
  wrap text maxWidth = Some text.
Proof.
  intros H. unfold wrap. destruct text as [|c text]; [reflexivity|].
  cbn [String.length wrapLoop Nat.ltb Nat.leb].
  destruct (Z.leb_spec (Z.of_nat (S (String.length text))) maxWidth) as [_|Hgt].
  - reflexivity.
  - cbn [String.length] in H. lia.
Qed.

Lemma wrap_keeps_short_text_witness :
  (Z.of_nat (String.length "to be") <= 80)%Z /\
  wrap "to be" 80 = Some "to be".
Proof.
  assert (H : (Z.of_nat (String.length "to be") <= 80)%Z) by (cbn; lia).
  split; [exact H|].
  exact (wrap_keeps_short_text "to be" 80 H).
Defined.

(** X22: for a width below zero the loop of [wrap] never ends on a text
    that is not empty: no iteration shortens the remainder, so no
    number of iterations gives a result. *)
Theorem wrap_negative_width_never_returns (text : string) (maxWidth : Z) :
  (maxWidth < 0)%Z ->
  text <> "" ->
  forall fuel buffer, wrapLoop fuel text buffer maxWidth = None.
Proof.
  intros Hwidth Htext fuel.
  induction fuel as [|fuel IH]; intros buffer.
  - destruct text; [congruence|reflexivity].
  - cbn [wrapLoop].
    destruct text as [|c rest] eqn:Etext; [congruence|].
    cbn [String.length Nat.ltb Nat.leb].
    destruct (Z.leb_spec (Z.of_nat (S (String.length rest))) maxWidth); [lia|].
    cbn [scan]. change (Z.of_nat 0) with 0%Z.
    destruct (Z.ltb_spec 0 maxWidth); [lia|].
    cbn [Z.ltb Z.compare].
    rewrite substringFrom_nonpositive by lia.
    apply IH.
Qed.

Lemma wrap_negative_width_never_returns_witness :
  (-1 < 0)%Z /\ "a" <> "" /\
  forall fuel buffer, wrapLoop fuel "a" buffer (-1) = None.
Proof.
  assert (H1 : (-1 < 0)%Z) by lia.
  assert (H2 : "a" <> "") by discriminate.
  split; [exact H1|]. split; [exact H2|].
  exact (wrap_negative_width_never_returns "a" (-1) H1 H2).
Defined.

End UtilLoopFacts.

(** ** output/columns.ts *)

Module ColumnFacts.

Import JsString Format Columns ColumnNotions StringFacts.

#[local] Arguments String.append !_ _ / : simpl nomatch.


Lemma grows_refl (widths : gmap nat nat) : grows widths widths.
Proof. intros i width H. eauto. Qed.

Lemma grows_trans (a b c : gmap nat nat) : grows a b -> grows b c -> grows a c.
Proof.
  intros Hab Hbc i width H.
  destruct (Hab _ _ H) as (w' & H' & Hle).
  destruct (Hbc _ _ H') as (w'' & H'' & Hle').
  exists w''. split; [exact H''|lia].
Qed.

Lemma covers_grows (a b : gmap nat nat) (row : Row) :
  grows a b -> covers a row -> covers b row.
Proof.
  intros Hab Hcov i cell Hcell.
  destruct (Hcov _ _ Hcell) as (w & Hw & Hle).
  destruct (Hab _ _ Hw) as (w' & Hw' & Hle').
  exists w'. split; [exact Hw'|lia].
Qed.

(** One step of the inner loop: the index gets a width no less than
    the cell's, and no width shrinks. *)
Lemma update_cell (widths : gmap nat nat) (cell : Cell) (i : nat) :
  let widths' :=
    match widths !! i with
    | None => <[i := cellWidth cell]> widths
    | Some known =>
        if (known <? cellWidth cell)%nat
        then <[i := cellWidth cell]> widths
        else widths
    end in
  grows widths widths' /\
  exists width, widths' !! i = Some width /\ cellWidth cell <= width.
Proof.
  cbn zeta. destruct (widths !! i) as [known|] eqn:E.
  - destruct (Nat.ltb_spec known (cellWidth cell)) as [Hlt|Hge].
    + split.
      * intros j w Hj. destruct (decide (j = i)) as [->|Hne].
        -- rewrite lookup_insert_eq. exists (cellWidth cell).
           split; [reflexivity|]. rewrite E in Hj. injection Hj as <-. lia.
        -- rewrite lookup_insert_ne by congruence. eauto.
      * exists (cellWidth cell). now rewrite lookup_insert_eq.
    + split; [apply grows_refl|]. eauto.
  - split.
    + intros j w Hj. destruct (decide (j = i)) as [->|Hne]; [congruence|].
      rewrite lookup_insert_ne by congruence. eauto.
    + exists (cellWidth cell). now rewrite lookup_insert_eq.
Qed.

Lemma updateRow_grows (row : Row) :
  forall widths i, grows widths (updateRow widths row i).
Proof.
  induction row as [|cell rest IH]; intros widths i; cbn [updateRow].
  - apply grows_refl.
  - eapply grows_trans; [|apply IH]. apply update_cell.
Qed.

Lemma updateRow_covers (row : Row) :
  forall widths i j cell,
    row !! j = Some cell ->
    exists width,
      updateRow widths row i !! (i + j) = Some width /\
      cellWidth cell <= width.
Proof.
  induction row as [|first rest IH]; intros widths i j cell Hj;
    [discriminate Hj|].
  cbn [updateRow]. destruct j as [|j].
  - injection Hj as ->. rewrite Nat.add_0_r.
    destruct (update_cell widths cell i) as (_ & w & Hw & Hle).
    destruct (updateRow_grows rest _ (S i) _ _ Hw) as (w' & Hw' & Hle').
    exists w'. split; [exact Hw'|lia].
  - cbn in Hj. replace (i + S j) with (S i + j) by lia. now apply IH.
Qed.

Lemma updateColumnWidths_grows (dataSet : DataSet) :
  forall widths, grows widths (updateColumnWidths widths dataSet).
Proof.
  unfold updateColumnWidths.
  induction dataSet as [|row rest IH]; intros widths; cbn [fold_left].
  - apply grows_refl.
  - eapply grows_trans; [apply updateRow_grows|apply IH].
Qed.

Lemma updateColumnWidths_covers (dataSet : DataSet) :
  forall widths row,
    In row dataSet -> covers (updateColumnWidths widths dataSet) row.
Proof.
  unfold updateColumnWidths.
  induction dataSet as [|first rest IH]; intros widths row Hin; [destruct Hin|].
  cbn [fold_left]. destruct Hin as [->|Hin]; [|now apply IH].
  eapply covers_grows; [apply (updateColumnWidths_grows rest)|].
  intros j cell Hj. exact (updateRow_covers row widths 0 j cell Hj).
Qed.

Lemma entryOf_In {A : Type} (entries : list (string * A)) (key : string) (a : A) :
  entryOf entries key = Some a -> exists k, In (k, a) entries.
Proof.
  induction entries as [|[k b] rest IH]; [discriminate|].
  cbn [entryOf]. destruct (String.eqb k key).
  - intros [= ->]. exists k. now left.
  - intros H. destruct (IH H) as (k' & Hin). exists k'. now right.
Qed.

Lemma entryOf_setEntry {A : Type} (entries : list (string * A))
    (key key' : string) (a b : A) :
  entryOf (setEntry entries key a) key' = Some b ->
  b = a \/ entryOf entries key' = Some b.
Proof.
  induction entries as [|[k old] rest IH]; cbn [setEntry entryOf].
  - destruct (String.eqb key key'); [intros [= <-]; now left|discriminate].
  - destruct (String.eqb k key) eqn:Ek; cbn [entryOf].
    + destruct (String.eqb k key'); [intros [= <-]; now left|auto].
    + destruct (String.eqb k key'); [auto|exact IH].
Qed.

Lemma fold_sets_grows (sets : list (string * DataSet)) :
  forall widths,
    grows widths
      (fold_left (fun widths entry => updateColumnWidths widths entry.2)
                 sets widths).
Proof.
  induction sets as [|entry rest IH]; intros widths; cbn [fold_left].
  - apply grows_refl.
  - eapply grows_trans; [apply updateColumnWidths_grows|apply IH].
Qed.

Lemma fold_sets_covers (sets : list (string * DataSet)) :
  forall widths key rows row,
    In (key, rows) sets -> In row rows ->
    covers (fold_left (fun widths entry => updateColumnWidths widths entry.2)
                      sets widths) row.
Proof.
  induction sets as [|entry rest IH]; intros widths key rows row Hin Hrow;
    [destruct Hin|].
  cbn [fold_left]. destruct Hin as [->|Hin]; [|now apply (IH _ key rows)].
  eapply covers_grows; [apply fold_sets_grows|].
  now apply updateColumnWidths_covers.
Qed.

(** The widths of a printer cover every row of every data set it
    holds. *)
Lemma built_covers (this : ColumnPrinter) :
  built this ->
  forall key rows row,
    entryOf (dataSets this) key = Some rows -> In row rows ->
    covers (columnWidths this) row.
Proof.
  induction 1 as [options|this key' data Hbuilt IH]; intros key rows row Hrows Hrow.
  - cbn [newColumnPrinter dataSets columnWidths] in *.
    apply entryOf_In in Hrows as (k & Hin).
    now apply (fold_sets_covers _ _ k rows).
  - cbn [addDataSet dataSets columnWidths] in *.
    apply entryOf_setEntry in Hrows as [->|Hrows].
    + now apply updateColumnWidths_covers.
    + eapply covers_grows; [apply updateColumnWidths_grows|].
      now apply (IH key rows).
Qed.





Lemma length_repeatString (s : string) (n : nat) :
  String.length (repeatString s n) = n * String.length s.
Proof.
  induction n as [|n IH]; [reflexivity|].
  cbn [repeatString]. rewrite length_append, IH. lia.
Qed.


Lemma length_join (cells : list string) (separator : string) :
  cells <> [] ->
  String.length (join cells separator)
  = totalLength cells + (length cells - 1) * String.length separator.
Proof.
  unfold join. induction cells as [|cell rest IH]; [congruence|]. intros _.
  destruct rest as [|next rest]; [cbn; lia|].
  rewrite concat_cons by (intros [=]).
  rewrite !length_append, IH by (intros [=]).
  cbn [totalLength fold_right length]. lia.
Qed.


Lemma widthsFrom_last (widths : gmap nat nat) (n : nat) :
  forall i,
    widthsFrom widths i (S n)
    = widthsFrom widths i n + default 0 (widths !! (i + n)).
Proof.
  induction n as [|n IH]; intros i.
  - cbn [widthsFrom]. replace (i + 0) with i by lia. lia.
  - change (widthsFrom widths i (S (S n)))
      with (default 0 (widths !! i) + widthsFrom widths (S i) (S n)).
    rewrite IH. cbn [widthsFrom].
    replace (S i + n) with (i + S n) by lia. lia.
Qed.

Lemma widthsFrom_upTo (widths : gmap nat nat) (n : nat) :
  widthsFrom widths 0 n = widthsUpTo widths n.
Proof.
  induction n as [|n IH]; [reflexivity|].
  rewrite widthsFrom_last, IH. reflexivity.
Qed.

Lemma padCells_widths (this : ColumnPrinter) (row : Row) :
  String.length (paddingChar this) = 1 ->
  columnFormatters this = ∅ ->
  forall i,
    (forall j cell,
        row !! j = Some cell ->
        exists width, columnWidths this !! (i + j) = Some width /\
                      cellWidth cell <= width) ->
    exists cells,
      padCells this row i = inr cells /\
      length cells = length row /\
      totalLength cells = widthsFrom (columnWidths this) i (length row).
Proof.
  intros Hchar Hnone.
  induction row as [|cell rest IH]; intros i Hcov; cbn [padCells].
  - exists []. auto.
  - destruct (Hcov 0 cell eq_refl) as (w & Hw & Hle).
    rewrite Nat.add_0_r in Hw.
    unfold padCell at 1. rewrite Hw, Hnone, lookup_empty. unfold repeat.
    assert (Hlen : String.length (default "" cell) = cellWidth cell)
      by (now destruct cell).
    rewrite Hlen.
    destruct (Z.ltb_spec (Z.of_nat w - Z.of_nat (cellWidth cell)) 0); [lia|].
    destruct (IH (S i)) as (cells & -> & Hcount & Htotal).
    { intros j c Hj. replace (S i + j) with (i + S j) by lia. now apply Hcov. }
    eexists. split; [reflexivity|]. split; [cbn; now rewrite Hcount|].
    cbn [totalLength fold_right length widthsFrom]. fold (totalLength cells).
    rewrite Htotal, Hw, length_append, length_repeatString, Hlen, Hchar.
    cbn [default from_option id]. lia.
Qed.

(** X24: with a padding character of one code unit and no formatters, a
    row of a data set the printer holds is logged as a line whose
    length is fixed by the number of its cells alone: the prefix, the
    widths of its columns, and the padding between them.  Rows with as
    many cells are equally long, each column taking its width. *)
Theorem columns_are_aligned (this : ColumnPrinter) (key : string)
    (rows : DataSet) (row : Row) :
  built this ->
  String.length (paddingChar this) = 1 ->
  columnFormatters this = ∅ ->
  (0 <= padding this)%Z ->
  entryOf (dataSets this) key = Some rows ->
  In row rows ->
  row <> [] ->
  exists line,
    printRow this row = inr line /\
    String.length line
    = String.length (rowPrefix this)
      + widthsUpTo (columnWidths this) (length row)
      + (length row - 1) * Z.to_nat (padding this).
Proof.
  intros Hbuilt Hchar Hnone Hpad Hrows Hrow Hne.
  pose proof (built_covers this Hbuilt key rows row Hrows Hrow) as Hcov.
  destruct (padCells_widths this row Hchar Hnone 0)
    as (cells & Hcells & Hcount & Htotal); [exact Hcov|].
  unfold printRow. rewrite Hcells. unfold repeat.
  destruct (Z.ltb_spec (padding this) 0); [lia|].
  eexists. split; [reflexivity|].
  rewrite length_append, length_join.
  - rewrite Htotal, widthsFrom_upTo, Hcount, length_repeatString, Hchar. lia.
  - intros ->. destruct row; [congruence|discriminate Hcount].
Qed.

Lemma columns_are_aligned_witness :
  built groupColumns /\
  String.length (paddingChar groupColumns) = 1 /\
  columnFormatters groupColumns = ∅ /\
  (0 <= padding groupColumns)%Z /\
  printRow groupColumns [Some "cache"; None]
  = inr "  cache                   " /\
  exists line,
    printRow groupColumns [Some "cache"; None] = inr line /\
    String.length line
    = String.length (rowPrefix groupColumns)
      + widthsUpTo (columnWidths groupColumns) (length [Some "cache"; None])
      + (length [Some "cache"; None] - 1) * Z.to_nat (padding groupColumns).
Proof.
  assert (H1 : built groupColumns) by apply built_new.
  assert (H2 : String.length (paddingChar groupColumns) = 1) by reflexivity.
  assert (H3 : columnFormatters groupColumns = ∅) by reflexivity.
  assert (H4 : (0 <= padding groupColumns)%Z) by (cbn; lia).
  do 4 (split; [assumption|]). split; [vm_compute; reflexivity|].
  apply (columns_are_aligned groupColumns "groups"
           [[Some "db"; Some "Database commands"]; [Some "cache"; None]]
           [Some "cache"; None] H1 H2 H3 H4).
  - reflexivity.
  - right. now left.
  - discriminate.
Defined.

End ColumnFacts.

(** ** cli.ts: the path of [showHelp] *)

Module HelpFacts.

Import JsString JsObject Meta Columns Help HelpNotions.



End HelpFacts.

(** ** output/format.ts and output/layout.ts *)

Module RenderFacts.

Import JsString Format Colors Layout StringFacts.

#[local] Arguments String.append !_ _ / : simpl nomatch.

Lemma bright_table (baseCode resetCode : nat) (color : string) (offset : nat) :
  In (color, offset) COLOR_OFFSETS ->
  colorFormatters baseCode resetCode !! color
  = Some (ansiFormatter (baseCode + offset) resetCode) /\
  colorFormatters baseCode resetCode !! bright color
  = Some (ansiFormatter (baseCode + BRIGHT_OFFSET + offset) resetCode) /\
  colorFormatters baseCode resetCode !! ("bright" +:+ bright color) = None.
Proof.
  intros Hin. unfold COLOR_OFFSETS in Hin. cbn [In] in Hin.
  repeat (destruct Hin as [[= <- <-]|Hin];
          [repeat split; vm_compute; reflexivity|]).
  destruct Hin.
Qed.

(** X26: [colorFormatters] keeps the formatter of a colour under the
    colour's name and the formatter of its bright variant under the
    name with a capital ([Red]), not under the name the type
    [BrightColor] gives it ([brightRed]), which the table does not
    have. *)
Theorem bright_colours_are_under_capitalised_names
    (baseCode resetCode : nat) (color : string) (offset : nat) :
  In (color, offset) COLOR_OFFSETS ->
  colorFormatters baseCode resetCode !! color
  = Some (ansiFormatter (baseCode + offset) resetCode) /\
  colorFormatters baseCode resetCode !! bright color
  = Some (ansiFormatter (baseCode + BRIGHT_OFFSET + offset) resetCode) /\
  colorFormatters baseCode resetCode !! ("bright" +:+ bright color) = None.
Proof. apply bright_table. Qed.

Lemma bright_colours_are_under_capitalised_names_witness :
  In ("red", 1) COLOR_OFFSETS /\
  bright "red" = "Red" /\
  fg !! "red" = Some (ansiFormatter (30 + 1) 39) /\
  fg !! bright "red" = Some (ansiFormatter (30 + BRIGHT_OFFSET + 1) 39) /\
  fg !! ("bright" +:+ bright "red") = None.
Proof.
  assert (H : In ("red", 1) COLOR_OFFSETS) by (right; now left).
  split; [exact H|]. split; [reflexivity|].
  exact (bright_colours_are_under_capitalised_names 30 39 "red" 1 H).
Defined.

Lemma concat_empty_cons (x : string) (l : list string) :
  String.concat "" (x :: l) = x +:+ String.concat "" l.
Proof.
  destruct l as [|y l]; [cbn; now rewrite append_empty_r|reflexivity].
Qed.

Lemma concat_empty_app (l1 l2 : list string) :
  String.concat "" (l1 ++ l2)%list
  = String.concat "" l1 +:+ String.concat "" l2.
Proof.
  induction l1 as [|x l1 IH]; [reflexivity|].
  change ((x :: l1) ++ l2)%list with (x :: (l1 ++ l2))%list.
  now rewrite !concat_empty_cons, IH, append_assoc.
Qed.

(** The loop keeps all of the rendering: what it has put in the buffer
    as finished lines, and the line it is on. *)
Lemma renderLoop_keeps (parts : list TextPart) :
  forall buffer line buffer' line',
    renderLoop parts buffer line = Return (buffer', line') ->
    exists rendered lines,
      mapM renderPart parts = Return rendered /\
      buffer'
      = buffer +:+ join (map (fun l => l +:+ singleton (ascii_of_nat 10)) lines) ""
      /\ line +:+ join (map fst rendered) "" = join lines "" +:+ line'.
Proof.
  induction parts as [|part rest IH]; intros buffer line buffer' line' H.
  - injection H as <- <-. exists [], []. cbn. now rewrite !append_empty_r.
  - cbn [renderLoop mapM] in *.
    destruct (renderPart part) as [[rendered textLength]|m]; [|discriminate H].
    cbn [bind] in *.
    destruct ((0 <? String.length line)%nat
              && (maxWidth <? String.length line + textLength)%nat).
    + apply IH in H as (others & lines & -> & -> & Hline).
      exists ((rendered, textLength) :: others), (line :: lines).
      split; [reflexivity|]. unfold join in *. cbn [map fst].
      rewrite !concat_empty_cons. split.
      * now rewrite !append_assoc.
      * cbn [String.append] in Hline. now rewrite Hline, append_assoc.
    + apply IH in H as (others & lines & -> & -> & Hline).
      exists ((rendered, textLength) :: others), lines.
      split; [reflexivity|]. split; [reflexivity|].
      unfold join in *. cbn [map fst]. rewrite concat_empty_cons.
      now rewrite <- append_assoc.
Qed.

(** X27: [renderBlock] on a list of parts gives the finished lines, each
    with its new line, and then, in place of the line it was on, the
    four characters [line]: the text of the last line is not in the
    result. *)
Theorem renderBlock_replaces_last_line (parts : list TextPart) (out : string) :
  renderBlock (BlockParts parts) = Return out ->
  exists rendered lines last,
    mapM renderPart parts = Return rendered /\
    join (map fst rendered) "" = join lines "" +:+ last /\
    out = join (map (fun l => l +:+ singleton (ascii_of_nat 10)) lines) ""
          +:+ (if (0 <? String.length last)%nat then "line" else "").
Proof.
  unfold renderBlock.
  destruct (renderLoop parts "" "") as [[buffer line]|m] eqn:Hloop;
    [|discriminate].
  cbn [bind]. apply renderLoop_keeps in Hloop as (rendered & lines & Hr & -> & Hline).
  cbn [String.append] in *. intros H.
  exists rendered, lines, line. split; [exact Hr|]. split; [exact Hline|].
  destruct (0 <? String.length line)%nat; injection H as <-;
    [reflexivity|now rewrite append_empty_r].
Qed.

Lemma renderBlock_replaces_last_line_witness :
  renderBlock (BlockParts [Plain "Usage: "; Plain "demo"]) = Return "line" /\
  exists rendered lines last,
    mapM renderPart [Plain "Usage: "; Plain "demo"] = Return rendered /\
    join (map fst rendered) "" = join lines "" +:+ last /\
    "line" = join (map (fun l => l +:+ singleton (ascii_of_nat 10)) lines) ""
             +:+ (if (0 <? String.length last)%nat then "line" else "").
Proof.
  assert (H : renderBlock (BlockParts [Plain "Usage: "; Plain "demo"])
              = Return "line") by reflexivity.
  split; [exact H|].
  exact (renderBlock_replaces_last_line _ _ H).
Defined.

(** X28: a span whose colour is one of the bright names of the type
    ([brightRed] ...) cannot be rendered: [fg] has no formatter under
    that name, and [renderPart] throws on calling it. *)
Theorem bright_span_is_not_rendered (span : FormattedSpan)
    (name : string) (offset : nat) :
  In (name, offset) COLOR_OFFSETS ->
  color span = Some ("bright" +:+ bright name) ->
  exists message, renderPart (Span span) = Throw message.
Proof.
  intros Hin Hcolor.
  destruct (bright_table 30 39 name offset Hin) as (_ & _ & Habsent).
  unfold renderPart. rewrite Hcolor. unfold fg, Formatter in *.
  rewrite Habsent. cbn [bind]. eauto.
Qed.

Lemma bright_span_is_not_rendered_witness :
  In ("blue", 4) COLOR_OFFSETS /\
  (exists message,
     renderPart
       (Span {| text := "note"; color := Some "brightBlue"; bold := None;
                faint := None; italic := None; underline := None;
                strikethrough := None |})
     = Throw message).
Proof.
  assert (H : In ("blue", 4) COLOR_OFFSETS) by (do 4 right; now left).
  split; [exact H|].
  exact (bright_span_is_not_rendered
           {| text := "note"; color := Some "brightBlue"; bold := None;
              faint := None; italic := None; underline := None;
              strikethrough := None |} "blue" 4 H eq_refl).
Defined.

End RenderFacts.

(** ** ast.ts: display parts *)

Module AstFacts.

Import JsString Ast AstNotions StringFacts UtilMore.

#[local] Arguments String.append !_ _ / : simpl nomatch.

Lemma expandLoop_returns (parts : list SymbolDisplayPart) :
  forall attributes text (remainingKinds : gset string),
    (exists result,
        expandLoop parts attributes text remainingKinds = Return result)
    <-> NoDup (specialKindsOf parts)
        /\ forall k, k ∈ specialKindsOf parts -> k ∈ remainingKinds.
Proof.
  induction parts as [|part rest IH]; intros attributes text remainingKinds;
    cbn [expandLoop specialKindsOf].
  - split; [intros _; split; [constructor|]|eauto].
    intros k Hk. now apply elem_of_nil in Hk.
  - destruct (String.eqb (kind part) "text" || String.eqb (kind part) "space").
    + apply IH.
    + destruct (bool_decide_reflect (kind part ∈ remainingKinds)) as [Hin|Hout].
      * rewrite IH, NoDup_cons. split.
        -- intros (Hnodup & Hsub). split; [split; [|exact Hnodup]|].
           ++ intros Hk. apply Hsub, elem_of_difference in Hk as [_ Hk].
              apply Hk. now apply elem_of_singleton.
           ++ intros k Hk. apply elem_of_cons in Hk as [->|Hk]; [exact Hin|].
              now apply Hsub, elem_of_difference in Hk as [Hk _].
        -- intros ((Hfresh & Hnodup) & Hsub). split; [exact Hnodup|].
           intros k Hk. apply elem_of_difference. split.
           ++ apply Hsub. now right.
           ++ intros Heq. apply elem_of_singleton in Heq. now subst k.
      * split; [intros (result & [=])|].
        intros (_ & Hsub). exfalso. apply Hout, Hsub. now left.
Qed.

(** X29: [expandSymbolDisplay] returns exactly where each part that is
    neither text nor space has one of the special kinds and no such
    kind comes twice; a second part of a special kind is refused like
    a part of an unknown kind. *)
Theorem expandSymbolDisplay_takes_each_kind_once
    (parts : list SymbolDisplayPart) (specialKinds : list string) :
  (exists result, expandSymbolDisplay parts specialKinds = Return result)
  <-> NoDup (specialKindsOf parts)
      /\ forall k, In k (specialKindsOf parts) -> In k specialKinds.
Proof.
  unfold expandSymbolDisplay.
  pose proof (expandLoop_returns parts ∅ "" (list_to_set specialKinds)) as H.
  assert (Hsame :
    (forall k, k ∈ specialKindsOf parts ->
               k ∈ (list_to_set specialKinds : gset string))
    <-> (forall k, In k (specialKindsOf parts) -> In k specialKinds)).
  { split; intros Hsub k Hk.
    - apply list_elem_of_In.
      apply (elem_of_list_to_set (C := gset string)).
      apply Hsub. now apply list_elem_of_In.
    - apply elem_of_list_to_set. apply list_elem_of_In.
      apply Hsub. now apply list_elem_of_In. }
  rewrite <- Hsame, <- H.
  destruct (expandLoop parts ∅ "" (list_to_set specialKinds))
    as [[attributes text]|m]; cbn [bind].
  - split; eauto.
  - split; intros (result & [=]).
Qed.




End AstFacts.
